(** * Perceptron backend: token gate and blog write pipeline

    A shallow embedding of [src/server.js] (the second, blog-enabled
    revision of the service) and the properties its design document
    states about it.

    JavaScript strings are sequences of UTF-16 code units; every regular
    expression of the service is written without the [u] flag, so all of
    them work code unit by code unit.  A code unit is an [N]; a string is
    a list of them.

    The packages the service calls (express, jsonwebtoken, mongoose, zod)
    are not part of the source and no release of them is fixed by it.
    What the handlers rely on is modelled: the signature of a token is
    idealised, the store is a list under the unique index on [slug], and
    behaviour that differs between releases, or that belongs to the
    runtime, is a field of [Host]. *)

From Stdlib Require Import String Ascii.
From Stdlib Require Import List NArith ZArith Bool Lia.
From Stdlib Require Import Sorting.Sorted Sorting.Permutation.
Import ListNotations.

Set Implicit Arguments.

(* ================================================================== *)
(** ** Strings *)

Definition code_unit := N.
Definition jsstring := list code_unit.

(** A string literal of the source, as code units. *)
Definition lit (s : string) : jsstring :=
  map N_of_ascii (list_ascii_of_string s).

Definition jsstring_eqb (a b : jsstring) : bool :=
  if list_eq_dec N.eq_dec a b then true else false.

Definition is_empty (s : jsstring) : bool :=
  match s with [] => true | _ => false end.

Local Open Scope N_scope.

Definition HYPHEN : code_unit := 45.
Definition SPACE : code_unit := 32.

Definition is_hyphen (c : code_unit) : bool := c =? HYPHEN.
Definition is_lower (c : code_unit) : bool := (97 <=? c) && (c <=? 122).
Definition is_upper (c : code_unit) : bool := (65 <=? c) && (c <=? 90).
Definition is_digit (c : code_unit) : bool := (48 <=? c) && (c <=? 57).
Definition is_ascii (c : code_unit) : bool := c <? 128.

(** The class [[a-z0-9]]. *)
Definition is_alnum (c : code_unit) : bool := is_lower c || is_digit c.

(** The class [\s] of ECMAScript (WhiteSpace and LineTerminator); it is
    also the set [String.prototype.trim] removes. *)
Definition is_space (c : code_unit) : bool :=
  ((9 <=? c) && (c <=? 13))
  || (c =? 32) || (c =? 0xa0) || (c =? 0x1680)
  || ((0x2000 <=? c) && (c <=? 0x200a))
  || (c =? 0x2028) || (c =? 0x2029) || (c =? 0x202f)
  || (c =? 0x205f) || (c =? 0x3000) || (c =? 0xfeff).

(** What [.] refuses: the line terminators. *)
Definition is_line_terminator (c : code_unit) : bool :=
  (c =? 10) || (c =? 13) || (c =? 0x2028) || (c =? 0x2029).

Definition ascii_lower (c : code_unit) : code_unit :=
  if is_upper c then c + 32 else c.

(** [String.prototype.trim]. *)
Fixpoint trimStart (s : jsstring) : jsstring :=
  match s with
  | c :: t => if is_space c then trimStart t else s
  | [] => []
  end.

Fixpoint trimEnd (s : jsstring) : jsstring :=
  match s with
  | [] => []
  | c :: t =>
      match trimEnd t with
      | [] => if is_space c then [] else [c]
      | t' => c :: t'
      end
  end.

Definition trim (s : jsstring) : jsstring := trimEnd (trimStart s).

(** [s.replace(/[p]+/g, r)]: every maximal run of code units of the class
    [p] becomes one copy of [r].  [in_run] tells that the previous code
    unit belonged to the run being replaced. *)
Fixpoint replace_runs_from (p : code_unit -> bool) (r : jsstring)
    (in_run : bool) (s : jsstring) : jsstring :=
  match s with
  | [] => []
  | c :: t =>
      if p c
      then (if in_run then [] else r) ++ replace_runs_from p r true t
      else c :: replace_runs_from p r false t
  end.

Definition replace_runs (p : code_unit -> bool) (r s : jsstring) : jsstring :=
  replace_runs_from p r false s.

(** [s.replace(/[^p]/g, '')]. *)
Definition keep_only (p : code_unit -> bool) (s : jsstring) : jsstring :=
  filter p s.

(** [s.replace(/^-|-$/g, '')]: one hyphen at the start and one at the end
    (of what is left) are dropped. *)
Definition strip_leading_hyphen (s : jsstring) : jsstring :=
  match s with
  | c :: t => if is_hyphen c then t else s
  | [] => []
  end.

Fixpoint strip_trailing_hyphen (s : jsstring) : jsstring :=
  match s with
  | [] => []
  | [c] => if is_hyphen c then [] else [c]
  | c :: t => c :: strip_trailing_hyphen t
  end.

Definition strip_edge_hyphens (s : jsstring) : jsstring :=
  strip_trailing_hyphen (strip_leading_hyphen s).

(** [/^[a-z0-9]+(?:-[a-z0-9]+)*$/.test(s)], as the automaton of the
    expression: [slug_regex_rest] is the state reached after an
    alphanumeric code unit. *)
Fixpoint slug_regex_rest (s : jsstring) : bool :=
  match s with
  | [] => true
  | c :: t =>
      if is_alnum c then slug_regex_rest t
      else if is_hyphen c then
        match t with
        | d :: t' => is_alnum d && slug_regex_rest t'
        | [] => false
        end
      else false
  end.

Definition slug_regex_test (s : jsstring) : bool :=
  match s with
  | c :: t => is_alnum c && slug_regex_rest t
  | [] => false
  end.

(** The same expression, as a regular expression with its usual meaning. *)
Inductive regex : Type :=
| Class (p : code_unit -> bool)
| Cat (r1 r2 : regex)
| Plus (r : regex)
| Star (r : regex).

Inductive matches : regex -> jsstring -> Prop :=
| m_class p c : p c = true -> matches (Class p) [c]
| m_cat r1 r2 s1 s2 :
    matches r1 s1 -> matches r2 s2 -> matches (Cat r1 r2) (s1 ++ s2)
| m_plus_one r s : matches r s -> matches (Plus r) s
| m_plus_more r s1 s2 :
    matches r s1 -> matches (Plus r) s2 -> matches (Plus r) (s1 ++ s2)
| m_star_nil r : matches (Star r) []
| m_star_more r s1 s2 :
    matches r s1 -> matches (Star r) s2 -> matches (Star r) (s1 ++ s2).

(** [(?:-[a-z0-9]+)*]. *)
Definition slug_tail_pattern : regex :=
  Star (Cat (Class is_hyphen) (Plus (Class is_alnum))).

Definition slug_pattern : regex :=
  Cat (Plus (Class is_alnum)) slug_tail_pattern.

(* ================================================================== *)
(** ** Values of request bodies and query strings

    A field of a parsed JSON body (or of the parsed query string) is
    absent, [null], a string, or something else; of the last the service
    observes only its truthiness and its [String()] form, of type [R]. *)

Inductive js_value (R : Type) : Type :=
| JUndefined
| JNull
| JString (s : jsstring)
| JOther (truthy : bool) (rendered : R).

Arguments JUndefined {R}.
Arguments JNull {R}.
Arguments JString {R} s.
Arguments JOther {R} truthy rendered.

(** A field of the parsed query string: strings, and arrays and objects
    made of strings, all of which [String()] renders. *)
Definition query_value : Type := js_value jsstring.

(** A field of a parsed JSON body.  [JSON.parse] also builds objects
    whose own [toString] is no function (and arrays that hold one):
    [String()] throws a [TypeError] on them, and their form is [None]. *)
Definition jsval : Type := js_value (option jsstring).

Definition truthy_val (R : Type) (v : js_value R) : bool :=
  match v with
  | JUndefined | JNull => false
  | JString s => negb (is_empty s)
  | JOther b _ => b
  end.

(** [String(v)] of a query value. *)
Definition to_String (v : query_value) : jsstring :=
  match v with
  | JUndefined => lit "undefined"
  | JNull => lit "null"
  | JString s => s
  | JOther _ r => r
  end.

(** [String(v)] of a body value; [None] when it throws. *)
Definition String_or_throw (v : jsval) : option jsstring :=
  match v with
  | JUndefined => Some (lit "undefined")
  | JNull => Some (lit "null")
  | JString s => Some s
  | JOther _ r => r
  end.

Definition nullish (R : Type) (v : js_value R) : bool :=
  match v with
  | JUndefined | JNull => true
  | _ => false
  end.

(** [a ?? b]. *)
Definition coalesce (R : Type) (a b : js_value R) : js_value R :=
  if nullish a then b else a.

(** [v === s] for a string [s]. *)
Definition strict_eq_string (R : Type) (v : js_value R) (s : jsstring)
    : bool :=
  match v with
  | JString x => jsstring_eqb x s
  | _ => false
  end.

(** [String.length] counts code units; a surrogate pair, one code point,
    counts twice.  Iterating a string counts the pair once. *)
Definition is_high_surrogate (c : code_unit) : bool :=
  (0xd800 <=? c) && (c <=? 0xdbff).

Definition is_low_surrogate (c : code_unit) : bool :=
  (0xdc00 <=? c) && (c <=? 0xdfff).

(** [[...s].length]: a high surrogate followed by a low one is not
    counted, the low one is. *)
Fixpoint code_points (s : jsstring) : nat :=
  match s with
  | [] => O
  | c :: t =>
      match t with
      | d :: _ =>
          if is_high_surrogate c && is_low_surrogate d then code_points t
          else S (code_points t)
      | [] => 1%nat
      end
  end.

(** What the [min] and [max] rules of a string schema count. *)
Inductive length_measure : Type :=
| Utf16Units
| CodePoints.

Definition measured (m : length_measure) (s : jsstring) : nat :=
  match m with
  | Utf16Units => List.length s
  | CodePoints => code_points s
  end.

(* ================================================================== *)
(** ** The host platform

    What the service takes from the JavaScript runtime and its packages
    and this development does not reproduce: the Unicode case tables, the
    date parser, the URL parser behind zod's [url] check, the time-span
    reader of jsonwebtoken's [expiresIn], the locale date printer, and
    the length zod's [min] and [max] compare with their bound. *)

Record Host : Type := {
  (** [String.prototype.toLowerCase] on a string that holds a code unit
      outside ASCII. *)
  unicode_lower : jsstring -> jsstring;
  (** [Date.parse] on a non-empty string: milliseconds since the epoch,
      [None] for NaN. *)
  date_parse : jsstring -> option Z;
  (** [new URL(s)] does not throw. *)
  url_ok : jsstring -> bool;
  (** jsonwebtoken's reading of [expiresIn]: whole seconds,
      [floor(ms(e) / 1000)]; [None] when [ms] rejects the string. *)
  timespan : jsstring -> option Z;
  (** [toLocaleDateString('en-US', {year, month: 'long', day})] of a
      valid time value. *)
  long_date : Z -> jsstring;
  (** The length [z.string().min(n)] and [.max(n)] read: the [length] of
      the string in a release that reads it, the number of its code
      points in one that iterates the string. *)
  zod_counts : length_measure
}.

Section Service.

Variable host : Host.

(** [String.prototype.toLowerCase]: on ASCII-only strings it maps [A-Z]
    to [a-z] and leaves every other code unit. *)
Definition toLowerCase (s : jsstring) : jsstring :=
  if forallb is_ascii s then map ascii_lower s else unicode_lower host s.

(** The class [[a-z0-9\s-]]. *)
Definition slug_keep (c : code_unit) : bool :=
  is_alnum c || is_space c || is_hyphen c.

(** [sanitizeSlug], server.js lines 191-199. *)
Definition sanitizeSlug (value : jsstring) : jsstring :=
  strip_edge_hyphens
    (replace_runs is_hyphen [HYPHEN]
       (replace_runs is_space [HYPHEN]
          (keep_only slug_keep
             (trim (toLowerCase value))))).


(** [summarize], server.js lines 201-209.  The first expression is
    [/[#>*_`\-]|\[(.*?)\]\((.*?)\)/g]: at each position the class is tried
    first, the link form second; the two lazy groups grow one code unit at
    a time and never cross a line terminator. *)
Definition is_md_punct (c : code_unit) : bool :=
  (c =? 35) || (c =? 62) || (c =? 42) || (c =? 95) || (c =? 96) || (c =? 45).

Definition LBRACKET : code_unit := 91.
Definition RBRACKET : code_unit := 93.
Definition LPAREN : code_unit := 40.
Definition RPAREN : code_unit := 41.

(** A matcher reads a prefix of its input and returns what follows it. *)
Definition matcher := jsstring -> option jsstring.

Definition expect (c : code_unit) (k : matcher) : matcher :=
  fun s =>
    match s with
    | x :: t => if x =? c then k t else None
    | [] => None
    end.

(** [(.*?)] followed by [k]: the shortest stretch first. *)
Fixpoint lazy_dots (k : matcher) (s : jsstring) : option jsstring :=
  match k s with
  | Some rest => Some rest
  | None =>
      match s with
      | c :: t => if is_line_terminator c then None else lazy_dots k t
      | [] => None
      end
  end.

(** [(.*?)\)]. *)
Definition link_target_match : matcher :=
  lazy_dots (expect RPAREN (fun rest => Some rest)).

(** [\]\((.*?)\)]. *)
Definition link_close_match : matcher :=
  expect RBRACKET (expect LPAREN link_target_match).

(** [\[(.*?)\]\((.*?)\)]. *)
Definition link_match : matcher :=
  expect LBRACKET (lazy_dots link_close_match).

Definition md_token_match : matcher :=
  fun s =>
    match s with
    | c :: _ => if is_md_punct c then Some (tl s) else link_match s
    | [] => None
    end.

(** [s.replace(/m/g, '')] for an expression that matches no empty string:
    [skip] code units of the match found last are still to be dropped. *)
Fixpoint delete_matches_from (m : matcher) (skip : nat) (s : jsstring)
    : jsstring :=
  match s with
  | [] => []
  | c :: t =>
      match skip with
      | S k => delete_matches_from m k t
      | O =>
          match m s with
          | Some rest =>
              delete_matches_from m (List.length t - List.length rest) t
          | None => c :: delete_matches_from m 0 t
          end
      end
  end.

Definition delete_matches (m : matcher) (s : jsstring) : jsstring :=
  delete_matches_from m 0 s.

(** The constant [plain] of [summarize]. *)
Definition plain_text (content : jsstring) : jsstring :=
  trim (replace_runs is_space [SPACE] (delete_matches md_token_match content)).

Definition ELLIPSIS : jsstring := lit "...".

Definition summarize (content fallback : jsstring) : jsstring :=
  if is_empty content then fallback
  else
    let plain := plain_text content in
    let snippet := firstn 180 plain in
    snippet ++ (if (180 <? List.length plain)%nat then ELLIPSIS else []).

(* ================================================================== *)
(** ** Numbers and [Number.parseInt(_, 10)]

    [Finite z] stands for the double nearest to the integer [z].  The
    list handler compares the parsed number with 0 and takes its minimum
    with 100 only, and rounding changes neither.  An integer at or above
    [DOUBLE_OVERFLOW] has no finite double. *)

Local Open Scope Z_scope.

Inductive jsnum : Type :=
| NaN
| Finite (z : Z)
| Infinite (negative : bool).

Definition DOUBLE_OVERFLOW : Z := 2 ^ 1024 - 2 ^ 970.

Definition number_of_integer (z : Z) : jsnum :=
  if DOUBLE_OVERFLOW <=? Z.abs z then Infinite (z <? 0) else Finite z.

Fixpoint take_digits (s : jsstring) : list code_unit :=
  match s with
  | c :: t => if is_digit c then c :: take_digits t else []
  | [] => []
  end.

Definition digit_value (c : code_unit) : Z := Z.of_N c - 48.

Definition digits_value (ds : list code_unit) : Z :=
  fold_left (fun acc c => 10 * acc + digit_value c) ds 0.

Definition PLUS_SIGN : code_unit := 43%N.

Definition parseInt10 (v : query_value) : jsnum :=
  let s := trimStart (to_String v) in
  let '(negative, rest) :=
    match s with
    | c :: t =>
        if is_hyphen c then (true, t)
        else if (c =? PLUS_SIGN)%N then (false, t)
        else (false, s)
    | [] => (false, s)
    end in
  match take_digits rest with
  | [] => NaN
  | ds =>
      let n := digits_value ds in
      number_of_integer (if negative then - n else n)
  end.

(** [Number.isFinite(x) && x > 0 ? Math.min(x, 100) : undefined],
    server.js line 319. *)
Definition safeLimit (parsedLimit : jsnum) : option Z :=
  match parsedLimit with
  | Finite z => if 0 <? z then Some (Z.min z 100) else None
  | _ => None
  end.

(* ================================================================== *)
(** ** Dates *)

Inductive jsdate : Type :=
| InvalidDate
| TimeValue (t : Z).

Definition msPerDay : Z := 86400000.
Definition MAX_TIME : Z := 8640000000000000.

(** TimeClip. *)
Definition time_clip (t : Z) : jsdate :=
  if Z.abs t <=? MAX_TIME then TimeValue t else InvalidDate.

(** [new Date(s)] for a string [s]. *)
Definition new_Date (s : jsstring) : jsdate :=
  if is_empty s then InvalidDate
  else
    match date_parse host s with
    | Some t => time_clip t
    | None => InvalidDate
    end.

(** [d.setUTCHours(0, 0, 0, 0)]: [MakeDate(Day(t), 0)], clipped. *)
Definition setUTCHours0 (d : jsdate) : jsdate :=
  match d with
  | InvalidDate => InvalidDate
  | TimeValue t => time_clip (t / msPerDay * msPerDay)
  end.

(** [Number.isNaN(d.getTime())]. *)
Definition is_invalid (d : jsdate) : bool :=
  match d with
  | InvalidDate => true
  | TimeValue _ => false
  end.

(** [formatDisplayDate], server.js lines 211-218; a [Date] is truthy. *)
Definition formatDisplayDate (value : option jsdate) : jsstring :=
  match value with
  | None => []
  | Some InvalidDate => []
  | Some (TimeValue t) => long_date host t
  end.


(* ================================================================== *)
(** ** [blogPayloadSchema], server.js lines 150-166

    The rules are data; an issue names the field and the rule it broke.
    A string that fails several rules reports each of them, and the
    issues of all fields are collected in the order of the schema. *)

Inductive field : Type :=
| FTitle | FSlug | FAuthor | FDate | FExcerpt | FImage | FContent.

Inductive issue_code : Type :=
| invalid_type
| too_small
| too_big
| invalid_regex
| invalid_url
| invalid_union.

Record issue : Type := { path : field; code : issue_code }.

Inductive check : Type :=
| MinLen (n : nat)
| MaxLen (n : nat)
| SlugRegex
| Url.

(** The length of a string, as zod reads it. *)
Definition zod_length (s : jsstring) : nat := measured (zod_counts host) s.

Definition run_check (f : field) (s : jsstring) (c : check) : list issue :=
  match c with
  | MinLen n =>
      if (zod_length s <? n)%nat then [{| path := f; code := too_small |}]
      else []
  | MaxLen n =>
      if (n <? zod_length s)%nat then [{| path := f; code := too_big |}]
      else []
  | SlugRegex =>
      if slug_regex_test s then []
      else [{| path := f; code := invalid_regex |}]
  | Url =>
      if url_ok host s then [] else [{| path := f; code := invalid_url |}]
  end.

(** The outcome of parsing: the issues, or the value. *)
Definition parsed (A : Type) : Type := (list issue + A)%type.

(** [z.string()] with its checks. *)
Definition z_string (f : field) (checks : list check) (v : jsval)
    : parsed jsstring :=
  match v with
  | JString s =>
      match flat_map (run_check f s) checks with
      | [] => inr s
      | issues => inl issues
      end
  | _ => inl [{| path := f; code := invalid_type |}]
  end.

(** [.optional()]. *)
Definition z_optional (A : Type) (inner : jsval -> parsed A) (v : jsval)
    : parsed (option A) :=
  match v with
  | JUndefined => inr None
  | _ =>
      match inner v with
      | inr a => inr (Some a)
      | inl issues => inl issues
      end
  end.

(** [.default(d)]. *)
Definition z_default (A : Type) (d : jsval) (inner : jsval -> parsed A)
    (v : jsval) : parsed A :=
  inner (match v with JUndefined => d | _ => v end).

(** A schema that stopped at the type of the value reports
    [invalid_type]; one that went on to its rules reports what they
    found. *)
Definition stopped_at_type (issues : list issue) : bool :=
  existsb (fun i => match code i with invalid_type => true | _ => false end)
    issues.

(** [a.or(z.literal(''))]: the first branch that accepts wins.  When none
    does, the issues of the branch that got past the type are reported as
    they are; when both stopped at the type, the issue is
    [invalid_union]. *)
Definition z_or_empty_literal (f : field)
    (inner : jsval -> parsed (option jsstring)) (v : jsval)
    : parsed (option jsstring) :=
  match inner v with
  | inr a => inr a
  | inl issues =>
      if strict_eq_string v [] then inr (Some [])
      else if stopped_at_type issues then
        inl [{| path := f; code := invalid_union |}]
      else inl issues
  end.

(** The request body of [POST /blogs]: the seven keys the schema reads
    (a missing body, like a missing key, reads as [undefined]). *)
Record payload : Type := {
  p_title : jsval;
  p_slug : jsval;
  p_author : jsval;
  p_date : jsval;
  p_excerpt : jsval;
  p_image : jsval;
  p_content : jsval
}.

(** [parsed.data]. *)
Record blog_data : Type := {
  d_title : jsstring;
  d_slug : jsstring;
  d_author : option jsstring;
  d_date : option jsstring;
  d_excerpt : option jsstring;
  d_image : option jsstring;
  d_content : jsstring
}.

(** Issues of two fields add up. *)
Definition both (A B : Type) (f : parsed (A -> B)) (x : parsed A) : parsed B :=
  match f, x with
  | inr g, inr a => inr (g a)
  | inl e1, inl e2 => inl (e1 ++ e2)
  | inl e, inr _ => inl e
  | inr _, inl e => inl e
  end.

Definition title_schema := z_string FTitle [MinLen 3; MaxLen 160].
Definition slug_schema := z_string FSlug [MinLen 3; MaxLen 160; SlugRegex].
Definition author_schema :=
  z_default (JString []) (z_optional (z_string FAuthor [MaxLen 120])).
Definition date_schema := z_optional (z_string FDate [MaxLen 40]).
Definition excerpt_schema := z_optional (z_string FExcerpt [MaxLen 320]).
Definition image_schema :=
  z_or_empty_literal FImage (z_optional (z_string FImage [Url])).
Definition content_schema := z_string FContent [MinLen 20].

(** [blogPayloadSchema.safeParse]. *)
Definition safeParse (p : payload) : parsed blog_data :=
  both (both (both (both (both (both (both
    (inr Build_blog_data)
    (title_schema (p_title p)))
    (slug_schema (p_slug p)))
    (author_schema (p_author p)))
    (date_schema (p_date p)))
    (excerpt_schema (p_excerpt p)))
    (image_schema (p_image p)))
    (content_schema (p_content p)).

(* ================================================================== *)
(** ** Documents and the public representation *)

(** What [new BlogPost({...})] holds. *)
Record document : Type := {
  doc_slug : jsstring;
  doc_title : jsstring;
  doc_author : jsstring;
  doc_excerpt : jsstring;
  doc_image : jsstring;
  doc_content : jsstring;
  doc_publishedAt : option jsdate
}.

(** A document of the collection, as [lean()] returns it. *)
Record stored : Type := {
  st_slug : jsstring;
  st_title : jsstring;
  st_author : jsstring;
  st_excerpt : jsstring;
  st_image : jsstring;
  st_content : jsstring;
  st_publishedAt : option Z;
  st_createdAt : Z
}.

Record public_post : Type := {
  r_slug : jsstring;
  r_title : jsstring;
  r_author : jsstring;
  r_excerpt : jsstring;
  r_image : option jsstring;
  r_content : jsstring;
  r_date : jsstring
}.

Definition FALLBACK_AUTHOR : jsstring := lit "Perceptron Team".

(** [a || b] on strings. *)
Definition or_else (a b : jsstring) : jsstring := if is_empty a then b else a.

(** [toBlogResponse], server.js lines 220-232. *)
Definition toBlogResponse (document : option stored) : option public_post :=
  match document with
  | None => None
  | Some d =>
      let publishedAt :=
        match st_publishedAt d with
        | Some t => t
        | None => st_createdAt d
        end in
      Some {|
        r_slug := st_slug d;
        r_title := st_title d;
        r_author := or_else (st_author d) FALLBACK_AUTHOR;
        r_excerpt := or_else (st_excerpt d) (summarize (st_content d) []);
        r_image := if is_empty (st_image d) then None else Some (st_image d);
        r_content := st_content d;
        r_date := formatDisplayDate (Some (TimeValue publishedAt))
      |}
  end.


(* ================================================================== *)
(** ** Configuration, server.js lines 114-133 *)

Record environment : Type := {
  env_ADMIN_SECRET_KEY : option jsstring;
  env_AUTH_TOKEN_SECRET : option jsstring;
  env_TOKEN_EXPIRY : option jsstring;
  env_MONGODB_URI : option jsstring;
  env_NODE_ENV : option jsstring
}.

(** The constants of the module, and the [env] setting of the Express
    application ([process.env.NODE_ENV || 'development']). *)
Record config : Type := {
  ADMIN_SECRET_KEY : jsstring;
  AUTH_TOKEN_SECRET : jsstring;
  TOKEN_EXPIRY : jsstring;
  express_env : jsstring
}.

(** [process.env.X || d]: an unset variable and an empty one both give [d]. *)
Definition env_or (v : option jsstring) (d : jsstring) : jsstring :=
  match v with
  | Some s => or_else s d
  | None => d
  end.

(** The three guards of lines 120-133: [None] is [process.exit(1)] at one
    of them, otherwise the constants the module goes on with.  (Passing
    them is not yet serving: [start] exits as well when the connection to
    the database fails.) *)
Definition load_config (e : environment) : option config :=
  let admin := env_or (env_ADMIN_SECRET_KEY e) [] in
  let signing := env_or (env_AUTH_TOKEN_SECRET e) admin in
  let expiry := env_or (env_TOKEN_EXPIRY e) (lit "30m") in
  if is_empty admin then None
  else if is_empty signing then None
  else if is_empty (env_or (env_MONGODB_URI e) []) then None
  else Some {| ADMIN_SECRET_KEY := admin;
               AUTH_TOKEN_SECRET := signing;
               TOKEN_EXPIRY := expiry;
               express_env := env_or (env_NODE_ENV e) (lit "development") |}.

Variable cfg : config.

(* ================================================================== *)
(** ** The state a request runs in *)

(** [buildTokenPayload()], server.js lines 186-189. *)
Record token_payload : Type := {
  scope : list jsstring;
  issuedAt : Z
}.

(** What [jwt.verify] returns: the payload that was signed.  A token of
    [POST /auth/login] has [iat] and [exp] and no [nbf]; one signed with
    the same key elsewhere may have an [nbf] and may have no [exp]. *)
Record claims : Type := {
  c_scope : list jsstring;
  c_issuedAt : Z;
  c_iat : Z;
  c_nbf : option Z;
  c_exp : option Z
}.

(** A signature, idealised: the text of a token stands for the claims
    and the key it was made from, and for nothing else. *)
Record signed : Type := {
  signed_with : jsstring;
  signed_claims : claims
}.

Inductive js_error : Type :=
| ValidationError
| MongoServerError (errcode : Z)
| NetworkError.

(** [error.code], where the error has one. *)
Definition error_code (e : js_error) : option Z :=
  match e with
  | MongoServerError c => Some c
  | _ => None
  end.

Inductive sort_field : Type := ByPublishedAt | ByCreatedAt.

Inductive db_call : Type :=
| CallSave (d : document)
| CallFind (order : list (sort_field * Z)) (limit : Z)
| CallFindOne (slug : jsstring).

Inductive log_entry : Type :=
| ConsoleError (message : jsstring)   (* console.error(message, error) *)
| ConsoleStack.                       (* console.error(error.stack) *)

Record world : Type := {
  clock : Z;                             (* Date.now(), milliseconds *)
  minted : list (jsstring * signed);     (* the tokens jwt.sign has made *)
  collection : list stored;              (* the BlogPost collection *)
  db_fault : option js_error;            (* the store is failing with this *)
  db_calls : list db_call;               (* the calls made to the store *)
  console : list log_entry               (* what console.error has written *)
}.

Definition console_log (entry : log_entry) (w : world) : world :=
  {| clock := clock w; minted := minted w; collection := collection w;
     db_fault := db_fault w; db_calls := db_calls w;
     console := console w ++ [entry] |}.

Definition console_error (message : jsstring) (w : world) : world :=
  console_log (ConsoleError message) w.

Definition record_call (c : db_call) (w : world) : world :=
  {| clock := clock w; minted := minted w; collection := collection w;
     db_fault := db_fault w; db_calls := db_calls w ++ [c];
     console := console w |}.

Definition with_minted (m : list (jsstring * signed)) (w : world) : world :=
  {| clock := clock w; minted := m; collection := collection w;
     db_fault := db_fault w; db_calls := db_calls w;
     console := console w |}.

Definition with_collection (c : list stored) (w : world) : world :=
  {| clock := clock w; minted := minted w; collection := c;
     db_fault := db_fault w; db_calls := db_calls w;
     console := console w |}.

(* ================================================================== *)
(** ** jsonwebtoken *)

(** The text of the [n]-th token. *)
Definition token_text (n : nat) : jsstring := lit "jwt." ++ repeat 120%N n.

Fixpoint lookup_token (m : list (jsstring * signed)) (t : jsstring)
    : option signed :=
  match m with
  | [] => None
  | (k, v) :: rest => if jsstring_eqb k t then Some v else lookup_token rest t
  end.

(** [jwt.sign(payload, key, { expiresIn })]; [None] when it throws. *)
Definition jwt_sign (payload : token_payload) (key expiresIn : jsstring)
    (w : world) : option (jsstring * world) :=
  match timespan host expiresIn with
  | None => None
  | Some span =>
      let iat := clock w / 1000 in
      let c := {| c_scope := scope payload; c_issuedAt := issuedAt payload;
                  c_iat := iat; c_nbf := None; c_exp := Some (iat + span) |} in
      let token := token_text (List.length (minted w)) in
      Some (token,
            with_minted
              ((token, {| signed_with := key; signed_claims := c |})
                 :: minted w) w)
  end.

(** [payload.nbf > clockTimestamp], for a payload that has an [nbf]. *)
Definition not_yet_valid (c : claims) (now : Z) : bool :=
  match c_nbf c with
  | Some nbf => now <? nbf
  | None => false
  end.

(** [clockTimestamp >= payload.exp], for a payload that has an [exp]. *)
Definition expired (c : claims) (now : Z) : bool :=
  match c_exp c with
  | Some exp => exp <=? now
  | None => false
  end.

(** [jwt.verify(token, key)]; [None] when it throws. *)
Definition jwt_verify (token key : jsstring) (w : world) : option claims :=
  if is_empty token then None
  else
    match lookup_token (minted w) token with
    | None => None
    | Some s =>
        let now := clock w / 1000 in
        if negb (jsstring_eqb (signed_with s) key) then None
        else if not_yet_valid (signed_claims s) now then None
        else if expired (signed_claims s) now then None
        else Some (signed_claims s)
    end.

Definition buildTokenPayload (w : world) : token_payload :=
  {| scope := [lit "blog:create"]; issuedAt := clock w |}.

(* ================================================================== *)
(** ** The BlogPost model, server.js lines 168-184 *)

(** The setters of [blogPostSchema]: [trim: true] on five paths. *)
Definition new_BlogPost (slug title author excerpt image content : jsstring)
    (publishedAt : option jsdate) : document :=
  {| doc_slug := trim slug;
     doc_title := trim title;
     doc_author := trim author;
     doc_excerpt := trim excerpt;
     doc_image := trim image;
     doc_content := content;
     doc_publishedAt := publishedAt |}.

(** The validators of [blogPostSchema]: three required strings, and a
    date that is a date. *)
Definition document_valid (d : document) : bool :=
  negb (is_empty (doc_slug d))
  && negb (is_empty (doc_title d))
  && negb (is_empty (doc_content d))
  && match doc_publishedAt d with
     | Some InvalidDate => false
     | _ => true
     end.

Definition store_document (d : document) (createdAt : Z) : stored :=
  {| st_slug := doc_slug d;
     st_title := doc_title d;
     st_author := doc_author d;
     st_excerpt := doc_excerpt d;
     st_image := doc_image d;
     st_content := doc_content d;
     st_publishedAt :=
       match doc_publishedAt d with
       | Some (TimeValue t) => Some t
       | _ => None
       end;
     st_createdAt := createdAt |}.

(** [document.save()]: validation, then the insert under the unique
    index on [slug]. *)
Definition BlogPost_save (d : document) (w : world)
    : (js_error + unit) * world :=
  let w := record_call (CallSave d) w in
  if negb (document_valid d) then (inl ValidationError, w)
  else
    match db_fault w with
    | Some e => (inl e, w)
    | None =>
        if existsb (fun s => jsstring_eqb (st_slug s) (doc_slug d))
             (collection w)
        then (inl (MongoServerError 11000), w)
        else (inr tt,
              with_collection (collection w ++ [store_document d (clock w)]) w)
    end.

(** The order of a sort specification: a missing date sorts below every
    date, and a negative direction reverses a key. *)
Definition compare_dates (a b : option Z) : comparison :=
  match a, b with
  | None, None => Eq
  | None, Some _ => Lt
  | Some _, None => Gt
  | Some x, Some y => x ?= y
  end.

Definition field_compare (f : sort_field) (a b : stored) : comparison :=
  match f with
  | ByPublishedAt => compare_dates (st_publishedAt a) (st_publishedAt b)
  | ByCreatedAt => st_createdAt a ?= st_createdAt b
  end.

Fixpoint compare_by (order : list (sort_field * Z)) (a b : stored)
    : comparison :=
  match order with
  | [] => Eq
  | (f, direction) :: rest =>
      match field_compare f a b with
      | Eq => compare_by rest a b
      | c => if direction <? 0 then CompOpp c else c
      end
  end.

Definition precedes (order : list (sort_field * Z)) (a b : stored) : bool :=
  match compare_by order a b with
  | Gt => false
  | _ => true
  end.

Fixpoint insert_by (order : list (sort_field * Z)) (x : stored)
    (l : list stored) : list stored :=
  match l with
  | [] => [x]
  | y :: t =>
      if precedes order x y then x :: l else y :: insert_by order x t
  end.

Definition sort_by (order : list (sort_field * Z)) (l : list stored)
    : list stored :=
  fold_right (insert_by order) [] l.

(** [limit(n)]: 0 is no limit. *)
Definition apply_limit (limit : Z) (l : list stored) : list stored :=
  if limit =? 0 then l else firstn (Z.abs_nat limit) l.

(** [BlogPost.find({}).sort(order).limit(limit).lean().exec()]. *)
Definition BlogPost_find (order : list (sort_field * Z)) (limit : Z) (w : world)
    : (js_error + list stored) * world :=
  let w := record_call (CallFind order limit) w in
  match db_fault w with
  | Some e => (inl e, w)
  | None => (inr (apply_limit limit (sort_by order (collection w))), w)
  end.

(** [BlogPost.findOne({ slug }).lean().exec()].  Mongoose casts the
    filter by the schema, and the cast of the path [slug] runs its
    setters: the store is asked for the slug trimmed. *)
Definition BlogPost_findOne (slug : jsstring) (w : world)
    : (js_error + option stored) * world :=
  let w := record_call (CallFindOne slug) w in
  match db_fault w with
  | Some e => (inl e, w)
  | None =>
      (inr (List.find (fun s => jsstring_eqb (st_slug s) (trim slug))
              (collection w)),
       w)
  end.


(* ================================================================== *)
(** ** Responses *)

Inductive body : Type :=
| ErrorBody (error : jsstring)                   (* { error } *)
| InvalidPayloadBody (issues : list issue)       (* { error, issues } *)
| TokenBody (token expiresIn : jsstring)         (* { token, expiresIn } *)
| ValidBody (decoded : claims)                   (* { valid: true, decoded } *)
| InvalidBody (error : jsstring)                 (* { valid: false, error } *)
| PostsBody (posts : list (option public_post))  (* { posts } *)
| PostBody (post : option public_post)           (* { post } *)
| SlugBody (slug : jsstring)                     (* { slug } *)
| UncaughtBody.                                  (* Express's own 500 *)

Record response : Type := { status : Z; content : body }.

Definition respond (status : Z) (b : body) : response :=
  {| status := status; content := b |}.

Definition MSG_MISSING_HEADER : jsstring := lit "Missing authorization header.".
Definition MSG_INVALID_TOKEN : jsstring := lit "Invalid or expired token.".
Definition MSG_SLUG_EXISTS : jsstring :=
  lit "A blog post with this slug already exists.".
Definition MSG_STORE_FAILED : jsstring := lit "Failed to store the blog post.".
Definition MSG_NOT_FOUND : jsstring := lit "Blog post not found.".

(** The taxonomy of the design document, read off a response. *)
Inductive failure : Type :=
| MissingCredential
| InvalidOrExpired
| ValidationFailed
| SlugConflict
| NotFound
| PersistenceFailed.

Definition failure_of (r : response) : option failure :=
  match status r, content r with
  | 401, ErrorBody m =>
      if jsstring_eqb m MSG_MISSING_HEADER then Some MissingCredential
      else if jsstring_eqb m MSG_INVALID_TOKEN then Some InvalidOrExpired
      else None
  | 401, InvalidBody _ => Some InvalidOrExpired
  | 400, InvalidPayloadBody _ => Some ValidationFailed
  | 409, ErrorBody _ => Some SlugConflict
  | 404, ErrorBody m =>
      if jsstring_eqb m MSG_NOT_FOUND then Some NotFound else None
  | 500, ErrorBody _ => Some PersistenceFailed
  | _, _ => None
  end.

(* ================================================================== *)
(** ** [authRoutes], server.js lines 281-312 *)

(** An error no handler catches reaches the final handler of Express: it
    answers 500 and, unless the [env] setting is [test], writes the stack
    of the error with [console.error]. *)
Definition uncaught (w : world) : response * world :=
  (respond 500 UncaughtBody,
   if jsstring_eqb (express_env cfg) (lit "test") then w
   else console_log ConsoleStack w).

(** [POST /auth/login] with [req.body.secretKey]; the handler has no
    [try], so what [jwt.sign] throws is not caught by it. *)
Definition login (secretKey : jsval) (w : world) : response * world :=
  if negb (truthy_val secretKey) then
    (respond 400 (ErrorBody (lit "Secret key is required.")), w)
  else if negb (strict_eq_string secretKey (ADMIN_SECRET_KEY cfg)) then
    (respond 401 (ErrorBody (lit "Invalid credentials.")), w)
  else
    match jwt_sign (buildTokenPayload w) (AUTH_TOKEN_SECRET cfg)
            (TOKEN_EXPIRY cfg) w with
    | Some (token, w') => (respond 200 (TokenBody token (TOKEN_EXPIRY cfg)), w')
    | None => uncaught w
    end.

(** [POST /auth/verify] with [req.body.token]. *)
Definition verify (token : jsval) (w : world) : response * world :=
  if negb (truthy_val token) then
    (respond 400 (ErrorBody (lit "Token is required.")), w)
  else
    match
      match token with
      | JString t => jwt_verify t (AUTH_TOKEN_SECRET cfg) w
      | _ => None
      end
    with
    | Some decoded => (respond 200 (ValidBody decoded), w)
    | None => (respond 401 (InvalidBody MSG_INVALID_TOKEN), w)
    end.

(* ================================================================== *)
(** ** [verifyToken], server.js lines 234-248 *)

Definition BEARER : jsstring := lit "Bearer ".

Definition startsWith (s prefix : jsstring) : bool :=
  jsstring_eqb (firstn (List.length prefix) s) prefix.

(** The middleware answers itself ([Some response]) or calls [next()]
    ([None]). *)
Definition verifyToken (authorization : option jsstring) (w : world)
    : option response * world :=
  match authorization with
  | None => (Some (respond 401 (ErrorBody MSG_MISSING_HEADER)), w)
  | Some a =>
      if is_empty a || negb (startsWith a BEARER) then
        (Some (respond 401 (ErrorBody MSG_MISSING_HEADER)), w)
      else
        let token := trim (skipn (List.length BEARER) a) in
        match jwt_verify token (AUTH_TOKEN_SECRET cfg) w with
        | Some _ => (None, w)
        | None =>
            (Some (respond 401 (ErrorBody MSG_INVALID_TOKEN)),
             console_error (lit "Invalid token") w)
        end
  end.

(* ================================================================== *)
(** ** [blogRoutes], server.js lines 314-391 *)

(** [{ publishedAt: -1, createdAt: -1 }]. *)
Definition NEWEST_FIRST : list (sort_field * Z) :=
  [(ByPublishedAt, -1); (ByCreatedAt, -1)].

(** [safeLimit ?? 0]. *)
Definition limit_or_zero (l : option Z) : Z :=
  match l with
  | Some n => n
  | None => 0
  end.

(** [GET /blogs] with [req.query.limit]. *)
Definition listBlogs (limit : query_value) (w : world) : response * world :=
  let parsedLimit := parseInt10 limit in
  match
    BlogPost_find NEWEST_FIRST (limit_or_zero (safeLimit parsedLimit)) w
  with
  | (inr posts, w') =>
      (respond 200
         (PostsBody
            (map (fun document => toBlogResponse (Some document)) posts)),
       w')
  | (inl _, w') =>
      (respond 500 (ErrorBody (lit "Failed to fetch blog posts.")),
       console_error (lit "Failed to list blog posts") w')
  end.

(** [GET /blogs/:slug]. *)
Definition getBlog (slug : jsstring) (w : world) : response * world :=
  match BlogPost_findOne slug w with
  | (inr None, w') => (respond 404 (ErrorBody MSG_NOT_FOUND), w')
  | (inr (Some document), w') =>
      (respond 200 (PostBody (toBlogResponse (Some document))), w')
  | (inl _, w') =>
      (respond 500
         (ErrorBody (lit "Failed to fetch the requested blog post.")),
       console_error (lit "Failed to fetch blog post") w')
  end.

(** [req.body?.slug ?? req.body?.title ?? ''], then [String], then
    [sanitizeSlug]: server.js line 350; [None] when [String] throws. *)
Definition slug_candidate (p : payload) : option jsstring :=
  String_or_throw (coalesce (p_slug p) (coalesce (p_title p) (JString []))).

Definition normalizedSlug (p : payload) : option jsstring :=
  option_map sanitizeSlug (slug_candidate p).

(** [{ ...req.body, slug: normalizedSlug }]. *)
Definition with_slug (p : payload) (slug : jsstring) : payload :=
  {| p_title := p_title p; p_slug := JString slug; p_author := p_author p;
     p_date := p_date p; p_excerpt := p_excerpt p; p_image := p_image p;
     p_content := p_content p |}.

(** [publishedAt], server.js lines 360-367. *)
Definition publishedAt_of (data : blog_data) : option jsdate :=
  match d_date data with
  | Some s =>
      if is_empty s then None
      else
        let candidate := new_Date s in
        if is_invalid candidate then None
        else Some (setUTCHours0 candidate)
  | None => None
  end.

(** [x?.trim() || '']. *)
Definition trimmed_or_empty (x : option jsstring) : jsstring :=
  match x with
  | Some s => trim s
  | None => []
  end.

(** The document of server.js lines 369-377. *)
Definition build_document (data : blog_data) : document :=
  new_BlogPost
    (d_slug data)
    (trim (d_title data))
    (or_else (trim (match d_author data with Some a => a | None => [] end))
       FALLBACK_AUTHOR)
    (trimmed_or_empty (d_excerpt data))
    (trimmed_or_empty (d_image data))
    (trim (d_content data))
    (publishedAt_of data).

(** The [catch] of the handler, for an error whose [code] is not 11000. *)
Definition store_failed (w : world) : response * world :=
  (respond 500 (ErrorBody MSG_STORE_FAILED),
   console_error (lit "Failed to persist blog post") w).

(** The handler of [POST /blogs], behind the middleware.  All of it runs
    inside the [try]: what [String] throws on the slug candidate is
    caught like a failure of the store. *)
Definition createBlog (p : payload) (w : world) : response * world :=
  match normalizedSlug p with
  | None => store_failed w
  | Some slug =>
      match safeParse (with_slug p slug) with
      | inl issues => (respond 400 (InvalidPayloadBody issues), w)
      | inr data =>
          let document := build_document data in
          match BlogPost_save document w with
          | (inr _, w') => (respond 201 (SlugBody (doc_slug document)), w')
          | (inl error, w') =>
              match error_code error with
              | Some 11000 => (respond 409 (ErrorBody MSG_SLUG_EXISTS), w')
              | _ => store_failed w'
              end
          end
      end
  end.

(** [server.post('/blogs', verifyToken, handler)]. *)
Definition postBlogs (authorization : option jsstring) (p : payload)
    (w : world) : response * world :=
  match verifyToken authorization w with
  | (Some rejection, w') => (rejection, w')
  | (None, w') => createBlog p w'
  end.


(* ================================================================== *)
(** ** Shapes of strings, for the statements below *)

(** No two neighbours are both of the class [p]. *)
Fixpoint no_adjacent (p : code_unit -> bool) (s : jsstring) : bool :=
  match s with
  | [] => true
  | a :: t =>
      match t with
      | b :: _ => negb (p a && p b)
      | [] => true
      end && no_adjacent p t
  end.

Definition head_is (p : code_unit -> bool) (s : jsstring) : bool :=
  match s with
  | c :: _ => p c
  | [] => false
  end.

Fixpoint last_is (p : code_unit -> bool) (s : jsstring) : bool :=
  match s with
  | [] => false
  | [c] => p c
  | _ :: t => last_is p t
  end.

(** The class [[a-z0-9-]]. *)
Definition slug_char (c : code_unit) : bool := is_alnum c || is_hyphen c.

(** Segments of [[a-z0-9]] joined by single hyphens, read without the
    expression: only slug characters, no two hyphens in a row, no hyphen
    at either end. *)
Definition slug_shaped (s : jsstring) : bool :=
  forallb slug_char s
  && no_adjacent is_hyphen s
  && negb (head_is is_hyphen s)
  && negb (last_is is_hyphen s).













(** Newest first, in the words of the design document: by [publishedAt]
    descending, ties broken by [createdAt] descending; a document without
    [publishedAt] comes after every document that has one. *)
Definition newest_first (a b : stored) : Prop :=
  match st_publishedAt a, st_publishedAt b with
  | Some x, Some y => (y < x \/ (x = y /\ st_createdAt b <= st_createdAt a))%Z
  | Some _, None => True
  | None, Some _ => False
  | None, None => (st_createdAt b <= st_createdAt a)%Z
  end.

(** What [GET /blogs] hands to the response mapper, given the reading of
    the limit and the sorted collection. *)
Definition limited (parsedLimit : jsnum) (sorted : list stored)
    : list stored :=
  match parsedLimit with
  | Finite n =>
      if (0 <? n)%Z then firstn (Z.to_nat (Z.min n 100)) sorted else sorted
  | NaN | Infinite _ => sorted
  end.

(** The start of the UTC calendar day of [t]: the multiple [m] of a day
    with [m <= t < m + msPerDay]. *)
Definition utc_day_start (t m : Z) : Prop :=
  (exists k, m = k * msPerDay)%Z /\ (m <= t < m + msPerDay)%Z.

(** The same payload without its date, and parsed data with a date. *)
Definition without_date (p : payload) : payload :=
  {| p_title := p_title p; p_slug := p_slug p; p_author := p_author p;
     p_date := JUndefined; p_excerpt := p_excerpt p; p_image := p_image p;
     p_content := p_content p |}.

Definition with_date (date : option jsstring) (d : blog_data) : blog_data :=
  {| d_title := d_title d; d_slug := d_slug d; d_author := d_author d;
     d_date := date; d_excerpt := d_excerpt d; d_image := d_image d;
     d_content := d_content d |}.

(** The same world at another time. *)
Definition at_time (t : Z) (w : world) : world :=
  {| clock := t; minted := minted w; collection := collection w;
     db_fault := db_fault w; db_calls := db_calls w; console := console w |}.

(* ================================================================== *)
(** ** [allowedOrigins] and the [origin] option of [cors],
    server.js lines 135-145 *)

Definition COMMA : code_unit := 44%N.

(** [s.split(',')]: the pieces between commas; the empty string has one
    piece, the empty one. *)
Fixpoint split_comma (s : jsstring) : list jsstring :=
  match s with
  | [] => [[]]
  | c :: t =>
      if (c =? COMMA)%N then [] :: split_comma t
      else
        match split_comma t with
        | piece :: rest => (c :: piece) :: rest
        | [] => [[c]]
        end
  end.

(** [pieces.join(',')]. *)
Fixpoint join_comma (pieces : list jsstring) : jsstring :=
  match pieces with
  | [] => []
  | [piece] => piece
  | piece :: rest => piece ++ COMMA :: join_comma rest
  end.

(** [(process.env.ALLOWED_ORIGINS || '').split(',')
       .map((origin) => origin.trim()).filter(Boolean)]. *)
Definition allowedOrigins (ALLOWED_ORIGINS : option jsstring)
    : list jsstring :=
  filter (fun origin => negb (is_empty origin))
    (map trim (split_comma (env_or ALLOWED_ORIGINS []))).

(** [allowedOrigins.length > 0 ? allowedOrigins : true]. *)
Inductive cors_origin : Type :=
| AnyOrigin
| OriginList (origins : list jsstring).

Definition cors_origin_option (origins : list jsstring) : cors_origin :=
  match origins with
  | [] => AnyOrigin
  | _ => OriginList origins
  end.

(* ================================================================== *)
(** ** What holds of a payload the schema accepts, and of a stored post *)

Definition length_between (lo hi : nat) (s : jsstring) : bool :=
  (lo <=? zod_length s)%nat && (zod_length s <=? hi)%nat.

(** A field that may be left out, and otherwise is a string that [ok]. *)
Definition optional_string (ok : jsstring -> bool) (v : jsval) : bool :=
  match v with
  | JUndefined => true
  | JString s => ok s
  | _ => false
  end.

(** The rules of [blogPayloadSchema], read field by field. *)
Definition payload_acceptable (p : payload) : bool :=
  match p_title p with
  | JString t => length_between 3 160 t
  | _ => false
  end
  && match p_slug p with
     | JString s => length_between 3 160 s && slug_regex_test s
     | _ => false
     end
  && optional_string (length_between 0 120) (p_author p)
  && optional_string (length_between 0 40) (p_date p)
  && optional_string (length_between 0 320) (p_excerpt p)
  && optional_string (fun i => url_ok host i || is_empty i) (p_image p)
  && match p_content p with
     | JString c => (20 <=? zod_length c)%nat
     | _ => false
     end.

(** The schema accepted the payload. *)
Definition accepted (A : Type) (r : parsed A) : bool :=
  match r with
  | inr _ => true
  | inl _ => false
  end.

(** A post as the write pipeline stores it. *)
Definition post_ok (s : stored) : Prop :=
  slug_shaped (st_slug s) = true
  /\ (3 <= List.length (st_slug s) <= 160)%nat
  /\ (1 <= List.length (st_title s))%nat
  /\ (zod_length (st_title s) <= 160)%nat
  /\ head_is is_space (st_title s) = false
  /\ last_is is_space (st_title s) = false
  /\ (1 <= List.length (st_author s))%nat
  /\ (zod_length (st_author s) <= 120)%nat
  /\ (zod_length (st_excerpt s) <= 320)%nat
  /\ (1 <= List.length (st_content s))%nat
  /\ (forall t, st_publishedAt s = Some t -> exists k, t = (k * msPerDay)%Z).

(* ================================================================== *)
(** ** A host, a configuration and a few requests to run the service on *)

Fixpoint table_lookup (table : list (jsstring * Z)) (k : jsstring)
    : option Z :=
  match table with
  | [] => None
  | (x, v) :: rest => if jsstring_eqb x k then Some v else table_lookup rest k
  end.

(** Three strings [Date.parse] reads, the last in the form
    [Date.prototype.toString] prints. *)
Definition sample_dates : list (jsstring * Z) :=
  [(lit "2024-01-05", 1704412800000%Z);
   (lit "2024-01-05T13:45:00Z", 1704462300000%Z);
   (lit "Fri Jan 05 2024 13:45:00 GMT+0000 (Coordinated Universal Time)",
    1704462300000%Z)].

Definition sample_host : Host :=
  {| unicode_lower := fun s => s;
     date_parse := table_lookup sample_dates;
     url_ok := fun s => startsWith s (lit "https://");
     timespan := table_lookup [(lit "30m", 1800%Z); (lit "1h", 3600%Z)];
     long_date :=
       fun t => if (t =? 1704412800000)%Z then lit "January 5, 2024" else [];
     zod_counts := CodePoints |}.

Definition sample_env : environment :=
  {| env_ADMIN_SECRET_KEY := Some (lit "s3cret");
     env_AUTH_TOKEN_SECRET := None;
     env_TOKEN_EXPIRY := None;
     env_MONGODB_URI := Some (lit "mongodb://db/blog");
     env_NODE_ENV := None |}.

Definition sample_cfg : config :=
  {| ADMIN_SECRET_KEY := lit "s3cret";
     AUTH_TOKEN_SECRET := lit "s3cret";
     TOKEN_EXPIRY := lit "30m";
     express_env := lit "development" |}.

(** An empty store at 2024-01-05T13:45:00Z. *)
Definition world0 : world :=
  {| clock := 1704462300000%Z; minted := []; collection := [];
     db_fault := None; db_calls := []; console := [] |}.

(** The same after one login. *)
Definition world1 : world :=
  {| clock := 1704462300000%Z;
     minted :=
       [(token_text 0,
         {| signed_with := lit "s3cret";
            signed_claims :=
              {| c_scope := [lit "blog:create"];
                 c_issuedAt := 1704462300000%Z;
                 c_iat := 1704462300%Z;
                 c_nbf := None;
                 c_exp := Some 1704464100%Z |} |})];
     collection := []; db_fault := None; db_calls := []; console := [] |}.

Definition sample_bearer : jsstring := lit "Bearer " ++ token_text 0.

(** A token signed with the key of the service whose scope is empty. *)
Definition claims_without_scope : claims :=
  {| c_scope := []; c_issuedAt := 1704462300000%Z;
     c_iat := 1704462300%Z; c_nbf := None; c_exp := Some 1704464100%Z |}.

Definition world_without_scope : world :=
  {| clock := 1704462300000%Z;
     minted :=
       [(token_text 0,
         {| signed_with := lit "s3cret";
            signed_claims := claims_without_scope |})];
     collection := []; db_fault := None; db_calls := []; console := [] |}.

(** A configuration whose [TOKEN_EXPIRY] is no time span. *)
Definition careless_env : environment :=
  {| env_ADMIN_SECRET_KEY := Some (lit "s3cret");
     env_AUTH_TOKEN_SECRET := None;
     env_TOKEN_EXPIRY := Some (lit "soon");
     env_MONGODB_URI := Some (lit "mongodb://db/blog");
     env_NODE_ENV := None |}.

Definition careless_cfg : config :=
  {| ADMIN_SECRET_KEY := lit "s3cret";
     AUTH_TOKEN_SECRET := lit "s3cret";
     TOKEN_EXPIRY := lit "soon";
     express_env := lit "development" |}.

Definition sample_content : jsstring :=
  lit "# Title" ++ [10%N] ++ lit "Some **bold** text here that is long enough.".

Definition sample_payload : payload :=
  {| p_title := JString (lit "Hello, World!");
     p_slug := JUndefined;
     p_author := JUndefined;
     p_date := JString (lit "2024-01-05T13:45:00Z");
     p_excerpt := JUndefined;
     p_image := JString [];
     p_content := JString sample_content |}.

Definition sample_data : blog_data :=
  {| d_title := lit "Hello, World!";
     d_slug := lit "hello-world";
     d_author := Some [];
     d_date := Some (lit "2024-01-05T13:45:00Z");
     d_excerpt := None;
     d_image := Some [];
     d_content := sample_content |}.

(** The payload with another date and another slug. *)
Definition dated (date : jsstring) (p : payload) : payload :=
  {| p_title := p_title p; p_slug := p_slug p; p_author := p_author p;
     p_date := JString date; p_excerpt := p_excerpt p; p_image := p_image p;
     p_content := p_content p |}.

Definition slugged (slug : jsval) (p : payload) : payload :=
  {| p_title := p_title p; p_slug := slug; p_author := p_author p;
     p_date := p_date p; p_excerpt := p_excerpt p; p_image := p_image p;
     p_content := p_content p |}.

Definition titled (title : jsval) (p : payload) : payload :=
  {| p_title := title; p_slug := p_slug p; p_author := p_author p;
     p_date := p_date p; p_excerpt := p_excerpt p; p_image := p_image p;
     p_content := p_content p |}.

(** What [JSON.parse] makes of [{"toString": 1}]. *)
Definition unprintable : jsval := JOther true None.

(** 41 code units that are no date. *)
Definition long_nonsense : jsstring := repeat 120%N 41.

(** 21 times U+1F600: 42 code units, 21 code points. *)
Definition astral_date : jsstring :=
  concat (repeat [0xd83d%N; 0xde00%N] 21).

(** The sample host with a zod that counts code units. *)
Definition units_host : Host :=
  {| unicode_lower := unicode_lower sample_host;
     date_parse := date_parse sample_host;
     url_ok := url_ok sample_host;
     timespan := timespan sample_host;
     long_date := long_date sample_host;
     zod_counts := Utf16Units |}.

(** The numeral of [10 ^ 309]. *)
Definition huge_limit : jsstring := 49%N :: repeat 48%N 309.

(** A collection of [n] posts, and a store that holds 101. *)
Definition numbered_post (n : nat) : stored :=
  {| st_slug := lit "post-" ++ repeat 120%N n;
     st_title := lit "A post";
     st_author := [];
     st_excerpt := [];
     st_image := [];
     st_content := lit "Twenty code units or more.";
     st_publishedAt := if Nat.even n then Some (Z.of_nat n) else None;
     st_createdAt := Z.of_nat (n / 3) |}.

Definition crowded_world : world :=
  {| clock := 1704462300000%Z; minted := [];
     collection := map numbered_post (seq 0 101);
     db_fault := None; db_calls := []; console := [] |}.

Definition small_world : world :=
  {| clock := 1704462300000%Z; minted := [];
     collection := map numbered_post (seq 0 5);
     db_fault := None; db_calls := []; console := [] |}.

(** Five posts and the token of the first login. *)
Definition busy_world : world :=
  {| clock := 1704462300000%Z; minted := minted world1;
     collection := map numbered_post (seq 0 5);
     db_fault := None; db_calls := []; console := [] |}.

(** A payload whose title is three spaces, with a slug of its own. *)
Definition blank_title_payload : payload :=
  {| p_title := JString (lit "   ");
     p_slug := JString (lit "blank");
     p_author := JUndefined;
     p_date := JUndefined;
     p_excerpt := JUndefined;
     p_image := JUndefined;
     p_content := JString sample_content |}.

Definition blank_title_data : blog_data :=
  {| d_title := lit "   ";
     d_slug := lit "blank";
     d_author := Some [];
     d_date := None;
     d_excerpt := None;
     d_image := None;
     d_content := sample_content |}.

(** The payload with another content. *)
Definition with_content (content : jsval) (p : payload) : payload :=
  {| p_title := p_title p; p_slug := p_slug p; p_author := p_author p;
     p_date := p_date p; p_excerpt := p_excerpt p; p_image := p_image p;
     p_content := content |}.

(* ================================================================== *)
(** * Properties *)

(** ** Code units *)

Local Open Scope N_scope.

Lemma is_hyphen_iff c : is_hyphen c = true <-> c = 45.
Proof. unfold is_hyphen, HYPHEN. apply N.eqb_eq. Qed.

Lemma is_alnum_iff c :
  is_alnum c = true <-> (97 <= c <= 122) \/ (48 <= c <= 57).
Proof.
  unfold is_alnum, is_lower, is_digit.
  rewrite orb_true_iff, !andb_true_iff, !N.leb_le. tauto.
Qed.

Lemma is_upper_iff c : is_upper c = true <-> 65 <= c <= 90.
Proof. unfold is_upper. rewrite andb_true_iff, !N.leb_le. tauto. Qed.

Lemma is_ascii_iff c : is_ascii c = true <-> c < 128.
Proof. unfold is_ascii. apply N.ltb_lt. Qed.

Lemma is_space_iff c :
  is_space c = true <->
  (9 <= c <= 13) \/ c = 32 \/ c = 160 \/ c = 5760 \/ (8192 <= c <= 8202)
  \/ c = 8232 \/ c = 8233 \/ c = 8239 \/ c = 8287 \/ c = 12288 \/ c = 65279.
Proof.
  unfold is_space.
  rewrite !orb_true_iff, !andb_true_iff, !N.leb_le, !N.eqb_eq. tauto.
Qed.

Lemma is_md_punct_iff c :
  is_md_punct c = true <->
  c = 35 \/ c = 62 \/ c = 42 \/ c = 95 \/ c = 96 \/ c = 45.
Proof.
  unfold is_md_punct. rewrite !orb_true_iff, !N.eqb_eq. tauto.
Qed.

(** Decide a class membership that follows from the ones at hand. *)
Ltac classes :=
  repeat match goal with
    | H : is_hyphen _ = true |- _ => apply is_hyphen_iff in H
    | H : is_alnum _ = true |- _ => apply is_alnum_iff in H
    | H : is_upper _ = true |- _ => apply is_upper_iff in H
    | H : is_ascii _ = true |- _ => apply is_ascii_iff in H
    | H : is_space _ = true |- _ => apply is_space_iff in H
    | H : is_md_punct _ = true |- _ => apply is_md_punct_iff in H
    | H : is_hyphen _ = false |- _ =>
        apply not_true_iff_false in H; rewrite is_hyphen_iff in H
    | H : is_alnum _ = false |- _ =>
        apply not_true_iff_false in H; rewrite is_alnum_iff in H
    | H : is_space _ = false |- _ =>
        apply not_true_iff_false in H; rewrite is_space_iff in H
    end;
  match goal with
  | |- ?b = false => apply not_true_iff_false; intro
  | |- _ => idtac
  end;
  repeat match goal with
    | H : is_hyphen _ = true |- _ => apply is_hyphen_iff in H
    | H : is_alnum _ = true |- _ => apply is_alnum_iff in H
    | H : is_upper _ = true |- _ => apply is_upper_iff in H
    | H : is_ascii _ = true |- _ => apply is_ascii_iff in H
    | H : is_space _ = true |- _ => apply is_space_iff in H
    | H : is_md_punct _ = true |- _ => apply is_md_punct_iff in H
    end;
  try match goal with
    | |- is_hyphen _ = true => apply is_hyphen_iff
    | |- is_alnum _ = true => apply is_alnum_iff
    | |- is_upper _ = true => apply is_upper_iff
    | |- is_ascii _ = true => apply is_ascii_iff
    | |- is_space _ = true => apply is_space_iff
    end;
  lia.

Lemma slug_char_cases c :
  slug_char c = true -> is_alnum c = true \/ is_hyphen c = true.
Proof. unfold slug_char. apply orb_true_iff. Qed.

Lemma alnum_not_hyphen c : is_alnum c = true -> is_hyphen c = false.
Proof. intros. classes. Qed.

Lemma alnum_not_space c : is_alnum c = true -> is_space c = false.
Proof. intros. classes. Qed.

Lemma hyphen_not_space c : is_hyphen c = true -> is_space c = false.
Proof. intros. classes. Qed.

Lemma hyphen_not_alnum c : is_hyphen c = true -> is_alnum c = false.
Proof. intros. classes. Qed.

Lemma slug_char_not_space c : slug_char c = true -> is_space c = false.
Proof.
  intros H. destruct (slug_char_cases _ H);
    auto using alnum_not_space, hyphen_not_space.
Qed.

Lemma slug_char_ascii c : slug_char c = true -> is_ascii c = true.
Proof. intros H. destruct (slug_char_cases _ H); classes. Qed.

Lemma slug_char_lower c : slug_char c = true -> ascii_lower c = c.
Proof.
  intros H. unfold ascii_lower.
  destruct (is_upper c) eqn:U; [ | reflexivity ].
  exfalso. destruct (slug_char_cases _ H); classes.
Qed.

Lemma slug_char_keep c : slug_char c = true -> slug_keep c = true.
Proof.
  intros H. unfold slug_keep.
  destruct (slug_char_cases _ H) as [E | E]; rewrite E;
    auto using orb_true_r.
Qed.

(** ** The two lengths of a string *)

Lemma code_points_cons c t :
  code_points (c :: t)
  = match t with
    | d :: _ =>
        if is_high_surrogate c && is_low_surrogate d then code_points t
        else S (code_points t)
    | [] => 1%nat
    end.
Proof. reflexivity. Qed.

Lemma code_points_le_length s : (code_points s <= List.length s)%nat.
Proof.
  induction s as [ | c t IH ]; [ simpl; lia | ].
  rewrite code_points_cons. destruct t as [ | d u ]; [ simpl; lia | ].
  destruct (is_high_surrogate c && is_low_surrogate d);
    change (List.length (c :: d :: u)) with (S (List.length (d :: u))); lia.
Qed.

Lemma code_points_positive c t : (1 <= code_points (c :: t))%nat.
Proof.
  revert c. induction t as [ | d u IH ]; intros c; [ simpl; lia | ].
  rewrite code_points_cons. specialize (IH d).
  destruct (is_high_surrogate c && is_low_surrogate d); lia.
Qed.

(** Dropping the first code unit cannot add a code point. *)
Lemma code_points_tail c t : (code_points t <= code_points (c :: t))%nat.
Proof.
  rewrite code_points_cons. destruct t as [ | d u ]; [ simpl; lia | ].
  destruct (is_high_surrogate c && is_low_surrogate d); lia.
Qed.

Lemma ascii_not_surrogate c : is_ascii c = true -> is_high_surrogate c = false.
Proof.
  intros H. apply is_ascii_iff in H. unfold is_high_surrogate.
  apply andb_false_iff. left. apply N.leb_gt. lia.
Qed.

Lemma code_points_ascii s :
  forallb is_ascii s = true -> code_points s = List.length s.
Proof.
  induction s as [ | c t IH ]; [ reflexivity | ].
  intros H. simpl in H. apply andb_true_iff in H. destruct H as [Hc Ht].
  rewrite code_points_cons, (ascii_not_surrogate _ Hc).
  destruct t as [ | d u ]; [ reflexivity | ].
  cbn [andb]. rewrite (IH Ht). reflexivity.
Qed.

Lemma zod_length_nil : zod_length [] = 0%nat.
Proof. unfold zod_length. destruct (zod_counts host); reflexivity. Qed.

(** Whatever zod counts, it is at most the [length] of the string and at
    least the number of its code points; the three agree on ASCII. *)
Lemma zod_length_bounds s :
  (code_points s <= zod_length s <= List.length s)%nat.
Proof.
  unfold zod_length. pose proof (code_points_le_length s).
  destruct (zod_counts host); simpl; lia.
Qed.

Lemma zod_length_ascii s :
  forallb is_ascii s = true -> zod_length s = List.length s.
Proof.
  intros H. unfold zod_length.
  destruct (zod_counts host); [ reflexivity | apply code_points_ascii, H ].
Qed.

Lemma zod_length_positive c t : (1 <= zod_length (c :: t))%nat.
Proof.
  pose proof (zod_length_bounds (c :: t)).
  pose proof (code_points_positive c t). lia.
Qed.

(** ** The steps of [sanitizeSlug] *)

Lemma forallb_keep_only p s : forallb p (keep_only p s) = true.
Proof.
  unfold keep_only. induction s as [ | c t IH ]; simpl; [ reflexivity | ].
  destruct (p c) eqn:E; simpl; [ rewrite E | ]; exact IH.
Qed.

Lemma keep_only_all p s : forallb p s = true -> keep_only p s = s.
Proof.
  unfold keep_only. induction s as [ | c t IH ]; simpl; [ reflexivity | ].
  intros H. apply andb_true_iff in H. destruct H as [Hc Ht].
  rewrite Hc, IH by assumption. reflexivity.
Qed.

(** Whitespace runs become hyphens: what is left are slug characters. *)
Lemma spaces_to_hyphens_chars in_run s :
  forallb slug_keep s = true ->
  forallb slug_char (replace_runs_from is_space [HYPHEN] in_run s) = true.
Proof.
  revert in_run. induction s as [ | c t IH ]; intros in_run H; simpl;
    [ reflexivity | ].
  simpl in H. apply andb_true_iff in H. destruct H as [Hc Ht].
  destruct (is_space c) eqn:S.
  - destruct in_run; simpl; auto.
  - simpl. rewrite IH by assumption. rewrite andb_true_r.
    unfold slug_keep in Hc. rewrite S, orb_false_r in Hc. exact Hc.
Qed.

Lemma replace_runs_chars p x in_run s :
  slug_char x = true ->
  forallb slug_char s = true ->
  forallb slug_char (replace_runs_from p [x] in_run s) = true.
Proof.
  intros Hx. revert in_run.
  induction s as [ | c t IH ]; intros in_run H; simpl; [ reflexivity | ].
  simpl in H. apply andb_true_iff in H. destruct H as [Hc Ht].
  destruct (p c).
  - destruct in_run; simpl; rewrite ?Hx; simpl; auto.
  - simpl. rewrite Hc, IH by assumption. reflexivity.
Qed.

(** After [/[p]+/g] has put one [x] of the class [p] for every run, no
    two code units of [p] are neighbours; inside a run nothing of [p]
    comes first. *)
Lemma replace_runs_no_adjacent p x s :
  p x = true ->
  forall in_run,
    no_adjacent p (replace_runs_from p [x] in_run s) = true
    /\ (in_run = true ->
        head_is p (replace_runs_from p [x] in_run s) = false).
Proof.
  intros Hx. induction s as [ | c t IH ]; intros in_run.
  - simpl. auto.
  - simpl. destruct (p c) eqn:E.
    + destruct in_run; simpl.
      * apply IH.
      * destruct (IH true) as [Hn Hh]. specialize (Hh eq_refl).
        split; [ | discriminate ].
        rewrite Hn, andb_true_r.
        destruct (replace_runs_from p [x] true t); [ reflexivity | ].
        simpl in Hh. rewrite Hh, andb_false_r. reflexivity.
    + destruct (IH false) as [Hn _]. split.
      * simpl. rewrite Hn, andb_true_r.
        destruct (replace_runs_from p [x] false t); [ reflexivity | ].
        rewrite E. reflexivity.
      * intros _. simpl. exact E.
Qed.

(** A string without the class is left alone. *)
Lemma replace_runs_none p r in_run s :
  forallb (fun c => negb (p c)) s = true ->
  replace_runs_from p r in_run s = s.
Proof.
  revert in_run. induction s as [ | c t IH ]; intros in_run H; simpl;
    [ reflexivity | ].
  simpl in H. apply andb_true_iff in H. destruct H as [Hc Ht].
  apply negb_true_iff in Hc. rewrite Hc, IH by assumption. reflexivity.
Qed.

(** A string whose runs have length one already is left alone. *)
Lemma replace_runs_single p x s :
  (forall c, p c = true -> c = x) ->
  no_adjacent p s = true ->
  replace_runs_from p [x] false s = s
  /\ (head_is p s = false -> replace_runs_from p [x] true s = s).
Proof.
  intros Hp. induction s as [ | c t IH ]; intros H; simpl; [ auto | ].
  simpl in H. apply andb_true_iff in H. destruct H as [Hc Ht].
  destruct (IH Ht) as [IH0 IH1].
  destruct (p c) eqn:E.
  - split; [ | discriminate ].
    simpl. rewrite (Hp c E). f_equal. apply IH1.
    destruct t as [ | d t' ]; [ reflexivity | ].
    simpl in *. apply negb_true_iff in Hc. exact Hc.
  - rewrite IH0. auto.
Qed.

Lemma strip_leading_hyphen_chars s :
  forallb slug_char s = true ->
  forallb slug_char (strip_leading_hyphen s) = true.
Proof.
  destruct s as [ | c t ]; simpl; [ auto | ].
  intros H. destruct (is_hyphen c); [ | exact H ].
  apply andb_true_iff in H. tauto.
Qed.

Lemma strip_leading_hyphen_no_adjacent s :
  no_adjacent is_hyphen s = true ->
  no_adjacent is_hyphen (strip_leading_hyphen s) = true
  /\ head_is is_hyphen (strip_leading_hyphen s) = false.
Proof.
  destruct s as [ | c t ]; simpl; [ auto | ].
  intros H. apply andb_true_iff in H. destruct H as [Hc Ht].
  destruct (is_hyphen c) eqn:E.
  - split; [ exact Ht | ].
    destruct t as [ | d t' ]; [ reflexivity | ].
    simpl in *. apply negb_true_iff in Hc. exact Hc.
  - split; [ | exact E ]. simpl. rewrite E.
    apply andb_true_iff. split; assumption.
Qed.

Lemma strip_trailing_hyphen_cons c d t :
  strip_trailing_hyphen (c :: d :: t) = c :: strip_trailing_hyphen (d :: t).
Proof. reflexivity. Qed.

Lemma strip_trailing_hyphen_chars s :
  forallb slug_char s = true ->
  forallb slug_char (strip_trailing_hyphen s) = true.
Proof.
  induction s as [ | c t IH ]; [ auto | ].
  destruct t as [ | d t' ].
  - simpl. destruct (is_hyphen c); auto.
  - rewrite strip_trailing_hyphen_cons. intros H.
    change (slug_char c && forallb slug_char (d :: t') = true) in H.
    apply andb_true_iff in H. destruct H as [Hc Ht].
    change (slug_char c && forallb slug_char (strip_trailing_hyphen (d :: t'))
            = true).
    rewrite Hc, IH by assumption. reflexivity.
Qed.

Lemma strip_trailing_hyphen_head s :
  head_is is_hyphen s = false ->
  head_is is_hyphen (strip_trailing_hyphen s) = false.
Proof.
  destruct s as [ | c [ | d t ] ]; simpl; auto.
  intros H. rewrite H. exact H.
Qed.

Lemma strip_trailing_hyphen_no_adjacent s :
  no_adjacent is_hyphen s = true ->
  no_adjacent is_hyphen (strip_trailing_hyphen s) = true
  /\ last_is is_hyphen (strip_trailing_hyphen s) = false.
Proof.
  induction s as [ | c t IH ]; [ auto | ].
  destruct t as [ | d t' ].
  - simpl. intros _. destruct (is_hyphen c) eqn:E; simpl; auto.
  - rewrite strip_trailing_hyphen_cons. intros H.
    change (negb (is_hyphen c && is_hyphen d)
            && no_adjacent is_hyphen (d :: t') = true) in H.
    apply andb_true_iff in H. destruct H as [Hc Ht].
    destruct (IH Ht) as [IHn IHl].
    destruct (strip_trailing_hyphen (d :: t')) as [ | e u ] eqn:S.
    + (* the rest was a single hyphen *)
      destruct t' as [ | d' t'' ].
      * simpl in S. destruct (is_hyphen d) eqn:D; [ | discriminate ].
        rewrite andb_true_r in Hc. apply negb_true_iff in Hc.
        simpl. rewrite Hc. auto.
      * rewrite strip_trailing_hyphen_cons in S. discriminate.
    + assert (e = d) as ->.
      { destruct t' as [ | d' t'' ].
        - simpl in S. destruct (is_hyphen d); [ discriminate | ].
          congruence.
        - rewrite strip_trailing_hyphen_cons in S. congruence. }
      split.
      * change (negb (is_hyphen c && is_hyphen d)
                && no_adjacent is_hyphen (d :: u) = true).
        rewrite Hc, IHn. reflexivity.
      * exact IHl.
Qed.

Lemma strip_trailing_hyphen_none s :
  last_is is_hyphen s = false -> strip_trailing_hyphen s = s.
Proof.
  induction s as [ | c t IH ]; [ auto | ].
  destruct t as [ | d t' ].
  - simpl. intros ->. reflexivity.
  - rewrite strip_trailing_hyphen_cons. intros H.
    change (last_is is_hyphen (d :: t') = false) in H.
    rewrite IH by assumption. reflexivity.
Qed.

Lemma trimStart_none s : head_is is_space s = false -> trimStart s = s.
Proof. destruct s as [ | c t ]; simpl; [ auto | ]. intros ->. reflexivity. Qed.

Lemma trimEnd_none s :
  forallb (fun c => negb (is_space c)) s = true -> trimEnd s = s.
Proof.
  induction s as [ | c t IH ]; simpl; [ auto | ].
  intros H. apply andb_true_iff in H. destruct H as [Hc Ht].
  apply negb_true_iff in Hc. rewrite IH, Hc by assumption.
  destruct t; reflexivity.
Qed.

Lemma forallb_impl (p q : code_unit -> bool) s :
  (forall c, p c = true -> q c = true) ->
  forallb p s = true -> forallb q s = true.
Proof.
  intros Hpq. induction s as [ | c t IH ]; simpl; [ auto | ].
  intros H. apply andb_true_iff in H. destruct H as [Hc Ht].
  rewrite (Hpq _ Hc), IH by assumption. reflexivity.
Qed.

Lemma slug_chars_no_space s :
  forallb slug_char s = true ->
  forallb (fun c => negb (is_space c)) s = true.
Proof.
  apply forallb_impl. intros c H.
  rewrite (slug_char_not_space _ H). reflexivity.
Qed.

Lemma trim_slug_chars s : forallb slug_char s = true -> trim s = s.
Proof.
  intros H. unfold trim. rewrite trimStart_none.
  - apply trimEnd_none, slug_chars_no_space, H.
  - destruct s as [ | c t ]; [ reflexivity | ].
    simpl in *. apply andb_true_iff in H.
    apply slug_char_not_space. tauto.
Qed.

Lemma toLowerCase_slug_chars s :
  forallb slug_char s = true -> toLowerCase s = s.
Proof.
  intros H. unfold toLowerCase.
  rewrite (forallb_impl _ _ _ slug_char_ascii H).
  induction s as [ | c t IH ]; simpl; [ reflexivity | ].
  simpl in H. apply andb_true_iff in H. destruct H as [Hc Ht].
  rewrite (slug_char_lower _ Hc), IH by assumption. reflexivity.
Qed.

Lemma slug_shaped_parts s :
  slug_shaped s = true <->
  forallb slug_char s = true /\ no_adjacent is_hyphen s = true
  /\ head_is is_hyphen s = false /\ last_is is_hyphen s = false.
Proof.
  unfold slug_shaped.
  rewrite !andb_true_iff, !negb_true_iff. tauto.
Qed.

(** ** [sanitizeSlug] returns a slug-shaped string, and leaves one alone *)

Lemma sanitizeSlug_shaped x : slug_shaped (sanitizeSlug x) = true.
Proof.
  unfold sanitizeSlug, strip_edge_hyphens, replace_runs.
  set (s2 := keep_only slug_keep (trim (toLowerCase x))).
  set (s3 := replace_runs_from is_space [HYPHEN] false s2).
  set (s4 := replace_runs_from is_hyphen [HYPHEN] false s3).
  assert (H3 : forallb slug_char s3 = true)
    by apply spaces_to_hyphens_chars, forallb_keep_only.
  assert (H4 : forallb slug_char s4 = true)
    by (apply replace_runs_chars; [ reflexivity | exact H3 ]).
  destruct (@replace_runs_no_adjacent is_hyphen HYPHEN s3 eq_refl false)
    as [N4 _].
  fold s4 in N4.
  destruct (strip_leading_hyphen_no_adjacent _ N4) as [N5 Hd5].
  destruct (strip_trailing_hyphen_no_adjacent _ N5) as [N6 L6].
  apply slug_shaped_parts. repeat split.
  - apply strip_trailing_hyphen_chars, strip_leading_hyphen_chars, H4.
  - exact N6.
  - apply strip_trailing_hyphen_head, Hd5.
  - exact L6.
Qed.

Lemma sanitizeSlug_fixes_shaped s :
  slug_shaped s = true -> sanitizeSlug s = s.
Proof.
  intros H. apply slug_shaped_parts in H.
  destruct H as (Hc & Hn & Hh & Hl).
  unfold sanitizeSlug, strip_edge_hyphens, replace_runs.
  rewrite (toLowerCase_slug_chars _ Hc), (trim_slug_chars _ Hc).
  rewrite (keep_only_all _ _ (forallb_impl _ _ _ slug_char_keep Hc)).
  rewrite (replace_runs_none is_space [HYPHEN] false s
             (slug_chars_no_space _ Hc)).
  destruct (@replace_runs_single is_hyphen HYPHEN s) as [-> _];
    [ intros c E; apply is_hyphen_iff in E; exact E | exact Hn | ].
  assert (strip_leading_hyphen s = s) as ->.
  { destruct s as [ | c t ]; [ reflexivity | ].
    simpl in *. rewrite Hh. reflexivity. }
  apply strip_trailing_hyphen_none, Hl.
Qed.

(** ** Slug-shaped strings and the expression of the schema *)

Lemma slug_regex_rest_shaped t :
  (forallb slug_char t = true -> no_adjacent is_hyphen t = true ->
   last_is is_hyphen t = false -> slug_regex_rest t = true)
  /\ (forall d,
        forallb slug_char (d :: t) = true ->
        no_adjacent is_hyphen (d :: t) = true ->
        last_is is_hyphen (d :: t) = false ->
        slug_regex_rest (d :: t) = true).
Proof.
  induction t as [ | c t' [IH0 IH1] ].
  - split; [ reflexivity | ].
    intros d Hc _ Hl. simpl in *. rewrite andb_true_r in Hc.
    destruct (slug_char_cases _ Hc) as [A | Hy]; [ rewrite A; reflexivity | ].
    congruence.
  - split; [ apply IH1 | ].
    intros d Hc Hn Hl.
    change (slug_char d && forallb slug_char (c :: t') = true) in Hc.
    change (negb (is_hyphen d && is_hyphen c)
            && no_adjacent is_hyphen (c :: t') = true) in Hn.
    change (last_is is_hyphen (c :: t') = false) in Hl.
    apply andb_true_iff in Hc. destruct Hc as [Hd Hct].
    apply andb_true_iff in Hn. destruct Hn as [Hdc Hnct].
    change (slug_regex_rest (d :: c :: t'))
      with (if is_alnum d then slug_regex_rest (c :: t')
            else if is_hyphen d then is_alnum c && slug_regex_rest t'
            else false).
    destruct (slug_char_cases _ Hd) as [A | Hy].
    + rewrite A. apply IH1; assumption.
    + rewrite (hyphen_not_alnum _ Hy), Hy.
      rewrite Hy in Hdc. simpl in Hdc. apply negb_true_iff in Hdc.
      simpl in Hct. apply andb_true_iff in Hct. destruct Hct as [Hcc Hct].
      destruct (slug_char_cases _ Hcc) as [A | Hy']; [ | congruence ].
      rewrite A. simpl. apply IH0.
      * exact Hct.
      * simpl in Hnct. apply andb_true_iff in Hnct. tauto.
      * destruct t' as [ | e t'' ]; [ reflexivity | exact Hl ].
Qed.

Lemma slug_shaped_regex s :
  slug_shaped s = true -> s <> [] -> slug_regex_test s = true.
Proof.
  intros H Hne. apply slug_shaped_parts in H.
  destruct H as (Hc & Hn & Hh & Hl).
  destruct s as [ | c t ]; [ congruence | ].
  unfold slug_regex_test.
  destruct (slug_regex_rest_shaped t) as [_ R].
  specialize (R c Hc Hn Hl).
  simpl in Hc, Hh. apply andb_true_iff in Hc. destruct Hc as [Hcc _].
  destruct (slug_char_cases _ Hcc) as [A | Hy]; [ | congruence ].
  rewrite A. simpl in R. rewrite A in R. exact R.
Qed.

(** ** The automaton and the expression agree *)

Lemma slug_regex_rest_alnum c t :
  is_alnum c = true -> slug_regex_rest (c :: t) = slug_regex_rest t.
Proof. intros H. simpl. rewrite H. reflexivity. Qed.

Lemma slug_regex_rest_hyphen h d t :
  is_hyphen h = true ->
  slug_regex_rest (h :: d :: t) = is_alnum d && slug_regex_rest t.
Proof.
  intros H.
  change (slug_regex_rest (h :: d :: t))
    with (if is_alnum h then slug_regex_rest (d :: t)
          else if is_hyphen h then is_alnum d && slug_regex_rest t
          else false).
  rewrite (hyphen_not_alnum _ H), H. reflexivity.
Qed.

Lemma class_inv p s :
  matches (Class p) s -> exists c, s = [c] /\ p c = true.
Proof. intros H. inversion H; subst. eauto. Qed.

Lemma plus_class_inv p s :
  matches (Plus (Class p)) s -> s <> [] /\ forallb p s = true.
Proof.
  intros H. remember (Plus (Class p)) as r eqn:R.
  induction H; try discriminate; injection R as ->.
  - apply class_inv in H. destruct H as (c & -> & Hc).
    simpl. rewrite Hc. split; [ discriminate | reflexivity ].
  - apply class_inv in H. destruct H as (c & -> & Hc).
    destruct (IHmatches2 eq_refl) as [_ F].
    simpl. rewrite Hc, F. split; [ discriminate | reflexivity ].
Qed.

Lemma plus_class_intro p c s :
  p c = true -> forallb p s = true -> matches (Plus (Class p)) (c :: s).
Proof.
  revert c. induction s as [ | d t IH ]; intros c Hc H.
  - apply m_plus_one, m_class, Hc.
  - simpl in H. apply andb_true_iff in H. destruct H as [Hd Ht].
    change (c :: d :: t) with ([c] ++ d :: t).
    apply m_plus_more; [ apply m_class, Hc | apply IH; assumption ].
Qed.

Lemma slug_regex_rest_prefix a b :
  forallb is_alnum a = true ->
  slug_regex_rest b = true -> slug_regex_rest (a ++ b) = true.
Proof.
  induction a as [ | c t IH ]; intros H Hb; [ exact Hb | ].
  simpl in H. apply andb_true_iff in H. destruct H as [Hc Ht].
  rewrite <- app_comm_cons, slug_regex_rest_alnum by assumption. auto.
Qed.

Lemma cat_inv r1 r2 s :
  matches (Cat r1 r2) s ->
  exists s1 s2, s = s1 ++ s2 /\ matches r1 s1 /\ matches r2 s2.
Proof. intros H. inversion H; subst. eauto. Qed.

Lemma tail_pattern_accepted b :
  matches slug_tail_pattern b -> slug_regex_rest b = true.
Proof.
  intros H. unfold slug_tail_pattern in H.
  remember (Star (Cat (Class is_hyphen) (Plus (Class is_alnum)))) as r eqn:R.
  induction H; try discriminate; [ reflexivity | ].
  injection R as ->.
  apply cat_inv in H. destruct H as (h & a & -> & Hh & Hp).
  apply class_inv in Hh. destruct Hh as (c & -> & Hc).
  apply plus_class_inv in Hp. destruct Hp as [Hne Hf].
  destruct a as [ | d a' ]; [ congruence | ].
  simpl in Hf. apply andb_true_iff in Hf. destruct Hf as [Hd Ha].
  change (([c] ++ d :: a') ++ s2) with (c :: d :: a' ++ s2).
  rewrite slug_regex_rest_hyphen by assumption.
  rewrite Hd. simpl. apply slug_regex_rest_prefix; auto.
Qed.

Lemma slug_regex_rest_split t :
  (slug_regex_rest t = true ->
   exists a b, t = a ++ b /\ forallb is_alnum a = true
               /\ matches slug_tail_pattern b)
  /\ (forall d, slug_regex_rest (d :: t) = true ->
      exists a b, d :: t = a ++ b /\ forallb is_alnum a = true
                  /\ matches slug_tail_pattern b).
Proof.
  induction t as [ | c t' [IH0 IH1] ].
  - split.
    + intros _. exists [], []. repeat split. apply m_star_nil.
    + intros d H. simpl in H. destruct (is_alnum d) eqn:A.
      * exists [d], []. simpl. rewrite A. repeat split. apply m_star_nil.
      * destruct (is_hyphen d); discriminate.
  - split; [ apply IH1 | ].
    intros d H. destruct (is_alnum d) eqn:A.
    + rewrite slug_regex_rest_alnum in H by assumption.
      destruct (IH1 c H) as (a & b & E & Fa & Mb).
      exists (d :: a), b. simpl. rewrite E, A, Fa. repeat split. exact Mb.
    + destruct (is_hyphen d) eqn:Hy.
      * rewrite slug_regex_rest_hyphen in H by assumption.
        apply andb_true_iff in H. destruct H as [Hc Hr].
        destruct (IH0 Hr) as (a & b & E & Fa & Mb).
        exists [], (([d] ++ (c :: a)) ++ b). repeat split.
        -- simpl. rewrite E. reflexivity.
        -- apply m_star_more; [ | exact Mb ].
           apply m_cat; [ apply m_class, Hy | ].
           apply plus_class_intro; assumption.
      * simpl in H. rewrite A, Hy in H. discriminate.
Qed.

Lemma slug_regex_test_spec s :
  slug_regex_test s = true <-> matches slug_pattern s.
Proof.
  split.
  - destruct s as [ | c t ]; [ discriminate | ].
    unfold slug_regex_test. intros H.
    apply andb_true_iff in H. destruct H as [Hc Hr].
    destruct (slug_regex_rest_split t) as [S _].
    destruct (S Hr) as (a & b & -> & Fa & Mb).
    change (c :: a ++ b) with ((c :: a) ++ b).
    apply m_cat; [ apply plus_class_intro; assumption | exact Mb ].
  - intros H. apply cat_inv in H. destruct H as (a & b & -> & Hp & Hb).
    apply plus_class_inv in Hp. destruct Hp as [Hne Hf].
    destruct a as [ | c a' ]; [ congruence | ].
    simpl in Hf. apply andb_true_iff in Hf. destruct Hf as [Hc Ha].
    simpl. rewrite Hc. simpl.
    apply slug_regex_rest_prefix; [ exact Ha | ].
    apply tail_pattern_accepted. assumption.
Qed.

(** ** The slug rule of the schema *)

(** What the expression accepts is ASCII, so that its two lengths are
    one. *)
Lemma slug_regex_rest_ascii n t :
  (List.length t <= n)%nat ->
  slug_regex_rest t = true -> forallb is_ascii t = true.
Proof.
  revert t. induction n as [ | n IH ]; intros t L H.
  - destruct t; [ reflexivity | simpl in L; lia ].
  - destruct t as [ | c u ]; [ reflexivity | ].
    simpl in H. destruct (is_alnum c) eqn:A.
    + simpl. rewrite slug_char_ascii
        by (unfold slug_char; rewrite A; reflexivity).
      apply IH; [ simpl in L; lia | exact H ].
    + destruct (is_hyphen c) eqn:Hy; [ | discriminate ].
      destruct u as [ | d u' ]; [ discriminate | ].
      apply andb_true_iff in H. destruct H as [Hd Hr].
      simpl. rewrite (@slug_char_ascii c), (@slug_char_ascii d).
      * apply IH; [ simpl in L; lia | exact Hr ].
      * unfold slug_char. rewrite Hd. reflexivity.
      * unfold slug_char. rewrite Hy. apply orb_true_r.
Qed.

Lemma slug_regex_test_ascii s :
  slug_regex_test s = true -> forallb is_ascii s = true.
Proof.
  destruct s as [ | c t ]; [ reflexivity | ].
  simpl. intros H. apply andb_true_iff in H. destruct H as [Hc Ht].
  rewrite slug_char_ascii by (unfold slug_char; rewrite Hc; reflexivity).
  apply (@slug_regex_rest_ascii (List.length t)); [ lia | exact Ht ].
Qed.

Lemma slug_schema_accepts s :
  slug_regex_test s = true ->
  (3 <= List.length s <= 160)%nat ->
  slug_schema (JString s) = inr s.
Proof.
  intros R [Lo Hi]. unfold slug_schema, z_string.
  cbn [flat_map run_check app].
  rewrite R, (zod_length_ascii _ (slug_regex_test_ascii _ R)).
  destruct (Nat.ltb_spec (List.length s) 3); [ lia | ].
  destruct (Nat.ltb_spec 160 (List.length s)); [ lia | ].
  reflexivity.
Qed.

Lemma slug_schema_issues s issues :
  slug_schema (JString s) = inl issues ->
  issues =
    (if (zod_length s <? 3)%nat
     then [{| path := FSlug; code := too_small |}] else [])
    ++ (if (160 <? zod_length s)%nat
        then [{| path := FSlug; code := too_big |}] else [])
    ++ (if slug_regex_test s then []
        else [{| path := FSlug; code := invalid_regex |}]).
Proof.
  unfold slug_schema, z_string. cbn [flat_map run_check]. rewrite app_nil_r.
  destruct (_ ++ _ ++ _) eqn:E; [ discriminate | ].
  intros H. injection H as <-. reflexivity.
Qed.

(** C4.  [sanitizeSlug] is total and idempotent: the empty string goes to
    the empty string, and every input has a result which [sanitizeSlug]
    maps to itself, so that normalizing twice equals normalizing once. *)
Theorem sanitizeSlug_total_idempotent :
  sanitizeSlug [] = []
  /\ (forall x, exists s, sanitizeSlug x = s /\ sanitizeSlug s = s)
  /\ (forall x, sanitizeSlug (sanitizeSlug x) = sanitizeSlug x).
Proof.
  split; [ reflexivity | split ].
  - intros x. exists (sanitizeSlug x). split; [ reflexivity | ].
    apply sanitizeSlug_fixes_shaped, sanitizeSlug_shaped.
  - intros x. apply sanitizeSlug_fixes_shaped, sanitizeSlug_shaped.
Qed.

(** C9, amended.  The result of [sanitizeSlug] is the empty string or
    matches [^[a-z0-9]+(?:-[a-z0-9]+)*$].  Hence the slug rule of the
    payload schema accepts a normalized slug whose length is between 3
    and 160, and every rejection of one reports a length issue
    ([too_small] or [too_big]).  The issue of the expression is reported
    as well exactly when the normalized slug is empty: the empty slug is
    refused as too short and by the expression, a slug that is not empty
    never by the expression. *)
Theorem sanitizeSlug_matches_schema (x : jsstring) :
  let s := sanitizeSlug x in
  (s = [] \/ matches slug_pattern s)
  /\ ((3 <= List.length s <= 160)%nat -> slug_schema (JString s) = inr s)
  /\ (forall issues,
        slug_schema (JString s) = inl issues ->
        ((List.length s < 3)%nat
         /\ In {| path := FSlug; code := too_small |} issues)
        \/ ((160 < List.length s)%nat
            /\ In {| path := FSlug; code := too_big |} issues))
  /\ (forall issues,
        slug_schema (JString s) = inl issues ->
        (In {| path := FSlug; code := invalid_regex |} issues <-> s = []))
  /\ (s = [] ->
      slug_schema (JString s)
      = inl [{| path := FSlug; code := too_small |};
             {| path := FSlug; code := invalid_regex |}]).
Proof.
  intros s.
  assert (Sh : slug_shaped s = true) by apply sanitizeSlug_shaped.
  assert (R : s = [] \/ slug_regex_test s = true).
  { destruct s as [ | c t ] eqn:E; [ left; reflexivity | right ].
    apply slug_shaped_regex; [ exact Sh | discriminate ]. }
  assert (Z : zod_length s = List.length s).
  { apply zod_length_ascii. apply slug_shaped_parts in Sh.
    destruct Sh as [Sh _]. revert Sh. apply forallb_impl.
    exact slug_char_ascii. }
  assert (Empty : s = [] ->
                  slug_schema (JString s)
                  = inl [{| path := FSlug; code := too_small |};
                         {| path := FSlug; code := invalid_regex |}]).
  { intros ->. unfold slug_schema, z_string. cbn [flat_map run_check].
    rewrite zod_length_nil. reflexivity. }
  split; [ | split; [ | split; [ | split; [ | exact Empty ] ] ] ].
  - destruct R as [E | T]; [ left; exact E | right ].
    apply slug_regex_test_spec, T.
  - intros L. apply slug_schema_accepts; [ | exact L ].
    destruct R as [E | T]; [ | exact T ].
    rewrite E in L. simpl in L. lia.
  - intros issues H. pose proof (slug_schema_issues _ H) as E.
    rewrite Z in E.
    destruct (Nat.ltb_spec (List.length s) 3) as [Lo | Lo].
    + left. split; [ exact Lo | ]. rewrite E. left. reflexivity.
    + destruct (Nat.ltb_spec 160 (List.length s)) as [Hi | Hi].
      * right. split; [ exact Hi | ]. rewrite E. left. reflexivity.
      * exfalso. rewrite slug_schema_accepts in H; [ discriminate | | lia ].
        destruct R as [E' | T]; [ | exact T ].
        rewrite E' in Lo. simpl in Lo. lia.
  - intros issues H. split.
    + intros I. destruct R as [E | T]; [ exact E | exfalso ].
      rewrite (slug_schema_issues _ H), T, app_nil_r in I.
      destruct (zod_length s <? 3)%nat, (160 <? zod_length s)%nat;
        simpl in I; intuition discriminate.
    + intros E. rewrite (Empty E) in H. injection H as <-.
      right. left. reflexivity.
Qed.

(** ** The steps of [summarize] *)








(** ** The link form of the expression *)












(** ** What [summarize] takes out *)








(** ** [trim] keeps what holds of every code unit and of neighbours *)

Lemma trimStart_forallb p s :
  forallb p s = true -> forallb p (trimStart s) = true.
Proof.
  induction s as [ | c t IH ]; simpl; [ auto | ].
  intros H. destruct (is_space c); [ | exact H ].
  apply andb_true_iff in H. apply IH. tauto.
Qed.


Lemma trimStart_head s : head_is is_space (trimStart s) = false.
Proof.
  induction s as [ | c t IH ]; simpl; [ reflexivity | ].
  destruct (is_space c) eqn:E; [ exact IH | exact E ].
Qed.

Lemma trimEnd_cons c t :
  trimEnd (c :: t)
  = match trimEnd t with
    | [] => if is_space c then [] else [c]
    | e :: u => c :: e :: u
    end.
Proof. reflexivity. Qed.

Lemma trimEnd_same_head t e u : trimEnd t = e :: u -> exists t', t = e :: t'.
Proof.
  destruct t as [ | c t' ]; [ discriminate | ].
  rewrite trimEnd_cons. intros H. exists t'. f_equal.
  destruct (trimEnd t'); [ destruct (is_space c) | ]; congruence.
Qed.

Lemma trimEnd_forallb p s :
  forallb p s = true -> forallb p (trimEnd s) = true.
Proof.
  induction s as [ | c t IH ]; [ auto | ].
  intros H. simpl in H. apply andb_true_iff in H. destruct H as [Hc Ht].
  rewrite trimEnd_cons. specialize (IH Ht).
  destruct (trimEnd t) as [ | e u ].
  - destruct (is_space c); simpl; [ | rewrite Hc ]; reflexivity.
  - change (p c && forallb p (e :: u) = true). rewrite Hc, IH. reflexivity.
Qed.


Lemma trimEnd_head s :
  head_is is_space s = false -> head_is is_space (trimEnd s) = false.
Proof.
  destruct s as [ | c t ]; [ auto | ].
  rewrite trimEnd_cons. simpl. intros H.
  destruct (trimEnd t); [ rewrite H | ]; simpl; auto.
Qed.

Lemma trimEnd_last s : last_is is_space (trimEnd s) = false.
Proof.
  induction s as [ | c t IH ]; [ reflexivity | ].
  rewrite trimEnd_cons. destruct (trimEnd t) as [ | e u ].
  - destruct (is_space c) eqn:E; simpl; auto.
  - exact IH.
Qed.

Lemma trim_no_outer_space s :
  head_is is_space (trim s) = false /\ last_is is_space (trim s) = false.
Proof.
  unfold trim. split.
  - apply trimEnd_head, trimStart_head.
  - apply trimEnd_last.
Qed.

Lemma trimEnd_none_last s : last_is is_space s = false -> trimEnd s = s.
Proof.
  induction s as [ | c t IH ]; [ reflexivity | ].
  rewrite trimEnd_cons. destruct t as [ | d t' ].
  - simpl. intros ->. reflexivity.
  - intros H. change (last_is is_space (d :: t') = false) in H.
    rewrite (IH H). reflexivity.
Qed.

Lemma trim_idempotent s : trim (trim s) = trim s.
Proof.
  destruct (trim_no_outer_space s) as [Hh Hl].
  unfold trim at 1. rewrite trimStart_none by exact Hh.
  apply trimEnd_none_last, Hl.
Qed.




Lemma summarize_cases content :
  let plain := plain_text content in
  summarize content []
  = firstn 180 plain ++ (if (180 <? List.length plain)%nat
                          then ELLIPSIS else []).
Proof.
  unfold summarize. destruct content; reflexivity.
Qed.

Lemma summarize_short content :
  (List.length (plain_text content) <= 180)%nat ->
  summarize content [] = plain_text content.
Proof.
  intros H. rewrite summarize_cases. cbv zeta.
  destruct (Nat.ltb_spec 180 (List.length (plain_text content))); [ lia | ].
  rewrite app_nil_r. apply firstn_all2, H.
Qed.

Lemma summarize_long content :
  (180 < List.length (plain_text content))%nat ->
  summarize content [] = firstn 180 (plain_text content) ++ ELLIPSIS
  /\ List.length (summarize content []) = 183%nat.
Proof.
  intros H. rewrite summarize_cases. cbv zeta.
  destruct (Nat.ltb_spec 180 (List.length (plain_text content))); [ | lia ].
  split; [ reflexivity | ].
  rewrite length_app, length_firstn.
  change (List.length ELLIPSIS) with 3%nat. lia.
Qed.

(** ** Whitespace runs and words *)













(** ** The order of the collection *)

Local Open Scope Z_scope.

Lemma compare_dates_antisym a b :
  compare_dates b a = CompOpp (compare_dates a b).
Proof.
  destruct a, b; simpl; try reflexivity. apply Z.compare_antisym.
Qed.

Lemma field_compare_antisym f a b :
  field_compare f b a = CompOpp (field_compare f a b).
Proof.
  destruct f; simpl; [ apply compare_dates_antisym | apply Z.compare_antisym ].
Qed.

Lemma compare_by_antisym order a b :
  compare_by order b a = CompOpp (compare_by order a b).
Proof.
  induction order as [ | [f direction] rest IH ]; simpl; [ reflexivity | ].
  rewrite field_compare_antisym.
  destruct (field_compare f a b); simpl;
    [ exact IH | destruct (direction <? 0); reflexivity .. ].
Qed.

Lemma precedes_total order a b :
  precedes order a b = false -> precedes order b a = true.
Proof.
  unfold precedes. rewrite (compare_by_antisym order a b).
  destruct (compare_by order a b); simpl; congruence.
Qed.

Lemma insert_by_perm order x l : Permutation (insert_by order x l) (x :: l).
Proof.
  induction l as [ | y t IH ]; simpl; [ reflexivity | ].
  destruct (precedes order x y); [ reflexivity | ].
  rewrite IH. apply perm_swap.
Qed.

Lemma sort_by_perm order l : Permutation (sort_by order l) l.
Proof.
  induction l as [ | x t IH ]; simpl; [ reflexivity | ].
  rewrite insert_by_perm. apply perm_skip, IH.
Qed.

Lemma insert_by_sorted order x l :
  Sorted (fun a b => precedes order a b = true) l ->
  Sorted (fun a b => precedes order a b = true) (insert_by order x l).
Proof.
  induction l as [ | y t IH ]; intros S; simpl.
  - repeat constructor.
  - destruct (precedes order x y) eqn:E.
    + constructor; [ exact S | constructor; exact E ].
    + inversion S as [ | ? ? St Hd ]; subst.
      constructor; [ apply IH, St | ].
      destruct t as [ | z u ]; simpl.
      * constructor. apply precedes_total, E.
      * destruct (precedes order x z).
        -- constructor. apply precedes_total, E.
        -- inversion Hd; subst. constructor. assumption.
Qed.

Lemma sort_by_sorted order l :
  Sorted (fun a b => precedes order a b = true) (sort_by order l).
Proof.
  induction l as [ | x t IH ]; simpl; [ constructor | ].
  apply insert_by_sorted, IH.
Qed.

Lemma precedes_newest_first a b :
  precedes NEWEST_FIRST a b = true <-> newest_first a b.
Proof.
  unfold precedes, NEWEST_FIRST, newest_first, compare_by, field_compare,
    compare_dates.
  destruct (st_publishedAt a) as [x | ], (st_publishedAt b) as [y | ];
    change (-1 <? 0) with true; cbv iota.
  - destruct (Z.compare_spec x y);
      [ destruct (Z.compare_spec (st_createdAt a) (st_createdAt b)) | | ];
      simpl; split; intros; try reflexivity; try discriminate; lia.
  - simpl. tauto.
  - simpl. intuition discriminate.
  - destruct (Z.compare_spec (st_createdAt a) (st_createdAt b));
      simpl; split; intros; try reflexivity; try discriminate; lia.
Qed.

Lemma newest_first_trans a b c :
  newest_first a b -> newest_first b c -> newest_first a c.
Proof.
  unfold newest_first.
  destruct (st_publishedAt a), (st_publishedAt b), (st_publishedAt c);
    intros; try tauto; lia.
Qed.

Lemma sort_newest_first l :
  StronglySorted newest_first (sort_by NEWEST_FIRST l).
Proof.
  apply Sorted_StronglySorted.
  - intros a b c. apply newest_first_trans.
  - pose proof (sort_by_sorted NEWEST_FIRST l) as S.
    induction S as [ | x t St IH Hd ]; constructor; [ exact IH | ].
    destruct Hd; constructor. apply precedes_newest_first. assumption.
Qed.

(** ** The limit *)

Lemma safeLimit_range n c : safeLimit n = Some c -> 1 <= c <= 100.
Proof.
  destruct n as [ | z | ]; simpl; try discriminate.
  destruct (Z.ltb_spec 0 z) as [Pos | ]; [ | discriminate ].
  intros E. injection E as <-. lia.
Qed.

Lemma apply_limit_positive c l :
  0 < c -> apply_limit c l = firstn (Z.to_nat c) l.
Proof.
  intros H. unfold apply_limit.
  destruct (Z.eqb_spec c 0); [ lia | ].
  rewrite Zabs2Nat.abs_nat_nonneg by lia. reflexivity.
Qed.

(** [parseInt] reads the digits at the head of a string and stops at the
    first other code unit. *)
Lemma take_digits_app ds rest :
  forallb is_digit ds = true ->
  head_is is_digit rest = false ->
  take_digits (ds ++ rest) = ds.
Proof.
  intros H R. induction ds as [ | c t IH ]; simpl.
  - destruct rest as [ | r u ]; [ reflexivity | ].
    simpl in *. rewrite R. reflexivity.
  - simpl in H. apply andb_true_iff in H. destruct H as [Hc Ht].
    rewrite Hc, IH by assumption. reflexivity.
Qed.

Lemma parseInt10_digits ds rest :
  ds <> [] ->
  forallb is_digit ds = true ->
  head_is is_digit rest = false ->
  parseInt10 (JString (ds ++ rest)) = number_of_integer (digits_value ds).
Proof.
  intros Hne H R. unfold parseInt10. cbn [to_String].
  destruct ds as [ | c t ]; [ congruence | ].
  assert (Hc : is_digit c = true)
    by (simpl in H; apply andb_true_iff in H; tauto).
  assert (Sp : is_space c = false).
  { unfold is_digit in Hc. apply andb_true_iff in Hc.
    rewrite !N.leb_le in Hc. classes. }
  assert (Hy : is_hyphen c = false).
  { unfold is_digit in Hc. apply andb_true_iff in Hc.
    rewrite !N.leb_le in Hc. classes. }
  assert (Pl : (c =? PLUS_SIGN)%N = false).
  { unfold is_digit in Hc. apply andb_true_iff in Hc.
    rewrite !N.leb_le in Hc. apply N.eqb_neq. unfold PLUS_SIGN. lia. }
  rewrite <- app_comm_cons. cbn [trimStart]. rewrite Sp, Hy, Pl.
  rewrite app_comm_cons, take_digits_app by assumption. reflexivity.
Qed.

Lemma number_of_integer_finite n :
  0 <= n < DOUBLE_OVERFLOW -> number_of_integer n = Finite n.
Proof.
  intros H. unfold number_of_integer.
  remember DOUBLE_OVERFLOW as D.
  destruct (Z.leb_spec D (Z.abs n)); [ lia | reflexivity ].
Qed.

Lemma number_of_integer_overflow n :
  DOUBLE_OVERFLOW <= n -> number_of_integer n = Infinite false.
Proof.
  intros H. unfold number_of_integer.
  assert (P : 0 < DOUBLE_OVERFLOW) by reflexivity.
  remember DOUBLE_OVERFLOW as D.
  destruct (Z.leb_spec D (Z.abs n)); [ | lia ].
  destruct (Z.ltb_spec n 0); [ lia | reflexivity ].
Qed.

Lemma listBlogs_response limit w :
  db_fault w = None ->
  fst (listBlogs limit w)
  = respond 200
      (PostsBody
         (map (fun d => toBlogResponse (Some d))
            (limited (parseInt10 limit)
               (sort_by NEWEST_FIRST (collection w))))).
Proof.
  intros F. unfold listBlogs, BlogPost_find.
  cbn [db_fault record_call collection]. rewrite F. cbn [fst].
  do 3 f_equal. unfold limited.
  destruct (parseInt10 limit) as [ | n | neg ]; try reflexivity.
  cbn [safeLimit]. destruct (Z.ltb_spec 0 n); [ | reflexivity ].
  cbn [limit_or_zero]. apply apply_limit_positive. lia.
Qed.

(** C6, amended.  [GET /blogs] on a working store answers 200 with the
    collection sorted newest first (by [publishedAt] descending, then by
    [createdAt] descending), each document mapped by [toBlogResponse].
    The limit is read by [parseInt]: a finite positive reading [n] keeps
    the first [min n 100] posts; [NaN], a reading that is not positive,
    and an infinite reading keep all of them.  For a limit that starts
    with the decimal digits of [n], the reading is [n] when [n] has a
    finite double and infinite otherwise. *)
Theorem listBlogs_newest_first_capped (limit : query_value)
    (w : world) :
  db_fault w = None ->
  exists sorted,
    Permutation sorted (collection w)
    /\ StronglySorted newest_first sorted
    /\ fst (listBlogs limit w)
       = respond 200
           (PostsBody
              (map (fun d => toBlogResponse (Some d))
                 (limited (parseInt10 limit) sorted)))
    /\ (forall n,
          parseInt10 limit = Finite n -> 0 < n ->
          (List.length (limited (parseInt10 limit) sorted) <= 100)%nat)
    /\ (forall ds rest,
          limit = JString (ds ++ rest) ->
          ds <> [] -> forallb is_digit ds = true ->
          head_is is_digit rest = false ->
          let n := digits_value ds in
          (0 < n < DOUBLE_OVERFLOW ->
           limited (parseInt10 limit) sorted
           = firstn (Z.to_nat (Z.min n 100)) sorted)
          /\ (n = 0 \/ DOUBLE_OVERFLOW <= n ->
              limited (parseInt10 limit) sorted = sorted)).
Proof.
  intros F. exists (sort_by NEWEST_FIRST (collection w)).
  split; [ apply sort_by_perm | ].
  split; [ apply sort_newest_first | ].
  split; [ apply listBlogs_response, F | ].
  split.
  { intros n E Pos. rewrite E. unfold limited.
    destruct (Z.ltb_spec 0 n); [ | lia ].
    rewrite length_firstn. lia. }
  intros ds rest -> Hne Hd Hr n.
  rewrite parseInt10_digits by assumption. fold n. split.
  - intros Hn. rewrite number_of_integer_finite by lia.
    unfold limited. destruct (Z.ltb_spec 0 n); [ reflexivity | lia ].
  - intros [Hn | Hn].
    + rewrite Hn. reflexivity.
    + rewrite number_of_integer_overflow by exact Hn. reflexivity.
Qed.

(** ** The middleware *)

Lemma jsstring_eqb_eq a b : jsstring_eqb a b = true <-> a = b.
Proof.
  unfold jsstring_eqb. destruct (list_eq_dec N.eq_dec a b);
    split; congruence.
Qed.

Lemma jsstring_eqb_refl a : jsstring_eqb a a = true.
Proof. apply jsstring_eqb_eq. reflexivity. Qed.

Lemma startsWith_empty prefix :
  prefix <> [] -> startsWith [] prefix = false.
Proof.
  intros H. unfold startsWith. rewrite firstn_nil.
  apply not_true_iff_false. rewrite jsstring_eqb_eq. congruence.
Qed.

Lemma verifyToken_missing authorization w :
  authorization = None
  \/ (exists a, authorization = Some a /\ startsWith a BEARER = false) ->
  verifyToken authorization w
  = (Some (respond 401 (ErrorBody MSG_MISSING_HEADER)), w).
Proof.
  intros [-> | (a & -> & S)]; [ reflexivity | ].
  unfold verifyToken. rewrite S. rewrite orb_true_r. reflexivity.
Qed.

Lemma verifyToken_bearer a w :
  startsWith a BEARER = true ->
  verifyToken (Some a) w
  = match jwt_verify (trim (skipn 7 a)) (AUTH_TOKEN_SECRET cfg) w with
    | Some _ => (None, w)
    | None =>
        (Some (respond 401 (ErrorBody MSG_INVALID_TOKEN)),
         console_error (lit "Invalid token") w)
    end.
Proof.
  intros S. unfold verifyToken. rewrite S.
  destruct a as [ | c t ]; [ discriminate | ]. reflexivity.
Qed.

(** The three ways out of the middleware. *)
Lemma verifyToken_cases authorization w :
  verifyToken authorization w
    = (Some (respond 401 (ErrorBody MSG_MISSING_HEADER)), w)
  \/ verifyToken authorization w
     = (Some (respond 401 (ErrorBody MSG_INVALID_TOKEN)),
        console_error (lit "Invalid token") w)
  \/ verifyToken authorization w = (None, w).
Proof.
  destruct authorization as [ a | ]; [ | left; reflexivity ].
  destruct (startsWith a BEARER) eqn:S.
  - rewrite verifyToken_bearer by exact S.
    destruct (jwt_verify _ _ _); auto.
  - left. apply verifyToken_missing. right. eauto.
Qed.

Lemma verifyToken_pass authorization w :
  fst (verifyToken authorization w) = None ->
  verifyToken authorization w = (None, w).
Proof.
  destruct (verifyToken_cases authorization w) as [E | [E | E]];
    rewrite E; simpl; congruence.
Qed.

(** C3.  The middleware of the gated route answers 401
    MissingCredential when there is no authorization header or it does
    not start with [Bearer ]; it answers 401 InvalidOrExpired when
    [jwt.verify] rejects the token after the prefix; and for a token
    [jwt.verify] accepts, whatever its claims hold (the scope among
    them), it leaves the world as it is and the route runs its handler. *)
Theorem verifyToken_gate (authorization : option jsstring) (p : payload)
    (w : world) :
  ((authorization = None
    \/ exists a, authorization = Some a /\ startsWith a BEARER = false) ->
   verifyToken authorization w
     = (Some (respond 401 (ErrorBody MSG_MISSING_HEADER)), w)
   /\ failure_of (respond 401 (ErrorBody MSG_MISSING_HEADER))
      = Some MissingCredential
   /\ fst (postBlogs authorization p w)
      = respond 401 (ErrorBody MSG_MISSING_HEADER))
  /\ (forall a,
        authorization = Some a -> startsWith a BEARER = true ->
        jwt_verify (trim (skipn 7 a)) (AUTH_TOKEN_SECRET cfg) w = None ->
        fst (verifyToken authorization w)
          = Some (respond 401 (ErrorBody MSG_INVALID_TOKEN))
        /\ failure_of (respond 401 (ErrorBody MSG_INVALID_TOKEN))
           = Some InvalidOrExpired
        /\ fst (postBlogs authorization p w)
           = respond 401 (ErrorBody MSG_INVALID_TOKEN))
  /\ (forall a decoded,
        authorization = Some a -> startsWith a BEARER = true ->
        jwt_verify (trim (skipn 7 a)) (AUTH_TOKEN_SECRET cfg) w
          = Some decoded ->
        verifyToken authorization w = (None, w)
        /\ postBlogs authorization p w = createBlog p w).
Proof.
  split; [ | split ].
  - intros H. pose proof (verifyToken_missing w H) as E.
    unfold postBlogs. rewrite E. auto.
  - intros a -> S V. unfold postBlogs.
    rewrite verifyToken_bearer by exact S. rewrite V. auto.
  - intros a decoded -> S V. unfold postBlogs.
    rewrite verifyToken_bearer by exact S. rewrite V. auto.
Qed.

(** ** Validation *)

Lemma both_inr (A B : Type) (f : parsed (A -> B)) (x : parsed A) b :
  both f x = inr b -> exists g a, f = inr g /\ x = inr a /\ b = g a.
Proof.
  destruct f as [e | g], x as [e' | a]; simpl; try discriminate.
  intros H. injection H as <-. eauto.
Qed.

Lemma both_inl_right (A B : Type) (f : parsed (A -> B)) (x : parsed A) e :
  x = inl e -> exists issues, both f x = inl issues /\ incl e issues.
Proof.
  intros ->. destruct f as [e' | g]; simpl; eexists; split;
    try reflexivity.
  - apply incl_appr, incl_refl.
  - apply incl_refl.
Qed.

Lemma both_inl_left (A B : Type) (f : parsed (A -> B)) (x : parsed A) e :
  f = inl e -> exists issues, both f x = inl issues /\ incl e issues.
Proof.
  intros ->. destruct x as [e' | a]; simpl; eexists; split;
    try reflexivity.
  - apply incl_appl, incl_refl.
  - apply incl_refl.
Qed.

(** Valid data is made of the seven fields, each valid. *)
Lemma safeParse_fields p data :
  safeParse p = inr data ->
  title_schema (p_title p) = inr (d_title data)
  /\ slug_schema (p_slug p) = inr (d_slug data)
  /\ author_schema (p_author p) = inr (d_author data)
  /\ date_schema (p_date p) = inr (d_date data)
  /\ excerpt_schema (p_excerpt p) = inr (d_excerpt data)
  /\ image_schema (p_image p) = inr (d_image data)
  /\ content_schema (p_content p) = inr (d_content data).
Proof.
  unfold safeParse. intros H.
  apply both_inr in H. destruct H as (g7 & c & H & -> & ->).
  apply both_inr in H. destruct H as (g6 & i & H & -> & ->).
  apply both_inr in H. destruct H as (g5 & x & H & -> & ->).
  apply both_inr in H. destruct H as (g4 & d & H & -> & ->).
  apply both_inr in H. destruct H as (g3 & a & H & -> & ->).
  apply both_inr in H. destruct H as (g2 & s & H & -> & ->).
  apply both_inr in H. destruct H as (g1 & t & H & -> & ->).
  injection H as <-. simpl. repeat split; reflexivity.
Qed.

(** An issue of the slug is an issue of the payload. *)
Lemma safeParse_slug_issues p e :
  slug_schema (p_slug p) = inl e ->
  exists issues, safeParse p = inl issues /\ incl e issues.
Proof.
  intros S. unfold safeParse.
  destruct (both_inl_right
              (both (inr Build_blog_data) (title_schema (p_title p))) S)
    as (i2 & E2 & I2).
  destruct (both_inl_left (author_schema (p_author p)) E2) as (i3 & E3 & I3).
  destruct (both_inl_left (date_schema (p_date p)) E3) as (i4 & E4 & I4).
  destruct (both_inl_left (excerpt_schema (p_excerpt p)) E4)
    as (i5 & E5 & I5).
  destruct (both_inl_left (image_schema (p_image p)) E5) as (i6 & E6 & I6).
  destruct (both_inl_left (content_schema (p_content p)) E6)
    as (i7 & E7 & I7).
  exists i7. split; [ exact E7 | ].
  intros x Hx. apply I7, I6, I5, I4, I3, I2, Hx.
Qed.

(** ** Dates *)

Lemma new_Date_range s t : new_Date s = TimeValue t -> Z.abs t <= MAX_TIME.
Proof.
  unfold new_Date, time_clip. destruct (is_empty s); [ discriminate | ].
  destruct (date_parse host s) as [ x | ]; [ | discriminate ].
  destruct (Z.leb_spec (Z.abs x) MAX_TIME) as [R | ]; [ | discriminate ].
  intros E. injection E as <-. exact R.
Qed.

Lemma day_floor_start t : utc_day_start t (t / msPerDay * msPerDay).
Proof.
  unfold utc_day_start. split; [ eexists; reflexivity | ].
  unfold msPerDay.
  pose proof (Z.div_mod t 86400000 ltac:(discriminate)).
  pose proof (Z.mod_pos_bound t 86400000 ltac:(reflexivity)).
  lia.
Qed.

Lemma day_floor_range t :
  Z.abs t <= MAX_TIME -> Z.abs (t / msPerDay * msPerDay) <= MAX_TIME.
Proof.
  unfold msPerDay, MAX_TIME. intros H.
  pose proof (Z.div_mod t 86400000 ltac:(discriminate)).
  pose proof (Z.mod_pos_bound t 86400000 ltac:(reflexivity)).
  lia.
Qed.

Lemma publishedAt_of_date data s :
  d_date data = Some s ->
  match new_Date s with
  | TimeValue t =>
      publishedAt_of data = Some (TimeValue (t / msPerDay * msPerDay))
  | InvalidDate => publishedAt_of data = None
  end.
Proof.
  intros E. unfold publishedAt_of. rewrite E.
  destruct s as [ | c u ]; [ reflexivity | ]. cbn [is_empty].
  destruct (new_Date (c :: u)) as [ | t ] eqn:D; [ reflexivity | ].
  cbn [is_invalid setUTCHours0]. unfold time_clip.
  pose proof (day_floor_range _ (new_Date_range _ D)) as R.
  destruct (Z.leb_spec (Z.abs (t / msPerDay * msPerDay)) MAX_TIME);
    [ reflexivity | lia ].
Qed.

Lemma is_empty_nil s : is_empty s = true <-> s = [].
Proof. destruct s; simpl; split; congruence. Qed.

Lemma on_duplicate_key (X : Type) (o : option Z) (a b : X) :
  (o = Some 11000 /\ match o with Some 11000 => a | _ => b end = a)
  \/ (o <> Some 11000 /\ match o with Some 11000 => a | _ => b end = b).
Proof.
  destruct o as [ [ | c | c ] | ];
    try (right; split; [ discriminate | reflexivity ]).
  destruct (Pos.eq_dec c 11000) as [-> | N]; [ left; auto | ].
  right. split; [ congruence | ].
  do 14 (destruct c as [ c | c | ]; try reflexivity). congruence.
Qed.


(** The slug that reaches the schema is the one that was put in. *)
Lemma safeParse_slug p slug data :
  safeParse (with_slug p slug) = inr data -> d_slug data = slug.
Proof.
  intros H. apply safeParse_fields in H. destruct H as (_ & S & _).
  cbn [with_slug p_slug] in S. unfold slug_schema, z_string in S.
  destruct (flat_map _ _); congruence.
Qed.

(** What a schema that accepts tells of the value. *)
Lemma z_string_inr f checks v s :
  z_string f checks v = inr s ->
  v = JString s /\ forall c, In c checks -> run_check f s c = [].
Proof.
  destruct v as [ | | x | b r ]; try discriminate.
  unfold z_string. destruct (flat_map (run_check f x) checks) eqn:E;
    [ | discriminate ].
  intros H. injection H as <-. split; [ reflexivity | ].
  intros c I. destruct (run_check f x c) as [ | i l ] eqn:R;
    [ reflexivity | ].
  assert (In i (flat_map (run_check f x) checks))
    by (apply in_flat_map; exists c; rewrite R; simpl; auto).
  rewrite E in *. contradiction.
Qed.

Lemma max_check f s n :
  run_check f s (MaxLen n) = [] -> (zod_length s <= n)%nat.
Proof.
  cbn [run_check].
  destruct (Nat.ltb_spec n (zod_length s)); [ discriminate | lia ].
Qed.

Lemma min_check f s n :
  run_check f s (MinLen n) = [] -> (n <= zod_length s)%nat.
Proof.
  cbn [run_check].
  destruct (Nat.ltb_spec (zod_length s) n); [ discriminate | lia ].
Qed.

Lemma z_optional_inr (A : Type) (inner : jsval -> parsed A) v (a : A) :
  z_optional inner v = inr (Some a) -> inner v = inr a.
Proof.
  unfold z_optional. destruct v; try discriminate;
    destruct (inner _); congruence.
Qed.




(** ** The write pipeline *)

Lemma createBlog_throws p w :
  normalizedSlug p = None -> createBlog p w = store_failed w.
Proof. intros N. unfold createBlog. rewrite N. reflexivity. Qed.

Lemma createBlog_invalid p w slug issues :
  normalizedSlug p = Some slug ->
  safeParse (with_slug p slug) = inl issues ->
  createBlog p w = (respond 400 (InvalidPayloadBody issues), w).
Proof. intros N H. unfold createBlog. rewrite N, H. reflexivity. Qed.

Lemma createBlog_valid p w slug data :
  normalizedSlug p = Some slug ->
  safeParse (with_slug p slug) = inr data ->
  createBlog p w
  = match BlogPost_save (build_document data) w with
    | (inr _, w') =>
        (respond 201 (SlugBody (doc_slug (build_document data))), w')
    | (inl error, w') =>
        match error_code error with
        | Some 11000 => (respond 409 (ErrorBody MSG_SLUG_EXISTS), w')
        | _ => store_failed w'
        end
    end.
Proof. intros N H. unfold createBlog. rewrite N, H. reflexivity. Qed.


(** The answers of the handler. *)
Lemma createBlog_cases p w :
  (normalizedSlug p = None /\ createBlog p w = store_failed w)
  \/ (exists slug issues,
        normalizedSlug p = Some slug
        /\ safeParse (with_slug p slug) = inl issues
        /\ createBlog p w = (respond 400 (InvalidPayloadBody issues), w))
  \/ (exists slug data,
        normalizedSlug p = Some slug
        /\ safeParse (with_slug p slug) = inr data
        /\ let document := build_document data in
           let saved := BlogPost_save document w in
           match fst saved with
           | inr _ =>
               createBlog p w
               = (respond 201 (SlugBody (doc_slug document)), snd saved)
           | inl error =>
               match error_code error with
               | Some 11000 =>
                   createBlog p w
                   = (respond 409 (ErrorBody MSG_SLUG_EXISTS), snd saved)
               | _ => createBlog p w = store_failed (snd saved)
               end
           end).
Proof.
  destruct (normalizedSlug p) as [ slug | ] eqn:N;
    [ | left; split; [ reflexivity | apply createBlog_throws, N ] ].
  right. destruct (safeParse (with_slug p slug)) as [issues | data] eqn:V.
  - left. exists slug, issues. split; [ reflexivity | ].
    split; [ exact V | apply (createBlog_invalid p w N V) ].
  - right. exists slug, data. split; [ reflexivity | ].
    split; [ exact V | ]. cbv zeta.
    rewrite (createBlog_valid p w N V).
    destruct (BlogPost_save (build_document data) w) as [[error | u] w'];
      cbn [fst snd]; [ | reflexivity ].
    destruct (@on_duplicate_key Prop (error_code error)
                (match error_code error with
                 | Some 11000 => (respond 409 (ErrorBody MSG_SLUG_EXISTS), w')
                 | _ => store_failed w'
                 end = (respond 409 (ErrorBody MSG_SLUG_EXISTS), w'))
                (match error_code error with
                 | Some 11000 => (respond 409 (ErrorBody MSG_SLUG_EXISTS), w')
                 | _ => store_failed w'
                 end = store_failed w'))
      as [[C E] | [C E]]; rewrite E;
      destruct (@on_duplicate_key (response * world) (error_code error)
                  (respond 409 (ErrorBody MSG_SLUG_EXISTS), w')
                  (store_failed w'))
        as [[C' E'] | [C' E']]; congruence.
Qed.

(** The four shapes of an answer of the handler. *)
Lemma createBlog_answers p w :
  (exists issues,
     createBlog p w = (respond 400 (InvalidPayloadBody issues), w))
  \/ (exists slug w', createBlog p w = (respond 201 (SlugBody slug), w'))
  \/ (exists w',
        createBlog p w = (respond 409 (ErrorBody MSG_SLUG_EXISTS), w'))
  \/ (exists w', createBlog p w = store_failed w').
Proof.
  unfold createBlog. destruct (normalizedSlug p) as [ slug | ];
    [ | right; right; right; eauto ].
  destruct (safeParse (with_slug p slug)) as [issues | data];
    [ left; eauto | right ].
  destruct (BlogPost_save (build_document data) w) as [[error | u] w'];
    [ | left; eauto ].
  right.
  destruct (@on_duplicate_key (response * world) (error_code error)
              (respond 409 (ErrorBody MSG_SLUG_EXISTS), w')
              (store_failed w'))
    as [[_ E] | [_ E]]; rewrite E; eauto.
Qed.

Lemma normalizedSlug_shaped p slug :
  normalizedSlug p = Some slug -> slug_shaped slug = true.
Proof.
  unfold normalizedSlug. destruct (slug_candidate p) as [ c | ];
    [ | discriminate ].
  intros E. injection E as <-. apply sanitizeSlug_shaped.
Qed.

Lemma normalizedSlug_chars p slug :
  normalizedSlug p = Some slug -> forallb slug_char slug = true.
Proof.
  intros N. pose proof (normalizedSlug_shaped _ N) as H.
  apply slug_shaped_parts in H. apply H.
Qed.

Lemma build_document_slug p slug data :
  normalizedSlug p = Some slug ->
  safeParse (with_slug p slug) = inr data ->
  doc_slug (build_document data) = slug.
Proof.
  intros N H. unfold build_document, new_BlogPost. cbn [doc_slug].
  rewrite (safeParse_slug _ _ H). apply trim_slug_chars.
  apply (normalizedSlug_chars _ N).
Qed.

(** The document of the handler, field by field. *)
Lemma build_document_fields data :
  doc_title (build_document data) = trim (d_title data)
  /\ doc_author (build_document data)
     = match d_author data with
       | Some a => if is_empty (trim a) then FALLBACK_AUTHOR else trim a
       | None => FALLBACK_AUTHOR
       end
  /\ doc_excerpt (build_document data)
     = match d_excerpt data with Some x => trim x | None => [] end
  /\ doc_image (build_document data)
     = match d_image data with Some i => trim i | None => [] end
  /\ doc_content (build_document data) = trim (d_content data)
  /\ doc_publishedAt (build_document data)
     = match d_date data with
       | Some s =>
           match new_Date s with
           | TimeValue t => Some (TimeValue (t / msPerDay * msPerDay))
           | InvalidDate => None
           end
       | None => None
       end.
Proof.
  unfold build_document, new_BlogPost.
  cbn [doc_title doc_author doc_excerpt doc_image doc_content
       doc_publishedAt].
  assert (Fb : trim FALLBACK_AUTHOR = FALLBACK_AUTHOR)
    by (vm_compute; reflexivity).
  split; [ apply trim_idempotent | ].
  split.
  { unfold or_else. destruct (d_author data) as [ a | ].
    - destruct (is_empty (trim a)); [ exact Fb | apply trim_idempotent ].
    - exact Fb. }
  split.
  { unfold trimmed_or_empty. destruct (d_excerpt data);
      [ apply trim_idempotent | reflexivity ]. }
  split.
  { unfold trimmed_or_empty. destruct (d_image data);
      [ apply trim_idempotent | reflexivity ]. }
  split; [ reflexivity | ].
  destruct (d_date data) as [ s | ] eqn:E.
  - pose proof (publishedAt_of_date _ E) as P.
    destruct (new_Date s); exact P.
  - unfold publishedAt_of. rewrite E. reflexivity.
Qed.

(** The handler behind the gate either stores one post and answers 201,
    or leaves the collection alone and answers something else. *)
Lemma createBlog_effect p w :
  (exists slug data,
     normalizedSlug p = Some slug
     /\ safeParse (with_slug p slug) = inr data
     /\ document_valid (build_document data) = true
     /\ db_fault w = None
     /\ existsb (fun s => jsstring_eqb (st_slug s) slug) (collection w)
        = false
     /\ doc_slug (build_document data) = slug
     /\ createBlog p w
        = (respond 201 (SlugBody slug),
           with_collection
             (collection w
              ++ [store_document (build_document data) (clock w)])
             (record_call (CallSave (build_document data)) w)))
  \/ (status (fst (createBlog p w)) = 400
      /\ snd (createBlog p w) = w)
  \/ ((status (fst (createBlog p w)) = 409
       \/ status (fst (createBlog p w)) = 500)
      /\ collection (snd (createBlog p w)) = collection w
      /\ minted (snd (createBlog p w)) = minted w
      /\ clock (snd (createBlog p w)) = clock w).
Proof.
  destruct (normalizedSlug p) as [ slug | ] eqn:N;
    [ | rewrite (createBlog_throws p w N); right; right; cbn; auto ].
  destruct (safeParse (with_slug p slug)) as [issues | data] eqn:V;
    [ rewrite (createBlog_invalid p w N V); right; left; split;
      reflexivity | ].
  rewrite (createBlog_valid p w N V).
  pose proof (build_document_slug _ N V) as Sl.
  unfold BlogPost_save.
  destruct (document_valid (build_document data)) eqn:D; cbn [negb];
    [ | right; right; cbn; auto ].
  cbn [db_fault record_call].
  destruct (db_fault w) as [ e | ] eqn:F.
  - right. right.
    destruct (@on_duplicate_key (response * world) (error_code e)
                (respond 409 (ErrorBody MSG_SLUG_EXISTS),
                 record_call (CallSave (build_document data)) w)
                (store_failed
                   (record_call (CallSave (build_document data)) w)))
      as [[_ E] | [_ E]]; rewrite E; cbn; auto.
  - cbn [collection record_call]. rewrite Sl.
    destruct (existsb (fun s => jsstring_eqb (st_slug s) slug)
                (collection w)) eqn:X.
    + right. right. cbn. auto.
    + left. exists slug, data. repeat split; auto.
Qed.

Lemma postBlogs_pass authorization p w :
  fst (verifyToken authorization w) = None ->
  postBlogs authorization p w = createBlog p w.
Proof.
  intros G. unfold postBlogs. rewrite (verifyToken_pass _ _ G). reflexivity.
Qed.


(** C8, amended.  On the gated route a request that fails with
    MissingCredential or with ValidationFailed writes nothing to the
    error log; a request that fails with InvalidOrExpired writes one
    entry, [Invalid token].  [POST /auth/verify] writes nothing, whatever
    it answers. *)
Theorem expected_failures_and_console (authorization : option jsstring)
    (p : payload) (w : world) :
  let result := postBlogs authorization p w in
  (failure_of (fst result) = Some MissingCredential ->
   console (snd result) = console w)
  /\ (failure_of (fst result) = Some ValidationFailed ->
      console (snd result) = console w)
  /\ (failure_of (fst result) = Some InvalidOrExpired ->
      console (snd result)
      = console w ++ [ConsoleError (lit "Invalid token")])
  /\ (forall token, console (snd (verify token w)) = console w).
Proof.
  cbv zeta.
  assert (Last : forall token, console (snd (verify token w)) = console w).
  { intros token. unfold verify.
    destruct (negb (truthy_val token)); [ reflexivity | ].
    destruct token; try reflexivity.
    destruct (jwt_verify _ _ _); reflexivity. }
  unfold postBlogs.
  destruct (verifyToken_cases authorization w) as [E | [E | E]]; rewrite E.
  - cbn [fst snd]. repeat split; auto; discriminate.
  - cbn [fst snd]. repeat split; auto; discriminate.
  - destruct (createBlog_answers p w)
      as [(issues & C) | [(slug & w' & C) | [(w' & C) | (w' & C)]]];
      rewrite C; cbn [fst snd store_failed]; repeat split; auto;
      discriminate.
Qed.

(** The slug rule on the empty string. *)
Lemma slug_schema_empty :
  slug_schema (JString [])
  = inl [{| path := FSlug; code := too_small |};
         {| path := FSlug; code := invalid_regex |}].
Proof.
  unfold slug_schema, z_string. cbn [flat_map run_check].
  rewrite zod_length_nil. reflexivity.
Qed.

(** C10.  Past the middleware, the slug the schema sees is made from the
    payload's slug whenever that is neither [null] nor absent (the empty
    string included, and also a value [String] cannot render, which ends
    the request with 500); the title is read only when the slug is
    [null] or absent, and the empty string stands in when the title is
    too.  The request is answered 400 exactly when the schema refuses
    the payload with that slug, and a 201 carries that slug.  So a
    request whose slug is the empty string fails validation with 400,
    whatever its title. *)
Theorem empty_slug_is_not_replaced (authorization : option jsstring)
    (p : payload) (w : world) :
  fst (verifyToken authorization w) = None ->
  (forall r,
     (nullish (p_slug p) = false /\ String_or_throw (p_slug p) = Some r)
     \/ (nullish (p_slug p) = true /\ nullish (p_title p) = false
         /\ String_or_throw (p_title p) = Some r)
     \/ (nullish (p_slug p) = true /\ nullish (p_title p) = true
         /\ r = []) ->
     match safeParse (with_slug p (sanitizeSlug r)) with
     | inl issues =>
         postBlogs authorization p w
         = (respond 400 (InvalidPayloadBody issues), w)
     | inr data =>
         status (fst (postBlogs authorization p w)) <> 400
         /\ forall slug w',
              postBlogs authorization p w
              = (respond 201 (SlugBody slug), w') ->
              slug = sanitizeSlug r
     end)
  /\ (nullish (p_slug p) = false -> String_or_throw (p_slug p) = None ->
      postBlogs authorization p w
      = (respond 500 (ErrorBody MSG_STORE_FAILED),
         console_error (lit "Failed to persist blog post") w))
  /\ (p_slug p = JString [] ->
      exists issues,
        postBlogs authorization p w
          = (respond 400 (InvalidPayloadBody issues), w)
        /\ In {| path := FSlug; code := too_small |} issues
        /\ failure_of (fst (postBlogs authorization p w))
           = Some ValidationFailed).
Proof.
  intros G. rewrite (postBlogs_pass _ p _ G).
  assert (First :
    forall r,
      (nullish (p_slug p) = false /\ String_or_throw (p_slug p) = Some r)
      \/ (nullish (p_slug p) = true /\ nullish (p_title p) = false
          /\ String_or_throw (p_title p) = Some r)
      \/ (nullish (p_slug p) = true /\ nullish (p_title p) = true
          /\ r = []) ->
      normalizedSlug p = Some (sanitizeSlug r)).
  { intros r H. unfold normalizedSlug, slug_candidate, coalesce.
    destruct H as [[Ns S] | [(Ns & Nt & S) | (Ns & Nt & ->)]].
    - rewrite Ns, S. reflexivity.
    - rewrite Ns, Nt, S. reflexivity.
    - rewrite Ns, Nt. reflexivity. }
  split; [ | split ].
  - intros r H. pose proof (First r H) as N.
    destruct (safeParse (with_slug p (sanitizeSlug r))) as [issues | data]
      eqn:V; [ apply (createBlog_invalid p w N V) | ].
    rewrite (createBlog_valid p w N V).
    pose proof (build_document_slug _ N V) as Sl.
    destruct (BlogPost_save (build_document data) w) as [[error | u] w1].
    + destruct (@on_duplicate_key (response * world) (error_code error)
                  (respond 409 (ErrorBody MSG_SLUG_EXISTS), w1)
                  (store_failed w1))
        as [[_ E] | [_ E]]; rewrite E;
        (split; [ discriminate | intros slug w' H'; inversion H' ]).
    + split; [ discriminate | ].
      intros slug w' H'. unfold respond in H'. injection H' as S _.
      rewrite <- S. exact Sl.
  - intros Ns S. apply createBlog_throws.
    unfold normalizedSlug, slug_candidate, coalesce. rewrite Ns, S.
    reflexivity.
  - intros S.
    assert (N : normalizedSlug p = Some []).
    { unfold normalizedSlug, slug_candidate, coalesce. rewrite S.
      reflexivity. }
    destruct (@safeParse_slug_issues (with_slug p [])
                [{| path := FSlug; code := too_small |};
                 {| path := FSlug; code := invalid_regex |}])
      as (issues & V & I).
    { cbn [with_slug p_slug]. apply slug_schema_empty. }
    exists issues. rewrite (createBlog_invalid p w N V).
    split; [ reflexivity | split; [ | reflexivity ] ].
    apply I. left. reflexivity.
Qed.

(** ** The date of a payload *)

Lemma date_schema_short s :
  (zod_length s <= 40)%nat -> date_schema (JString s) = inr (Some s).
Proof.
  intros H. unfold date_schema, z_optional, z_string.
  cbn [flat_map run_check app].
  destruct (Nat.ltb_spec 40 (zod_length s)); [ lia | reflexivity ].
Qed.

Lemma date_schema_long s :
  (40 < zod_length s)%nat ->
  date_schema (JString s) = inl [{| path := FDate; code := too_big |}].
Proof.
  intros H. unfold date_schema, z_optional, z_string.
  cbn [flat_map run_check app].
  destruct (Nat.ltb_spec 40 (zod_length s)); [ reflexivity | lia ].
Qed.

(** An issue of the date is an issue of the payload. *)
Lemma safeParse_date_issues p e :
  date_schema (p_date p) = inl e ->
  exists issues, safeParse p = inl issues /\ incl e issues.
Proof.
  intros S. unfold safeParse.
  destruct (both_inl_right
              (both (both (both (inr Build_blog_data)
                 (title_schema (p_title p)))
                 (slug_schema (p_slug p)))
                 (author_schema (p_author p))) S)
    as (i4 & E4 & I4).
  destruct (both_inl_left (excerpt_schema (p_excerpt p)) E4)
    as (i5 & E5 & I5).
  destruct (both_inl_left (image_schema (p_image p)) E5) as (i6 & E6 & I6).
  destruct (both_inl_left (content_schema (p_content p)) E6)
    as (i7 & E7 & I7).
  exists i7. split; [ exact E7 | ].
  intros x Hx. apply I7, I6, I5, I4, Hx.
Qed.

(** C5, amended.  The date of a payload is a string whose length, as the
    [max] rule of the schema counts it, is at most 40 or more than 40; a
    string of at most 40 code units is within the bound and one of more
    than 40 code points is beyond it, whichever of the two the rule
    counts.  Within the bound, validation gives what it gives without
    the date, with the date added to the data; when the string parses,
    [publishedAt] of the document, and of what the store keeps of it, is
    the start of the UTC day of the parsed time; when it does not parse,
    [publishedAt] is left out; and a 201 has stored that document.
    Beyond the bound, validation fails with an issue on the date and the
    handler answers 400 without a call to the store. *)
Theorem date_becomes_publishedAt (p : payload) (slug s : jsstring) :
  p_date p = JString s ->
  ((List.length s <= 40)%nat -> (zod_length s <= 40)%nat)
  /\ ((40 < code_points s)%nat -> (40 < zod_length s)%nat)
  /\ ((zod_length s <= 40)%nat ->
      safeParse (with_slug p slug)
      = match safeParse (with_slug (without_date p) slug) with
        | inr data0 => inr (with_date (Some s) data0)
        | inl issues => inl issues
        end
      /\ (forall data,
            safeParse (with_slug p slug) = inr data ->
            match new_Date s with
            | TimeValue t =>
                exists m,
                  utc_day_start t m
                  /\ doc_publishedAt (build_document data)
                     = Some (TimeValue m)
                  /\ forall createdAt,
                       st_publishedAt (store_document (build_document data)
                                         createdAt)
                       = Some m
            | InvalidDate =>
                doc_publishedAt (build_document data) = None
                /\ forall createdAt,
                     st_publishedAt (store_document (build_document data)
                                       createdAt)
                     = None
            end)
      /\ (forall w created w',
            normalizedSlug p = Some slug ->
            createBlog p w = (respond 201 (SlugBody created), w') ->
            exists data,
              safeParse (with_slug p slug) = inr data
              /\ collection w'
                 = collection w
                     ++ [store_document (build_document data) (clock w)]))
  /\ ((40 < zod_length s)%nat ->
      exists issues,
        safeParse (with_slug p slug) = inl issues
        /\ In {| path := FDate; code := too_big |} issues
        /\ forall w,
             normalizedSlug p = Some slug ->
             createBlog p w = (respond 400 (InvalidPayloadBody issues), w)).
Proof.
  intros D. pose proof (zod_length_bounds s) as B.
  split; [ lia | ]. split; [ lia | ]. split.
  - intros L. split; [ | split ].
    + unfold safeParse. cbn [with_slug without_date p_title p_slug p_author
                               p_date p_excerpt p_image p_content].
      rewrite D, (date_schema_short _ L).
      change (date_schema JUndefined)
        with (@inr (list issue) _ (@None jsstring)).
      destruct (title_schema (p_title p)),
               (slug_schema (JString slug)),
               (author_schema (p_author p)),
               (excerpt_schema (p_excerpt p)),
               (image_schema (p_image p)),
               (content_schema (p_content p)); reflexivity.
    + intros data V. apply safeParse_fields in V.
      destruct V as (_ & _ & _ & Vd & _).
      cbn [with_slug p_date] in Vd.
      rewrite D, (date_schema_short _ L) in Vd.
      injection Vd as Vd. symmetry in Vd.
      pose proof (publishedAt_of_date _ Vd) as P.
      unfold build_document, new_BlogPost, store_document.
      cbn [doc_publishedAt st_publishedAt].
      destruct (new_Date s) as [ | t ].
      * rewrite P. split; reflexivity.
      * exists (t / msPerDay * msPerDay). rewrite P.
        split; [ apply day_floor_start | split; reflexivity ].
    + intros w created w' N C.
      destruct (createBlog_effect p w)
        as [(slug' & data & N' & V & _ & _ & _ & _ & E)
           | [[S _] | [[S | S] _]]];
        try (rewrite C in S; discriminate).
      assert (slug' = slug) as -> by congruence.
      exists data. split; [ exact V | ].
      rewrite E in C. injection C as _ <-. reflexivity.
  - intros L.
    destruct (@safeParse_date_issues (with_slug p slug)
                [{| path := FDate; code := too_big |}])
      as (issues & V & I).
    { cbn [with_slug p_date]. rewrite D. apply date_schema_long, L. }
    exists issues. split; [ exact V | ].
    split; [ apply I; left; reflexivity | ].
    intros w N. apply (createBlog_invalid p w N V).
Qed.

(** ** Login and verification *)

Lemma load_config_secrets e :
  load_config e = Some cfg ->
  is_empty (ADMIN_SECRET_KEY cfg) = false
  /\ is_empty (AUTH_TOKEN_SECRET cfg) = false.
Proof.
  unfold load_config.
  destruct (is_empty (env_or (env_ADMIN_SECRET_KEY e) [])) eqn:A;
    [ discriminate | ].
  destruct (is_empty (env_or (env_AUTH_TOKEN_SECRET e) _)) eqn:S;
    [ discriminate | ].
  destruct (is_empty (env_or (env_MONGODB_URI e) [])); [ discriminate | ].
  intros H. injection H as <-. simpl. auto.
Qed.

Lemma token_text_not_empty n : is_empty (token_text n) = false.
Proof. reflexivity. Qed.

(** C2.  In a process that passed its start-up guards and whose
    [TOKEN_EXPIRY] is a time span, a login with the configured admin
    secret answers 200 with a token; [POST /auth/verify] of that token,
    under the same configuration and while the token lives, answers 200
    with claims whose scope holds [blog:create]. *)
Theorem login_then_verify (e : environment) (w : world) (span t : Z) :
  load_config e = Some cfg ->
  timespan host (TOKEN_EXPIRY cfg) = Some span ->
  t / 1000 < clock w / 1000 + span ->
  exists token w1 decoded,
    login (JString (ADMIN_SECRET_KEY cfg)) w
      = (respond 200 (TokenBody token (TOKEN_EXPIRY cfg)), w1)
    /\ verify (JString token) (at_time t w1)
       = (respond 200 (ValidBody decoded), at_time t w1)
    /\ In (lit "blog:create") (c_scope decoded).
Proof.
  intros C S T. destruct (load_config_secrets _ C) as [A _].
  unfold login. cbn [truthy_val strict_eq_string]. rewrite A.
  rewrite jsstring_eqb_refl. cbn [negb].
  unfold jwt_sign. rewrite S.
  eexists. eexists. eexists. split; [ reflexivity | ].
  unfold verify. cbn [truthy_val]. rewrite token_text_not_empty.
  cbn [negb]. unfold jwt_verify. rewrite token_text_not_empty.
  cbn [at_time minted with_minted lookup_token clock].
  rewrite jsstring_eqb_refl.
  cbn [signed_with signed_claims c_exp c_nbf not_yet_valid expired].
  rewrite jsstring_eqb_refl. cbn [negb].
  destruct (Z.leb_spec (clock w / 1000 + span) (t / 1000)); [ lia | ].
  split; [ reflexivity | ]. left. reflexivity.
Qed.

(* ================================================================== *)
(** * Further properties of the service *)

(** ** Login *)

Lemma strict_eq_string_spec (R : Type) (v : js_value R) s :
  strict_eq_string v s = true <-> v = JString s.
Proof.
  destruct v; simpl; try (split; [ discriminate | congruence ]).
  rewrite jsstring_eqb_eq. split; congruence.
Qed.

(** X1.  A login with anything but the admin secret, as a string, gets no
    token: the answer is 400 when the key is missing, [null], empty or
    otherwise falsy, 401 when it is another value, and nothing is
    minted or changed. *)
Theorem login_refuses_other_secrets (secretKey : jsval) (w : world) :
  secretKey <> JString (ADMIN_SECRET_KEY cfg) ->
  snd (login secretKey w) = w
  /\ (truthy_val secretKey = false ->
      fst (login secretKey w)
      = respond 400 (ErrorBody (lit "Secret key is required.")))
  /\ (truthy_val secretKey = true ->
      fst (login secretKey w)
      = respond 401 (ErrorBody (lit "Invalid credentials."))).
Proof.
  intros N. unfold login.
  assert (E : strict_eq_string secretKey (ADMIN_SECRET_KEY cfg) = false).
  { apply not_true_iff_false. rewrite strict_eq_string_spec. exact N. }
  rewrite E. destruct (truthy_val secretKey); simpl; repeat split;
    congruence.
Qed.

(** The one way to a token. *)
Lemma login_ok_inv secretKey w r w1 :
  login secretKey w = (r, w1) -> status r = 200 ->
  secretKey = JString (ADMIN_SECRET_KEY cfg)
  /\ exists span,
       timespan host (TOKEN_EXPIRY cfg) = Some span
       /\ r = respond 200 (TokenBody (token_text (List.length (minted w)))
                             (TOKEN_EXPIRY cfg))
       /\ w1 = with_minted
                 ((token_text (List.length (minted w)),
                   {| signed_with := AUTH_TOKEN_SECRET cfg;
                      signed_claims :=
                        {| c_scope := [lit "blog:create"];
                           c_issuedAt := clock w;
                           c_iat := clock w / 1000;
                           c_nbf := None;
                           c_exp := Some (clock w / 1000 + span) |} |})
                    :: minted w) w.
Proof.
  unfold login. destruct (truthy_val secretKey); simpl;
    [ | intros E; injection E as <- _; discriminate ].
  destruct (strict_eq_string secretKey (ADMIN_SECRET_KEY cfg)) eqn:S; simpl;
    [ | intros E; injection E as <- _; discriminate ].
  apply strict_eq_string_spec in S. unfold jwt_sign, uncaught.
  destruct (timespan host (TOKEN_EXPIRY cfg)) as [ span | ];
    [ | intros E; injection E as <- _; discriminate ].
  intros E _. injection E as <- <-. split; [ exact S | ].
  exists span. repeat split.
Qed.

(** X2.  A login that answers 200 was made with the admin secret; it
    mints exactly one token, signed with [AUTH_TOKEN_SECRET], whose scope
    is [blog:create], which is valid at once and which expires
    [TOKEN_EXPIRY] after the second it was issued in; the collection, the
    calls to the store and the error log stay as they were. *)
Theorem login_mints_one_token (secretKey : jsval) (w : world) :
  status (fst (login secretKey w)) = 200 ->
  secretKey = JString (ADMIN_SECRET_KEY cfg)
  /\ exists token span s,
       timespan host (TOKEN_EXPIRY cfg) = Some span
       /\ fst (login secretKey w)
          = respond 200 (TokenBody token (TOKEN_EXPIRY cfg))
       /\ minted (snd (login secretKey w)) = (token, s) :: minted w
       /\ signed_with s = AUTH_TOKEN_SECRET cfg
       /\ c_scope (signed_claims s) = [lit "blog:create"]
       /\ c_issuedAt (signed_claims s) = clock w
       /\ c_nbf (signed_claims s) = None
       /\ c_exp (signed_claims s) = Some (clock w / 1000 + span)
       /\ collection (snd (login secretKey w)) = collection w
       /\ db_calls (snd (login secretKey w)) = db_calls w
       /\ console (snd (login secretKey w)) = console w
       /\ clock (snd (login secretKey w)) = clock w.
Proof.
  intros H.
  destruct (login secretKey w) as [r w1] eqn:L. cbn [fst snd] in *.
  destruct (login_ok_inv _ _ L H) as (S & span & T & -> & ->).
  split; [ exact S | ].
  eexists. exists span. eexists. split; [ exact T | ].
  repeat split.
Qed.

(** ** A token of a login at the gate *)

Lemma forallb_repeat (p : code_unit -> bool) c n :
  p c = true -> forallb p (repeat c n) = true.
Proof.
  intros H. induction n as [ | n IH ]; simpl; [ reflexivity | ].
  rewrite H, IH. reflexivity.
Qed.

Lemma trim_token_text n : trim (token_text n) = token_text n.
Proof.
  unfold trim, token_text.
  rewrite trimStart_none by reflexivity.
  apply trimEnd_none. rewrite forallb_app, forallb_repeat by reflexivity.
  reflexivity.
Qed.

Lemma startsWith_app prefix s : startsWith (prefix ++ s) prefix = true.
Proof.
  unfold startsWith. rewrite firstn_app, Nat.sub_diag, firstn_all.
  simpl. rewrite app_nil_r. apply jsstring_eqb_refl.
Qed.

(** X4.  The token a login returns opens [POST /blogs]: sent as
    [Bearer <token>] at a time before its expiry, the request runs the
    handler; from the second of its expiry on, the answer is 401
    InvalidOrExpired, logged, and the handler does not run. *)
Theorem login_token_opens_gate (secretKey : jsval) (w w1 : world)
    (token expiresIn : jsstring) (span : Z) :
  timespan host (TOKEN_EXPIRY cfg) = Some span ->
  login secretKey w = (respond 200 (TokenBody token expiresIn), w1) ->
  forall (t : Z) (p : payload),
    (t / 1000 < clock w / 1000 + span ->
     postBlogs (Some (BEARER ++ token)) p (at_time t w1)
     = createBlog p (at_time t w1))
    /\ (clock w / 1000 + span <= t / 1000 ->
        postBlogs (Some (BEARER ++ token)) p (at_time t w1)
        = (respond 401 (ErrorBody MSG_INVALID_TOKEN),
           console_error (lit "Invalid token") (at_time t w1))).
Proof.
  intros T L t p.
  destruct (login_ok_inv _ _ L eq_refl) as (_ & span' & T' & R & ->).
  assert (span' = span) as -> by congruence.
  injection R as -> _.
  unfold postBlogs. rewrite verifyToken_bearer by apply startsWith_app.
  replace (skipn 7 (BEARER ++ token_text (List.length (minted w))))
    with (token_text (List.length (minted w))) by reflexivity.
  rewrite trim_token_text. unfold jwt_verify.
  rewrite token_text_not_empty.
  cbn [at_time minted with_minted lookup_token clock].
  rewrite jsstring_eqb_refl.
  cbn [signed_with signed_claims c_exp c_nbf not_yet_valid expired].
  rewrite jsstring_eqb_refl. cbn [negb].
  destruct (Z.leb_spec (clock w / 1000 + span) (t / 1000));
    split; intros; try lia; reflexivity.
Qed.

(** ** Verification and the gate *)

(** X3.  [POST /auth/verify] changes nothing and answers 400 exactly for
    a missing or falsy token.  It reads a token as the middleware of the
    gated route reads the text after [Bearer ], with the same key: the
    header [Bearer t] opens the route exactly when [POST /auth/verify]
    answers 200 for [t] without the whitespace around it.  A token that
    is no string is never answered 200. *)
Theorem verify_agrees_with_gate (token : jsval) (w : world) :
  snd (verify token w) = w
  /\ (status (fst (verify token w)) = 400 <-> truthy_val token = false)
  /\ ((forall t, token <> JString t) ->
      status (fst (verify token w)) <> 200)
  /\ (forall t,
        token = JString (trim t) ->
        (fst (verifyToken (Some (BEARER ++ t)) w) = None
         <-> status (fst (verify token w)) = 200)).
Proof.
  split; [ | split; [ | split ] ].
  - unfold verify. destruct (negb (truthy_val token)); [ reflexivity | ].
    destruct token; try reflexivity.
    destruct (jwt_verify _ _ _); reflexivity.
  - unfold verify. destruct (truthy_val token) eqn:T; cbn [negb].
    + split; [ | discriminate ].
      destruct token; try discriminate.
      destruct (jwt_verify _ _ _); discriminate.
    + split; reflexivity.
  - intros N. unfold verify. destruct (negb (truthy_val token));
      [ discriminate | ].
    destruct token as [ | | t | b r ]; try discriminate.
    exfalso. apply (N t). reflexivity.
  - intros t ->. rewrite verifyToken_bearer by apply startsWith_app.
    replace (skipn 7 (BEARER ++ t)) with t by reflexivity.
    unfold verify. cbn [truthy_val].
    destruct (trim t) as [ | c u ] eqn:E; cbn [is_empty negb].
    + unfold jwt_verify. cbn [is_empty]. cbn [fst].
      split; discriminate.
    + destruct (jwt_verify (c :: u) (AUTH_TOKEN_SECRET cfg) w);
        cbn [fst]; split; try reflexivity; discriminate.
Qed.

(** ** Whitespace around the token *)

Lemma trimStart_spaces pad s :
  forallb is_space pad = true -> trimStart (pad ++ s) = trimStart s.
Proof.
  induction pad as [ | c t IH ]; intros H; [ reflexivity | ].
  simpl in H. apply andb_true_iff in H. destruct H as [Hc Ht].
  simpl. rewrite Hc. apply IH, Ht.
Qed.

Lemma trimStart_all_spaces pad :
  forallb is_space pad = true -> trimStart pad = [].
Proof.
  intros H. rewrite <- (app_nil_r pad). rewrite trimStart_spaces by exact H.
  reflexivity.
Qed.

Lemma trimEnd_all_spaces pad :
  forallb is_space pad = true -> trimEnd pad = [].
Proof.
  induction pad as [ | c t IH ]; intros H; [ reflexivity | ].
  simpl in H. apply andb_true_iff in H. destruct H as [Hc Ht].
  rewrite trimEnd_cons, IH, Hc by assumption. reflexivity.
Qed.

Lemma trimEnd_spaces s pad :
  forallb is_space pad = true -> trimEnd (s ++ pad) = trimEnd s.
Proof.
  intros H. induction s as [ | c t IH ].
  - simpl. apply trimEnd_all_spaces, H.
  - rewrite <- app_comm_cons, !trimEnd_cons, IH. reflexivity.
Qed.

Lemma trim_all_spaces s : forallb is_space s = true -> trim s = [].
Proof.
  intros H. unfold trim. rewrite trimStart_all_spaces by exact H.
  reflexivity.
Qed.

Lemma trimStart_keeps_tail s pad :
  trimStart s <> [] -> trimStart (s ++ pad) = trimStart s ++ pad.
Proof.
  induction s as [ | c t IH ]; intros H; [ simpl in H; congruence | ].
  simpl in *. destruct (is_space c); [ apply IH, H | reflexivity ].
Qed.

Lemma trim_padding before s after :
  forallb is_space before = true -> forallb is_space after = true ->
  trim (before ++ s ++ after) = trim s.
Proof.
  intros B A. unfold trim. rewrite trimStart_spaces by exact B.
  destruct (trimStart s) as [ | c t ] eqn:E.
  - assert (S : forallb is_space s = true).
    { clear - E. induction s as [ | c t IH ]; [ reflexivity | ].
      simpl in *. destruct (is_space c); [ auto | discriminate ]. }
    rewrite trimStart_all_spaces; [ reflexivity | ].
    rewrite forallb_app, S, A. reflexivity.
  - rewrite trimStart_keeps_tail by (rewrite E; discriminate).
    rewrite E. apply trimEnd_spaces, A.
Qed.

(** X5.  Whitespace between [Bearer ] and the token, and after the token,
    does not count: the padded header is treated as the plain one. *)
Theorem verifyToken_ignores_padding (before token after : jsstring)
    (w : world) :
  forallb is_space before = true ->
  forallb is_space after = true ->
  verifyToken (Some (BEARER ++ before ++ token ++ after)) w
  = verifyToken (Some (BEARER ++ token)) w.
Proof.
  intros B A. rewrite !verifyToken_bearer by apply startsWith_app.
  replace (skipn 7 (BEARER ++ before ++ token ++ after))
    with (before ++ token ++ after) by reflexivity.
  replace (skipn 7 (BEARER ++ token)) with token by reflexivity.
  rewrite trim_padding by assumption. reflexivity.
Qed.

(** ** Configuration *)

Lemma env_or_not_empty v d : d <> [] -> env_or v d <> [].
Proof.
  intros H. unfold env_or, or_else. destruct v as [ [ | c t ] | ]; simpl;
    congruence.
Qed.

(** X6.  The three guards on the environment at the start of the module
    let the process through exactly when [ADMIN_SECRET_KEY] and
    [MONGODB_URI] are set and not empty; the guard on
    [AUTH_TOKEN_SECRET] never stops it on its own.  Past them the admin
    secret is as given, the signing key is [AUTH_TOKEN_SECRET] or, when
    that is unset or empty, the admin secret, and the expiry is
    [TOKEN_EXPIRY] or, when that is unset or empty, [30m]; none of the
    three is empty.  (Whether the process then serves is decided later,
    by the connection to the database.) *)
Theorem env_guards_pass_iff (e : environment) :
  let admin := env_or (env_ADMIN_SECRET_KEY e) [] in
  (load_config e = None
   <-> admin = [] \/ env_or (env_MONGODB_URI e) [] = [])
  /\ (forall c,
        load_config e = Some c ->
        ADMIN_SECRET_KEY c = admin /\ admin <> []
        /\ AUTH_TOKEN_SECRET c = env_or (env_AUTH_TOKEN_SECRET e) admin
        /\ AUTH_TOKEN_SECRET c <> []
        /\ TOKEN_EXPIRY c = env_or (env_TOKEN_EXPIRY e) (lit "30m")
        /\ TOKEN_EXPIRY c <> []).
Proof.
  intros admin. unfold load_config. fold admin.
  destruct (is_empty admin) eqn:A.
  - apply is_empty_nil in A. split; [ | discriminate ].
    split; auto.
  - assert (An : admin <> []) by (rewrite <- is_empty_nil; congruence).
    pose proof (env_or_not_empty (env_AUTH_TOKEN_SECRET e) An) as Sn.
    destruct (is_empty (env_or (env_AUTH_TOKEN_SECRET e) admin)) eqn:S;
      [ apply is_empty_nil in S; congruence | ].
    destruct (is_empty (env_or (env_MONGODB_URI e) [])) eqn:M.
    + apply is_empty_nil in M. split; [ | discriminate ]. split; auto.
    + split.
      * split; [ discriminate | ].
        intros [E | E]; [ congruence | ].
        apply is_empty_nil in E. congruence.
      * intros c E. injection E as <-. cbn.
        repeat split; auto.
        apply env_or_not_empty. discriminate.
Qed.

(** ** Allowed origins *)

Lemma split_comma_not_nil s : split_comma s <> [].
Proof.
  destruct s as [ | c t ]; simpl; [ discriminate | ].
  destruct (c =? COMMA)%N; [ discriminate | ].
  destruct (split_comma t); discriminate.
Qed.

Lemma split_comma_no_comma s :
  Forall (fun piece => forallb (fun c => negb (c =? COMMA)%N) piece = true)
    (split_comma s).
Proof.
  induction s as [ | c t IH ]; simpl; [ repeat constructor | ].
  destruct (c =? COMMA)%N eqn:E; [ constructor; [ reflexivity | exact IH ] | ].
  destruct (split_comma t) as [ | piece rest ];
    [ repeat constructor; simpl; rewrite E; reflexivity | ].
  inversion IH as [ | ? ? Hp Hr ]; subst.
  constructor; [ | exact Hr ]. simpl. rewrite E, Hp. reflexivity.
Qed.

Lemma join_split_comma s : join_comma (split_comma s) = s.
Proof.
  induction s as [ | c t IH ]; [ reflexivity | ].
  simpl. destruct (N.eqb_spec c COMMA) as [-> | N].
  - pose proof (split_comma_not_nil t) as Ne.
    destruct (split_comma t) as [ | piece rest ]; [ congruence | ].
    change (join_comma ([] :: piece :: rest))
      with ([] ++ COMMA :: join_comma (piece :: rest)).
    rewrite IH. reflexivity.
  - pose proof (split_comma_not_nil t) as Ne.
    destruct (split_comma t) as [ | piece rest ]; [ congruence | ].
    destruct rest as [ | q r ].
    + simpl in *. congruence.
    + change (join_comma ((c :: piece) :: q :: r))
        with (c :: (piece ++ COMMA :: join_comma (q :: r))).
      change (join_comma (piece :: q :: r))
        with (piece ++ COMMA :: join_comma (q :: r)) in IH.
      rewrite IH. reflexivity.
Qed.

Lemma split_comma_blank s :
  forallb (fun c => is_space c || (c =? COMMA)%N) s = true ->
  Forall (fun piece => forallb is_space piece = true) (split_comma s).
Proof.
  induction s as [ | c t IH ]; simpl; [ repeat constructor | ].
  intros H. apply andb_true_iff in H. destruct H as [Hc Ht].
  specialize (IH Ht).
  destruct (c =? COMMA)%N eqn:E; [ constructor; [ reflexivity | exact IH ] | ].
  rewrite orb_false_r in Hc.
  destruct (split_comma t) as [ | piece rest ];
    [ repeat constructor; simpl; rewrite Hc; reflexivity | ].
  inversion IH as [ | ? ? Hp Hr ]; subst.
  constructor; [ | exact Hr ]. simpl. rewrite Hc, Hp. reflexivity.
Qed.

(** X7.  Every allowed origin is a non-empty piece of [ALLOWED_ORIGINS]
    between commas, without whitespace at its ends and without a comma.
    When the variable is unset, empty, or made of commas and whitespace
    only, the list is empty and [cors] is told to allow every origin. *)
Theorem allowedOrigins_entries (ALLOWED_ORIGINS : option jsstring) :
  Forall (fun origin =>
            origin <> []
            /\ head_is is_space origin = false
            /\ last_is is_space origin = false
            /\ forallb (fun c => negb (c =? COMMA)%N) origin = true
            /\ exists piece,
                 In piece (split_comma (env_or ALLOWED_ORIGINS []))
                 /\ origin = trim piece)
    (allowedOrigins ALLOWED_ORIGINS)
  /\ join_comma (split_comma (env_or ALLOWED_ORIGINS []))
     = env_or ALLOWED_ORIGINS []
  /\ (forallb (fun c => is_space c || (c =? COMMA)%N)
        (env_or ALLOWED_ORIGINS []) = true ->
      allowedOrigins ALLOWED_ORIGINS = []
      /\ cors_origin_option (allowedOrigins ALLOWED_ORIGINS) = AnyOrigin).
Proof.
  unfold allowedOrigins. set (s := env_or ALLOWED_ORIGINS []).
  split; [ | split; [ apply join_split_comma | ] ].
  - apply Forall_forall. intros origin I.
    apply filter_In in I. destruct I as [I Ne].
    apply in_map_iff in I. destruct I as (piece & <- & Ip).
    destruct (trim_no_outer_space piece) as [Hh Hl].
    split; [ destruct (trim piece); [ discriminate | discriminate ] | ].
    split; [ exact Hh | ]. split; [ exact Hl | ].
    split; [ | eauto ].
    unfold trim. apply trimEnd_forallb, trimStart_forallb.
    pose proof (split_comma_no_comma s) as F.
    rewrite Forall_forall in F. apply F, Ip.
  - intros B. pose proof (split_comma_blank _ B) as F.
    assert (E : filter (fun origin => negb (is_empty origin))
                  (map trim (split_comma s)) = []).
    { induction F as [ | piece rest Hp _ IH ]; [ reflexivity | ].
      simpl. rewrite (trim_all_spaces _ Hp). exact IH. }
    rewrite E. split; reflexivity.
Qed.

(** ** The schema, field by field *)

Lemma accepted_both (A B : Type) (f : parsed (A -> B)) (x : parsed A) :
  accepted (both f x) = accepted f && accepted x.
Proof. destruct f, x; reflexivity. Qed.

Lemma strict_eq_empty (s : jsstring) :
  strict_eq_string (@JString (option jsstring) s) [] = is_empty s.
Proof.
  simpl. destruct s as [ | c t ]; [ apply jsstring_eqb_refl | ].
  apply not_true_iff_false. rewrite jsstring_eqb_eq. discriminate.
Qed.

(** Compare lengths in [bool] and in [Prop]. *)
Ltac lengths :=
  cbn [optional_string]; unfold length_between;
  repeat match goal with
    | |- context [ (?a <? ?b)%nat ] => destruct (Nat.ltb_spec a b)
    | |- context [ (?a <=? ?b)%nat ] => destruct (Nat.leb_spec a b)
    end;
  cbn [app accepted andb]; try reflexivity; try (exfalso; lia).

Lemma title_schema_accepts v :
  accepted (title_schema v)
  = match v with JString t => length_between 3 160 t | _ => false end.
Proof.
  destruct v as [ | | t | b r ]; try reflexivity.
  unfold title_schema, z_string. cbn [flat_map run_check app]. lengths.
Qed.

Lemma slug_schema_accepts_iff v :
  accepted (slug_schema v)
  = match v with
    | JString s => length_between 3 160 s && slug_regex_test s
    | _ => false
    end.
Proof.
  destruct v as [ | | s | b r ]; try reflexivity.
  unfold slug_schema, z_string. cbn [flat_map run_check app].
  destruct (slug_regex_test s); lengths.
Qed.

Lemma content_schema_accepts v :
  accepted (content_schema v)
  = match v with JString c => (20 <=? zod_length c)%nat | _ => false end.
Proof.
  destruct v as [ | | c | b r ]; try reflexivity.
  unfold content_schema, z_string. cbn [flat_map run_check app]. lengths.
Qed.

Lemma author_schema_accepts v :
  accepted (author_schema v) = optional_string (length_between 0 120) v.
Proof.
  destruct v as [ | | a | b r ]; try reflexivity;
    unfold author_schema, z_default, z_optional, z_string;
    cbn [flat_map run_check app]; rewrite ?zod_length_nil; lengths.
Qed.

Lemma date_schema_accepts v :
  accepted (date_schema v) = optional_string (length_between 0 40) v.
Proof.
  destruct v as [ | | a | b r ]; try reflexivity.
  unfold date_schema, z_optional, z_string.
  cbn [flat_map run_check app]. lengths.
Qed.

Lemma excerpt_schema_accepts v :
  accepted (excerpt_schema v) = optional_string (length_between 0 320) v.
Proof.
  destruct v as [ | | a | b r ]; try reflexivity.
  unfold excerpt_schema, z_optional, z_string.
  cbn [flat_map run_check app]. lengths.
Qed.

Lemma image_schema_accepts v :
  accepted (image_schema v)
  = optional_string (fun i => url_ok host i || is_empty i) v.
Proof.
  destruct v as [ | | i | b r ]; try reflexivity.
  unfold image_schema, z_or_empty_literal, z_optional, z_string.
  cbn [flat_map run_check app optional_string].
  destruct (url_ok host i); [ reflexivity | ].
  cbn [app orb]. rewrite strict_eq_empty.
  destruct (is_empty i); reflexivity.
Qed.

(** X8.  [blogPayloadSchema] accepts a payload exactly when the title is
    a string of length 3 to 160, the slug a string of length 3 to 160
    that matches the slug expression, the content a string of length at
    least 20, and author, date and excerpt are absent or strings of
    length at most 120, 40 and 320, and the image is absent, empty or a
    URL; [null] is accepted for none of them.  The lengths are those zod
    counts, code units or code points. *)
Theorem safeParse_accepts_iff (p : payload) :
  accepted (safeParse p) = payload_acceptable p.
Proof.
  unfold safeParse, payload_acceptable. rewrite !accepted_both.
  rewrite title_schema_accepts, slug_schema_accepts_iff,
    author_schema_accepts, date_schema_accepts, excerpt_schema_accepts,
    image_schema_accepts, content_schema_accepts.
  reflexivity.
Qed.

Lemma safeParse_bounds p data :
  safeParse p = inr data ->
  (3 <= zod_length (d_title data) <= 160)%nat
  /\ (3 <= zod_length (d_slug data) <= 160)%nat
  /\ (exists a, d_author data = Some a /\ (zod_length a <= 120)%nat)
  /\ (forall x, d_excerpt data = Some x -> (zod_length x <= 320)%nat)
  /\ (20 <= zod_length (d_content data))%nat.
Proof.
  intros H. apply safeParse_fields in H.
  destruct H as (Ht & Hs & Ha & _ & Hx & _ & Hc).
  apply z_string_inr in Ht, Hs, Hc.
  destruct Ht as [_ Ht], Hs as [_ Hs], Hc as [_ Hc].
  split; [ split; [ eapply min_check | eapply max_check ]; apply Ht;
           simpl; auto | ].
  split; [ split; [ eapply min_check | eapply max_check ]; apply Hs;
           simpl; auto | ].
  split.
  - unfold author_schema, z_default in Ha.
    destruct (d_author data) as [ a | ] eqn:E.
    + exists a. split; [ reflexivity | ].
      apply z_optional_inr, z_string_inr in Ha. destruct Ha as [_ Ha].
      eapply max_check. apply Ha. simpl. auto.
    + exfalso. unfold z_optional in Ha.
      destruct (p_author p); try discriminate;
        destruct (z_string _ _ _); discriminate.
  - split.
    + intros x E. rewrite E in Hx.
      apply z_optional_inr, z_string_inr in Hx. destruct Hx as [_ Hx].
      eapply max_check. apply Hx. simpl. auto.
    + eapply min_check. apply Hc. simpl. auto.
Qed.

(** ** What a create request does to the store *)

Lemma verifyToken_keeps_store authorization w :
  collection (snd (verifyToken authorization w)) = collection w
  /\ minted (snd (verifyToken authorization w)) = minted w
  /\ clock (snd (verifyToken authorization w)) = clock w
  /\ db_calls (snd (verifyToken authorization w)) = db_calls w
  /\ db_fault (snd (verifyToken authorization w)) = db_fault w.
Proof.
  destruct (verifyToken_cases authorization w) as [E | [E | E]];
    rewrite E; cbn; auto.
Qed.

Lemma postBlogs_rejected authorization p w r :
  fst (verifyToken authorization w) = Some r ->
  postBlogs authorization p w = (r, snd (verifyToken authorization w))
  /\ status r = 401.
Proof.
  unfold postBlogs.
  destruct (verifyToken_cases authorization w) as [E | [E | E]];
    rewrite E; cbn [fst snd]; intros H;
    [ injection H as <- | injection H as <- | discriminate ];
    split; reflexivity.
Qed.

Lemma postBlogs_created authorization p w slug w' :
  postBlogs authorization p w = (respond 201 (SlugBody slug), w') ->
  exists data,
    normalizedSlug p = Some slug
    /\ safeParse (with_slug p slug) = inr data
    /\ doc_slug (build_document data) = slug
    /\ document_valid (build_document data) = true
    /\ db_fault w = None
    /\ existsb (fun s => jsstring_eqb (st_slug s) slug) (collection w)
       = false
    /\ w' = with_collection
              (collection w
               ++ [store_document (build_document data) (clock w)])
              (record_call (CallSave (build_document data)) w).
Proof.
  intros H.
  destruct (fst (verifyToken authorization w)) as [ r | ] eqn:G.
  - destruct (postBlogs_rejected _ p _ G) as [E S].
    rewrite E in H. injection H as -> _. discriminate.
  - rewrite (postBlogs_pass _ p _ G) in H.
    destruct (createBlog_effect p w)
      as [(slug' & data & N & V & D & F & X & Sl & E)
         | [[S _] | [[S | S] _]]];
      try (rewrite H in S; discriminate).
    rewrite E in H. unfold respond in H. injection H as -> <-.
    exists data. repeat split; auto.
Qed.

(** X9.  A create request never touches the minted tokens or the clock,
    and it changes the collection only when it answers 201: then exactly
    one post is appended, with the normalized slug and the current time
    as [createdAt].  With any other answer the collection is as it
    was. *)
Theorem postBlogs_store_effect (authorization : option jsstring)
    (p : payload) (w : world) :
  minted (snd (postBlogs authorization p w)) = minted w
  /\ clock (snd (postBlogs authorization p w)) = clock w
  /\ ((status (fst (postBlogs authorization p w)) = 201
       /\ exists d,
            collection (snd (postBlogs authorization p w))
            = collection w ++ [d]
            /\ normalizedSlug p = Some (st_slug d)
            /\ st_createdAt d = clock w
            /\ fst (postBlogs authorization p w)
               = respond 201 (SlugBody (st_slug d)))
      \/ (In (status (fst (postBlogs authorization p w)))
            [400; 401; 409; 500]
          /\ collection (snd (postBlogs authorization p w))
             = collection w)).
Proof.
  destruct (verifyToken_keeps_store authorization w) as (Kc & Km & Kt & _).
  destruct (fst (verifyToken authorization w)) as [ r | ] eqn:G.
  - destruct (postBlogs_rejected _ p _ G) as [E S]. rewrite E. cbn [fst snd].
    split; [ exact Km | ]. split; [ exact Kt | ].
    right. split; [ rewrite S; simpl; auto | exact Kc ].
  - rewrite (postBlogs_pass _ p _ G).
    destruct (createBlog_effect p w)
      as [(slug & data & N & V & D & F & X & Sl & E)
         | [[S W] | [S (C & M & T)]]].
    + rewrite E. cbn [fst snd with_collection record_call minted clock
                        collection].
      split; [ reflexivity | ]. split; [ reflexivity | ]. left.
      split; [ reflexivity | ].
      exists (store_document (build_document data) (clock w)).
      cbn [store_document st_slug st_createdAt].
      rewrite Sl. auto.
    + rewrite W. split; [ reflexivity | ]. split; [ reflexivity | ].
      right. rewrite S. simpl. auto.
    + split; [ exact M | ]. split; [ exact T | ]. right.
      split; [ | exact C ]. destruct S as [S | S]; rewrite S; simpl; auto.
Qed.

Lemma existsb_slug_false slug l :
  existsb (fun s => jsstring_eqb (st_slug s) slug) l = false ->
  ~ In slug (map st_slug l).
Proof.
  induction l as [ | d t IH ]; simpl; [ tauto | ].
  intros H. apply orb_false_iff in H. destruct H as [Hd Ht].
  intros [E | I]; [ | exact (IH Ht I) ].
  apply not_true_iff_false in Hd. apply Hd, jsstring_eqb_eq, E.
Qed.

Lemma existsb_slug_true slug l d :
  In d l -> st_slug d = slug ->
  existsb (fun s => jsstring_eqb (st_slug s) slug) l = true.
Proof.
  intros I E. apply existsb_exists. exists d.
  split; [ exact I | apply jsstring_eqb_eq, E ].
Qed.

Lemma NoDup_snoc (A : Type) (l : list A) (x : A) :
  NoDup l -> ~ In x l -> NoDup (l ++ [x]).
Proof.
  induction l as [ | a t IH ]; simpl; intros N I.
  - constructor; [ tauto | constructor ].
  - inversion N as [ | ? ? Na Nt ]; subst. constructor.
    + intros H. apply in_app_or in H. destruct H as [H | [H | []]];
        [ contradiction | subst; tauto ].
    + apply IH; [ exact Nt | tauto ].
Qed.

(** X10.  The slugs of the collection stay pairwise different under
    create requests. *)
Theorem slugs_stay_unique (authorization : option jsstring) (p : payload)
    (w : world) :
  NoDup (map st_slug (collection w)) ->
  NoDup (map st_slug (collection (snd (postBlogs authorization p w)))).
Proof.
  intros N.
  destruct (postBlogs authorization p w) as [r w'] eqn:P. cbn [snd].
  destruct (fst (verifyToken authorization w)) as [ rej | ] eqn:G.
  - destruct (postBlogs_rejected _ p _ G) as [E _].
    rewrite E in P. injection P as _ <-.
    destruct (verifyToken_keeps_store authorization w) as (-> & _).
    exact N.
  - rewrite (postBlogs_pass _ p _ G) in P.
    destruct (createBlog_effect p w)
      as [(slug & data & _ & V & D & F & X & Sl & E)
         | [[S W] | [S (C & _)]]].
    + rewrite E in P. injection P as _ <-.
      cbn [with_collection collection]. rewrite map_app. cbn [map].
      apply NoDup_snoc; [ exact N | ].
      cbn [store_document st_slug]. rewrite Sl.
      apply existsb_slug_false, X.
    + rewrite P in W. cbn [snd] in W. rewrite W. exact N.
    + rewrite P in C. cbn [snd] in C. rewrite C. exact N.
Qed.

(** X11.  A slug that is taken is never given again: while a post of the
    collection has the normalized slug of a request, the request is not
    answered 201 and stores nothing; it is answered 409 SlugConflict
    when it passes the gate and both validations and the store works. *)
Theorem taken_slug_conflicts (authorization : option jsstring) (p : payload)
    (w : world) (d : stored) :
  In d (collection w) ->
  normalizedSlug p = Some (st_slug d) ->
  In (status (fst (postBlogs authorization p w))) [400; 401; 409; 500]
  /\ collection (snd (postBlogs authorization p w)) = collection w
  /\ (forall data,
        fst (verifyToken authorization w) = None ->
        safeParse (with_slug p (st_slug d)) = inr data ->
        document_valid (build_document data) = true ->
        db_fault w = None ->
        postBlogs authorization p w
        = (respond 409 (ErrorBody MSG_SLUG_EXISTS),
           record_call (CallSave (build_document data)) w)).
Proof.
  intros I E.
  pose proof (existsb_slug_true _ _ I eq_refl) as X.
  assert (H : In (status (fst (postBlogs authorization p w)))
                [400; 401; 409; 500]
              /\ collection (snd (postBlogs authorization p w))
                 = collection w).
  { destruct (fst (verifyToken authorization w)) as [ rej | ] eqn:G.
    - destruct (postBlogs_rejected _ p _ G) as [R S]. rewrite R.
      cbn [fst snd]. rewrite S.
      split; [ simpl; auto | apply verifyToken_keeps_store ].
    - rewrite (postBlogs_pass _ p _ G).
      destruct (createBlog_effect p w)
        as [(slug & data & N & V & _ & _ & X' & _ & _)
           | [[S W] | [S (C & _)]]].
      + assert (slug = st_slug d) as -> by congruence. congruence.
      + rewrite W, S. split; [ simpl; auto | reflexivity ].
      + split; [ | exact C ]. destruct S as [S | S]; rewrite S; simpl; auto. }
  split; [ apply H | split; [ apply H | ] ].
  intros data G V D F. rewrite (postBlogs_pass _ p _ G).
  rewrite (createBlog_valid p w E V). unfold BlogPost_save.
  rewrite D. cbn [negb]. cbn [db_fault record_call collection]. rewrite F.
  rewrite (build_document_slug _ E V), X. reflexivity.
Qed.

(** ** Reading posts *)

Lemma find_slug_none slug l :
  existsb (fun s => jsstring_eqb (st_slug s) slug) l = false ->
  List.find (fun s => jsstring_eqb (st_slug s) slug) l = None.
Proof.
  induction l as [ | d t IH ]; simpl; [ reflexivity | ].
  intros H. apply orb_false_iff in H. destruct H as [Hd Ht].
  rewrite Hd. apply IH, Ht.
Qed.

Lemma find_slug_last slug l d :
  existsb (fun s => jsstring_eqb (st_slug s) slug) l = false ->
  st_slug d = slug ->
  List.find (fun s => jsstring_eqb (st_slug s) slug) (l ++ [d]) = Some d.
Proof.
  intros X E. induction l as [ | a t IH ]; simpl.
  - rewrite E, jsstring_eqb_refl. reflexivity.
  - simpl in X. apply orb_false_iff in X. destruct X as [Xa Xt].
    rewrite Xa. apply IH, Xt.
Qed.

(** X12.  A post that was created is found: after a create request was
    answered 201 with a slug, [GET /blogs/:slug] with that slug answers
    200 with the post of that slug, whose title and content are those of
    the payload without the whitespace around them. *)
Theorem created_post_is_found (authorization : option jsstring)
    (p : payload) (w w' : world) (slug : jsstring) :
  postBlogs authorization p w = (respond 201 (SlugBody slug), w') ->
  exists post title content,
    fst (getBlog slug w') = respond 200 (PostBody (Some post))
    /\ p_title p = JString title
    /\ p_content p = JString content
    /\ r_slug post = slug
    /\ r_title post = trim title
    /\ r_content post = trim content
    /\ r_author post <> [].
Proof.
  intros P.
  destruct (postBlogs_created _ _ _ P)
    as (data & N & V & Ds & D & F & X & ->).
  pose proof (safeParse_fields _ V) as (Ht & _ & _ & _ & _ & _ & Hc).
  apply z_string_inr in Ht, Hc. destruct Ht as [Ht _], Hc as [Hc _].
  cbn [with_slug p_title p_content] in Ht, Hc.
  unfold getBlog, BlogPost_findOne.
  cbn [db_fault record_call with_collection collection]. rewrite F.
  rewrite (trim_slug_chars _ (normalizedSlug_chars _ N)).
  rewrite (find_slug_last _ _ X)
    by (cbn [store_document st_slug]; exact Ds).
  cbn [fst toBlogResponse]. eexists. exists (d_title data), (d_content data).
  split; [ reflexivity | ].
  split; [ exact Ht | ]. split; [ exact Hc | ].
  cbn [r_slug r_title r_content r_author store_document st_slug st_title
       st_content st_author build_document new_BlogPost doc_slug doc_title
       doc_content doc_author].
  fold (build_document data).
  split; [ exact Ds | ]. split; [ apply trim_idempotent | ].
  split; [ reflexivity | ].
  unfold or_else. destruct (is_empty _) eqn:E; [ discriminate | ].
  intros Ne. rewrite Ne in E. discriminate.
Qed.

(** X13.  The store is asked for the slug of the address without the
    whitespace around it (mongoose casts the filter by the schema).  On
    a working store [GET /blogs/:slug] answers 404 NotFound exactly when
    no post of the collection has that slug, and otherwise 200 with a
    post that has it; it asks the store once and writes no log. *)
Theorem getBlog_found_or_404 (slug : jsstring) (w : world) :
  db_fault w = None ->
  (fst (getBlog slug w) = respond 404 (ErrorBody MSG_NOT_FOUND)
   <-> ~ In (trim slug) (map st_slug (collection w)))
  /\ (In (trim slug) (map st_slug (collection w)) ->
      exists d,
        In d (collection w) /\ st_slug d = trim slug
        /\ fst (getBlog slug w)
           = respond 200 (PostBody (toBlogResponse (Some d))))
  /\ snd (getBlog slug w) = record_call (CallFindOne slug) w.
Proof.
  intros F. unfold getBlog, BlogPost_findOne.
  cbn [db_fault record_call collection]. rewrite F.
  destruct (List.find (fun s => jsstring_eqb (st_slug s) (trim slug))
              (collection w))
    as [ d | ] eqn:E.
  - apply find_some in E. destruct E as [I S]. apply jsstring_eqb_eq in S.
    assert (In (trim slug) (map st_slug (collection w)))
      by (rewrite <- S; apply in_map, I).
    cbn [fst snd]. split; [ split; [ discriminate | tauto ] | ].
    split; [ eauto | reflexivity ].
  - cbn [fst snd].
    assert (N : ~ In (trim slug) (map st_slug (collection w))).
    { intros I. apply in_map_iff in I. destruct I as (d & S & I).
      apply (find_none _ _ E) in I. simpl in I.
      apply not_true_iff_false in I. apply I, jsstring_eqb_eq, S. }
    split; [ split; auto | ]. split; [ tauto | reflexivity ].
Qed.

(** X14.  The two read routes never change the collection, the minted
    tokens or the clock.  On a working store they write no log; when the
    store fails they answer 500 and log one entry. *)
Theorem reads_leave_the_store (limit : query_value) (slug : jsstring)
    (w : world) :
  collection (snd (listBlogs limit w)) = collection w
  /\ minted (snd (listBlogs limit w)) = minted w
  /\ clock (snd (listBlogs limit w)) = clock w
  /\ collection (snd (getBlog slug w)) = collection w
  /\ minted (snd (getBlog slug w)) = minted w
  /\ clock (snd (getBlog slug w)) = clock w
  /\ (db_fault w = None ->
      console (snd (listBlogs limit w)) = console w
      /\ console (snd (getBlog slug w)) = console w)
  /\ (db_fault w <> None ->
      fst (listBlogs limit w)
      = respond 500 (ErrorBody (lit "Failed to fetch blog posts."))
      /\ console (snd (listBlogs limit w))
         = console w ++ [ConsoleError (lit "Failed to list blog posts")]
      /\ fst (getBlog slug w)
         = respond 500
             (ErrorBody (lit "Failed to fetch the requested blog post."))
      /\ console (snd (getBlog slug w))
         = console w ++ [ConsoleError (lit "Failed to fetch blog post")]).
Proof.
  unfold listBlogs, getBlog, BlogPost_find, BlogPost_findOne.
  cbn [db_fault record_call]. destruct (db_fault w) as [ e | ].
  - cbn. repeat split; try reflexivity; congruence.
  - cbn [collection record_call].
    destruct (List.find _ (collection w)); cbn;
      repeat split; try reflexivity; congruence.
Qed.

(** ** Validation failures and what the store refuses *)

(** X15.  A create request answered 400 has no effect at all: the store
    is not called and nothing is logged. *)
Theorem invalid_payload_has_no_effect (authorization : option jsstring)
    (p : payload) (w : world) :
  status (fst (postBlogs authorization p w)) = 400 ->
  snd (postBlogs authorization p w) = w
  /\ fst (verifyToken authorization w) = None
  /\ exists slug issues,
       normalizedSlug p = Some slug
       /\ safeParse (with_slug p slug) = inl issues
       /\ fst (postBlogs authorization p w)
          = respond 400 (InvalidPayloadBody issues).
Proof.
  intros S.
  destruct (fst (verifyToken authorization w)) as [ rej | ] eqn:G.
  - destruct (postBlogs_rejected _ p _ G) as [E R].
    rewrite E in S. cbn [fst] in S. congruence.
  - rewrite (postBlogs_pass _ p _ G) in *.
    destruct (createBlog_cases p w)
      as [[_ C] | [(slug & issues & N & V & C) | (slug & data & N & V & _)]].
    + rewrite C in S. discriminate.
    + rewrite C. cbn [fst snd]. eauto 7.
    + exfalso. rewrite (createBlog_valid p w N V) in S.
      destruct (BlogPost_save (build_document data) w) as [[e | u] w1];
        [ | discriminate ].
      destruct (@on_duplicate_key (response * world) (error_code e)
                  (respond 409 (ErrorBody MSG_SLUG_EXISTS), w1)
                  (store_failed w1))
        as [[_ E] | [_ E]]; rewrite E in S; discriminate.
Qed.

Lemma safeParse_content_issues p e :
  content_schema (p_content p) = inl e ->
  exists issues, safeParse p = inl issues /\ incl e issues.
Proof. intros C. unfold safeParse. apply both_inl_right, C. Qed.

(** X16.  Behind the gate, a payload whose content is missing, is no
    string, or is a string of fewer than 20 code units is answered 400
    with an issue on the content, whatever the other fields hold, as
    long as [String] renders the slug candidate; when it does not, the
    handler never reaches the schema and the answer is 500
    PersistenceFailed, logged. *)
Theorem short_content_is_rejected (authorization : option jsstring)
    (p : payload) (w : world) :
  fst (verifyToken authorization w) = None ->
  match p_content p with
  | JString c => (List.length c < 20)%nat
  | _ => True
  end ->
  (slug_candidate p <> None ->
   exists issues,
     postBlogs authorization p w
     = (respond 400 (InvalidPayloadBody issues), w)
     /\ In {| path := FContent;
              code := match p_content p with
                      | JString _ => too_small
                      | _ => invalid_type
                      end |} issues)
  /\ (slug_candidate p = None ->
      postBlogs authorization p w
      = (respond 500 (ErrorBody MSG_STORE_FAILED),
         console_error (lit "Failed to persist blog post") w)).
Proof.
  intros G H. rewrite (postBlogs_pass _ p _ G). split.
  - intros C. destruct (normalizedSlug p) as [ slug | ] eqn:N.
    2: { unfold normalizedSlug in N.
         destruct (slug_candidate p); [ discriminate | congruence ]. }
    destruct (@safeParse_content_issues (with_slug p slug)
                [{| path := FContent;
                    code := match p_content p with
                            | JString _ => too_small
                            | _ => invalid_type
                            end |}])
      as (issues & V & I).
    { cbn [with_slug p_content]. destruct (p_content p) as [ | | c | b r ];
        try reflexivity.
      unfold content_schema, z_string. cbn [flat_map run_check app].
      pose proof (zod_length_bounds c).
      destruct (Nat.ltb_spec (zod_length c) 20); [ reflexivity | lia ]. }
    exists issues. rewrite (createBlog_invalid p w N V).
    split; [ reflexivity | apply I; left; reflexivity ].
  - intros C. apply createBlog_throws. unfold normalizedSlug.
    rewrite C. reflexivity.
Qed.

(** X17.  The schema measures title and content before they are trimmed:
    a payload the schema accepts whose title or content is made of
    whitespace only fails the [required] validators of [blogPostSchema]
    when it is saved, and the request is answered 500
    PersistenceFailed, logged, with nothing stored. *)
Theorem blank_title_is_a_store_failure (authorization : option jsstring)
    (p : payload) (w : world) (slug : jsstring) (data : blog_data) :
  fst (verifyToken authorization w) = None ->
  normalizedSlug p = Some slug ->
  safeParse (with_slug p slug) = inr data ->
  forallb is_space (d_title data) = true
  \/ forallb is_space (d_content data) = true ->
  fst (postBlogs authorization p w)
  = respond 500 (ErrorBody MSG_STORE_FAILED)
  /\ collection (snd (postBlogs authorization p w)) = collection w
  /\ console (snd (postBlogs authorization p w))
     = console w ++ [ConsoleError (lit "Failed to persist blog post")].
Proof.
  intros G N V B. rewrite (postBlogs_pass _ p _ G).
  assert (D : document_valid (build_document data) = false).
  { unfold document_valid, build_document, new_BlogPost.
    cbn [doc_slug doc_title doc_content doc_publishedAt].
    destruct B as [B | B]; rewrite (trim_all_spaces _ B).
    - cbn [trim trimStart trimEnd is_empty negb].
      rewrite andb_false_r. reflexivity.
    - cbn [is_empty negb]. rewrite andb_false_r. reflexivity. }
  rewrite (createBlog_valid p w N V). unfold BlogPost_save.
  rewrite D. cbn. auto.
Qed.

(** ** What the collection holds *)

Lemma trimStart_length s : (List.length (trimStart s) <= List.length s)%nat.
Proof.
  induction s as [ | c t IH ]; simpl; [ lia | ].
  destruct (is_space c); simpl; lia.
Qed.

Lemma trimEnd_length s : (List.length (trimEnd s) <= List.length s)%nat.
Proof.
  induction s as [ | c t IH ]; [ simpl; lia | ].
  rewrite trimEnd_cons. destruct (trimEnd t) as [ | e u ].
  - destruct (is_space c); simpl; lia.
  - simpl in *. lia.
Qed.

Lemma trim_length s : (List.length (trim s) <= List.length s)%nat.
Proof.
  unfold trim. pose proof (trimEnd_length (trimStart s)).
  pose proof (trimStart_length s). lia.
Qed.

Lemma code_points_trimStart s :
  (code_points (trimStart s) <= code_points s)%nat.
Proof.
  induction s as [ | c t IH ]; [ simpl; lia | ].
  cbn [trimStart]. destruct (is_space c); [ | lia ].
  pose proof (code_points_tail c t). lia.
Qed.

Lemma code_points_trimEnd s :
  (code_points (trimEnd s) <= code_points s)%nat.
Proof.
  induction s as [ | c t IH ]; [ simpl; lia | ].
  rewrite trimEnd_cons. destruct (trimEnd t) as [ | e u ] eqn:E.
  - pose proof (code_points_positive c t).
    destruct (is_space c);
      [ change (code_points []) with O
      | change (code_points [c]) with 1%nat ]; lia.
  - destruct (trimEnd_same_head _ E) as [t' ->].
    rewrite (code_points_cons c (e :: u)), (code_points_cons c (e :: t')).
    destruct (is_high_surrogate c && is_low_surrogate e); lia.
Qed.

(** Trimming shortens a string in either length. *)
Lemma zod_length_trim s : (zod_length (trim s) <= zod_length s)%nat.
Proof.
  unfold zod_length. destruct (zod_counts host); cbn [measured].
  - apply trim_length.
  - unfold trim. pose proof (code_points_trimEnd (trimStart s)).
    pose proof (code_points_trimStart s). lia.
Qed.

Lemma not_empty_length s : is_empty s = false -> (1 <= List.length s)%nat.
Proof. destruct s; simpl; [ discriminate | lia ]. Qed.

Lemma publishedAt_of_aligned data t :
  publishedAt_of data = Some (TimeValue t) -> exists k, t = k * msPerDay.
Proof.
  unfold publishedAt_of. destruct (d_date data) as [ s | ]; [ | discriminate ].
  destruct (is_empty s); [ discriminate | ].
  destruct (new_Date s) as [ | t0 ]; [ discriminate | ].
  cbn [is_invalid setUTCHours0]. unfold time_clip.
  destruct (Z.abs (t0 / msPerDay * msPerDay) <=? MAX_TIME);
    [ | discriminate ].
  intros E. injection E as <-. eauto.
Qed.

Lemma built_post_ok p slug data createdAt :
  normalizedSlug p = Some slug ->
  safeParse (with_slug p slug) = inr data ->
  document_valid (build_document data) = true ->
  post_ok (store_document (build_document data) createdAt).
Proof.
  intros N V D.
  pose proof (safeParse_bounds _ V) as (Bt & Bs & (a & Ea & Ba) & Bx & Bc).
  pose proof (build_document_slug _ N V) as Sl.
  pose proof (safeParse_slug _ _ V) as Sd.
  pose proof (normalizedSlug_shaped _ N) as Sh.
  assert (Zs : zod_length slug = List.length slug).
  { apply zod_length_ascii. apply slug_shaped_parts in Sh.
    destruct Sh as [Sh _]. revert Sh. apply forallb_impl.
    exact slug_char_ascii. }
  unfold document_valid in D. rewrite !andb_true_iff, !negb_true_iff in D.
  destruct D as (((Ds & Dt) & Dc) & Dp).
  destruct (build_document_fields data) as (Ft & Fa & Fx & _ & _ & _).
  unfold post_ok.
  cbn [store_document st_slug st_title st_author st_excerpt st_content
       st_publishedAt].
  rewrite Sl, Ft, Fa, Fx. rewrite Ft in Dt.
  split; [ exact Sh | ].
  split; [ rewrite <- Zs, <- Sd; exact Bs | ].
  split; [ apply not_empty_length, Dt | ].
  split; [ pose proof (zod_length_trim (d_title data)); lia | ].
  split; [ apply trim_no_outer_space | ].
  split; [ apply trim_no_outer_space | ].
  assert (Fb : zod_length FALLBACK_AUTHOR = 15%nat)
    by (rewrite zod_length_ascii; reflexivity).
  rewrite Ea.
  split.
  { destruct (is_empty (trim a)) eqn:E;
      [ vm_compute; lia | apply not_empty_length, E ]. }
  split.
  { destruct (is_empty (trim a)); [ lia | ].
    pose proof (zod_length_trim a). lia. }
  split.
  { destruct (d_excerpt data) as [ x | ].
    - pose proof (zod_length_trim x). specialize (Bx x eq_refl). lia.
    - rewrite zod_length_nil. lia. }
  split; [ apply not_empty_length, Dc | ].
  intros t E. apply publishedAt_of_aligned with (data := data).
  unfold build_document, new_BlogPost in E. cbn [doc_publishedAt] in E.
  destruct (publishedAt_of data) as [ [ | t0 ] | ]; congruence.
Qed.

(** X18.  Every post the write pipeline adds keeps the rules of the
    collection: a slug of 3 to 160 code units made of [[a-z0-9]]
    segments joined by single hyphens; a title that is not empty, has no
    whitespace at its ends and is of length at most 160; an author that
    is not empty and of length at most 120; an excerpt of length at most
    320; a content that is not empty; and a [publishedAt], when present,
    at the start of a UTC day.  The lengths with a bound are those the
    schema counts, code units or code points.  So a collection of such
    posts stays one. *)
Theorem stored_posts_stay_well_formed (authorization : option jsstring)
    (p : payload) (w : world) :
  Forall post_ok (collection w) ->
  Forall post_ok (collection (snd (postBlogs authorization p w))).
Proof.
  intros F.
  destruct (fst (verifyToken authorization w)) as [ rej | ] eqn:G.
  - destruct (postBlogs_rejected _ p _ G) as [E _]. rewrite E. cbn [snd].
    destruct (verifyToken_keeps_store authorization w) as (-> & _).
    exact F.
  - rewrite (postBlogs_pass _ p _ G).
    destruct (createBlog_effect p w)
      as [(slug & data & N & V & D & _ & _ & _ & E)
         | [[_ W] | [_ (C & _)]]].
    + rewrite E. cbn [snd with_collection collection].
      apply Forall_app. split; [ exact F | ].
      constructor; [ | constructor ].
      apply (built_post_ok _ _ N V D).
    + rewrite W. exact F.
    + rewrite C. exact F.
Qed.

(** ** The length of a slug *)

Lemma replace_runs_length p x in_run s :
  (List.length (replace_runs_from p [x] in_run s) <= List.length s)%nat.
Proof.
  revert in_run. induction s as [ | c t IH ]; intros in_run; simpl;
    [ lia | ].
  destruct (p c).
  - destruct in_run; simpl; specialize (IH true); lia.
  - simpl. specialize (IH false). lia.
Qed.

Lemma strip_trailing_hyphen_length s :
  (List.length (strip_trailing_hyphen s) <= List.length s)%nat.
Proof.
  induction s as [ | c t IH ]; [ simpl; lia | ].
  destruct t as [ | d t' ].
  - simpl. destruct (is_hyphen c); simpl; lia.
  - rewrite strip_trailing_hyphen_cons. simpl in *. lia.
Qed.

Lemma strip_edge_hyphens_length s :
  (List.length (strip_edge_hyphens s) <= List.length s)%nat.
Proof.
  unfold strip_edge_hyphens.
  pose proof (strip_trailing_hyphen_length (strip_leading_hyphen s)).
  destruct s as [ | c t ]; simpl in *; [ lia | ].
  destruct (is_hyphen c); simpl in *; lia.
Qed.

(** X19.  The slug of an ASCII text is no longer than the text.  So when
    the slug is taken from an ASCII title that the schema accepts, the
    slug is never too long: the schema can refuse it only for being
    shorter than 3. *)
Theorem ascii_slug_is_no_longer (x : jsstring) :
  forallb is_ascii x = true ->
  (List.length (sanitizeSlug x) <= List.length x)%nat
  /\ ((List.length x <= 160)%nat ->
      (3 <= List.length (sanitizeSlug x))%nat ->
      slug_schema (JString (sanitizeSlug x)) = inr (sanitizeSlug x)).
Proof.
  intros A.
  assert (L : (List.length (sanitizeSlug x) <= List.length x)%nat).
  { unfold sanitizeSlug, replace_runs, keep_only, toLowerCase. rewrite A.
    pose proof (strip_edge_hyphens_length
                  (replace_runs_from is_hyphen [HYPHEN] false
                     (replace_runs_from is_space [HYPHEN] false
                        (filter slug_keep (trim (map ascii_lower x)))))).
    pose proof (replace_runs_length is_hyphen HYPHEN false
                  (replace_runs_from is_space [HYPHEN] false
                     (filter slug_keep (trim (map ascii_lower x))))).
    pose proof (replace_runs_length is_space HYPHEN false
                  (filter slug_keep (trim (map ascii_lower x)))).
    pose proof (filter_length_le slug_keep (trim (map ascii_lower x))).
    pose proof (trim_length (map ascii_lower x)).
    rewrite length_map in *. lia. }
  split; [ exact L | ].
  intros Hx H3. apply slug_schema_accepts; [ | lia ].
  apply slug_shaped_regex; [ apply sanitizeSlug_shaped | ].
  destruct (sanitizeSlug x); [ simpl in H3; lia | discriminate ].
Qed.

(** ** The public form of a post *)

(** X20.  A public excerpt is the stored one or at most 183 code units
    long, however long the content is; the public author is never
    empty, and the image is left out exactly when the stored one is
    empty. *)
Theorem public_post_fields (d : stored) :
  exists post,
    toBlogResponse (Some d) = Some post
    /\ (r_excerpt post = st_excerpt d
        \/ (st_excerpt d = []
            /\ (List.length (r_excerpt post) <= 183)%nat))
    /\ r_author post <> []
    /\ (r_image post = None <-> st_image d = [])
    /\ (forall i, r_image post = Some i -> i = st_image d /\ i <> []).
Proof.
  eexists. split; [ reflexivity | ].
  cbn [r_excerpt r_author r_image]. split; [ | split; [ | split ] ].
  - destruct (st_excerpt d) as [ | c t ]; [ right | left; reflexivity ].
    split; [ reflexivity | ]. cbn [or_else is_empty].
    destruct (Nat.le_gt_cases (List.length (plain_text (st_content d))) 180)
      as [S | L].
    + rewrite summarize_short by exact S. lia.
    + destruct (summarize_long _ L) as [_ ->]. lia.
  - unfold or_else. destruct (st_author d); simpl; discriminate.
  - destruct (st_image d); simpl; split; congruence.
  - intros i. destruct (st_image d) as [ | c t ]; simpl; [ discriminate | ].
    intros E. injection E as <-. split; [ reflexivity | discriminate ].
Qed.

(** ** Posts without a publication date *)

Lemma newest_first_dated_first l :
  StronglySorted newest_first l ->
  exists dated undated,
    l = dated ++ undated
    /\ Forall (fun d => st_publishedAt d <> None) dated
    /\ Forall (fun d => st_publishedAt d = None) undated.
Proof.
  induction 1 as [ | a t St IH Ha ].
  - exists [], []. repeat split; constructor.
  - destruct IH as (l1 & l2 & -> & F1 & F2).
    destruct (st_publishedAt a) as [ x | ] eqn:E.
    + exists (a :: l1), l2. repeat split; [ | exact F2 ].
      constructor; [ congruence | exact F1 ].
    + exists [], (a :: l1 ++ l2). repeat split; [ constructor | ].
      constructor; [ exact E | ].
      apply Forall_forall. intros b I.
      rewrite Forall_forall in Ha. specialize (Ha b I).
      unfold newest_first in Ha. rewrite E in Ha.
      destruct (st_publishedAt b); [ contradiction | reflexivity ].
Qed.

Lemma in_firstn_in (A : Type) (k : nat) (l : list A) (x : A) :
  In x (firstn k l) -> In x l.
Proof.
  revert l. induction k as [ | k IH ]; intros l; [ simpl; tauto | ].
  destruct l as [ | a t ]; simpl; [ tauto | ].
  intros [E | I]; [ auto | right; apply IH, I ].
Qed.

Lemma firstn_dated_first (k : nat) (dated undated : list stored) :
  firstn k (dated ++ undated)
  = firstn k dated ++ firstn (k - List.length dated) undated.
Proof. apply firstn_app. Qed.

(** X21.  The date shown for a post without [publishedAt] is that of its
    creation, but the order of the list does not fall back on it: in
    every answer of [GET /blogs] the posts with a [publishedAt] come
    first and those without come last, however recently they were
    created. *)
Theorem undated_posts_are_listed_last (limit : query_value) (w : world) :
  db_fault w = None ->
  exists dated undated,
    fst (listBlogs limit w)
    = respond 200
        (PostsBody
           (map (fun d => toBlogResponse (Some d)) (dated ++ undated)))
    /\ Forall (fun d => In d (collection w) /\ st_publishedAt d <> None)
         dated
    /\ Forall (fun d =>
                 In d (collection w) /\ st_publishedAt d = None
                 /\ exists post,
                      toBlogResponse (Some d) = Some post
                      /\ r_date post = long_date host (st_createdAt d))
         undated.
Proof.
  intros F. rewrite (listBlogs_response limit w F).
  destruct (newest_first_dated_first
              (sort_newest_first (collection w)))
    as (l1 & l2 & E & F1 & F2).
  assert (In1 : forall d, In d (l1 ++ l2) -> In d (collection w)).
  { intros d I. rewrite <- E in I.
    apply (Permutation_in d (sort_by_perm NEWEST_FIRST (collection w))), I. }
  rewrite E.
  assert (G : forall k,
            Forall (fun d => In d (collection w) /\ st_publishedAt d <> None)
              (firstn k l1)
            /\ Forall (fun d =>
                         In d (collection w) /\ st_publishedAt d = None
                         /\ exists post,
                              toBlogResponse (Some d) = Some post
                              /\ r_date post
                                 = long_date host (st_createdAt d))
                 (firstn k l2)).
  { intros k. split; apply Forall_forall; intros d I;
      apply in_firstn_in in I.
    - split; [ apply In1, in_or_app; auto | ].
      rewrite Forall_forall in F1. apply F1, I.
    - rewrite Forall_forall in F2. pose proof (F2 d I) as N.
      split; [ apply In1, in_or_app; auto | ]. split; [ exact N | ].
      eexists. split; [ reflexivity | ]. cbn [r_date]. rewrite N.
      reflexivity. }
  unfold limited.
  destruct (parseInt10 limit) as [ | n | neg ].
  - exists l1, l2. rewrite <- (firstn_all l1), <- (firstn_all l2).
    split; [ reflexivity | ].
    split; [ apply (G (List.length l1)) | apply (G (List.length l2)) ].
  - destruct (0 <? n).
    + rewrite firstn_dated_first.
      eexists. eexists. split; [ reflexivity | ]. split; apply G.
    + exists l1, l2. rewrite <- (firstn_all l1), <- (firstn_all l2).
      split; [ reflexivity | ].
      split; [ apply (G (List.length l1)) | apply (G (List.length l2)) ].
  - exists l1, l2. rewrite <- (firstn_all l1), <- (firstn_all l2).
    split; [ reflexivity | ].
    split; [ apply (G (List.length l1)) | apply (G (List.length l2)) ].
Qed.

End Service.

(* ================================================================== *)
(** * The service on concrete requests *)

Local Open Scope Z_scope.

(** ** The examples of the design document *)

Example normalize_hello_world :
  sanitizeSlug sample_host (lit "Hello, World!") = lit "hello-world".
Proof. vm_compute. reflexivity. Qed.

Example normalize_spaces_and_hyphens :
  sanitizeSlug sample_host (lit "  a--b  ") = lit "a-b".
Proof. vm_compute. reflexivity. Qed.

Example summary_of_sample_content :
  summarize sample_content []
  = lit "Title Some bold text here that is long enough.".
Proof. vm_compute. reflexivity. Qed.

Example summary_drops_link :
  summarize (lit "see [the docs](https://x.y/a_b) first") []
  = lit "see first".
Proof. vm_compute. reflexivity. Qed.

Example first_login :
  login sample_host sample_cfg (JString (lit "s3cret")) world0
  = (respond 200 (TokenBody (token_text 0) (lit "30m")), world1).
Proof. vm_compute. reflexivity. Qed.

Example wrong_secret :
  login sample_host sample_cfg (JString (lit "guess")) world0
  = (respond 401 (ErrorBody (lit "Invalid credentials.")), world0).
Proof. vm_compute. reflexivity. Qed.

Example second_post_conflicts :
  let after := snd (postBlogs sample_host sample_cfg (Some sample_bearer)
                      sample_payload world1) in
  status (fst (postBlogs sample_host sample_cfg (Some sample_bearer)
                 sample_payload world1)) = 201
  /\ status (fst (postBlogs sample_host sample_cfg (Some sample_bearer)
                    sample_payload after)) = 409.
Proof. vm_compute. split; reflexivity. Qed.

(** ** C1 *)


(** ** C2 *)

Lemma login_then_verify_witness :
  load_config sample_env = Some sample_cfg
  /\ timespan sample_host (TOKEN_EXPIRY sample_cfg) = Some 1800
  /\ 1704462360000 / 1000 < clock world0 / 1000 + 1800
  /\ exists token w1 decoded,
       login sample_host sample_cfg (JString (ADMIN_SECRET_KEY sample_cfg))
         world0
       = (respond 200 (TokenBody token (TOKEN_EXPIRY sample_cfg)), w1)
       /\ verify sample_cfg (JString token) (at_time 1704462360000 w1)
          = (respond 200 (ValidBody decoded), at_time 1704462360000 w1)
       /\ In (lit "blog:create") (c_scope decoded).
Proof.
  assert (C : load_config sample_env = Some sample_cfg)
    by (vm_compute; reflexivity).
  assert (S : timespan sample_host (TOKEN_EXPIRY sample_cfg) = Some 1800)
    by (vm_compute; reflexivity).
  assert (T : 1704462360000 / 1000 < clock world0 / 1000 + 1800)
    by (vm_compute; reflexivity).
  split; [ exact C | ]. split; [ exact S | ]. split; [ exact T | ].
  exact (@login_then_verify sample_host sample_cfg sample_env world0 1800
           1704462360000 C S T).
Defined.

(** ** C3 *)

Lemma verifyToken_gate_witness :
  verifyToken sample_cfg None world0
  = (Some (respond 401 (ErrorBody MSG_MISSING_HEADER)), world0)
  /\ startsWith (lit "Bearer forged") BEARER = true
  /\ fst (verifyToken sample_cfg (Some (lit "Bearer forged")) world0)
     = Some (respond 401 (ErrorBody MSG_INVALID_TOKEN))
  /\ startsWith sample_bearer BEARER = true
  /\ jwt_verify (trim (skipn 7 sample_bearer)) (AUTH_TOKEN_SECRET sample_cfg)
       world_without_scope
     = Some claims_without_scope
  /\ c_scope claims_without_scope = []
  /\ verifyToken sample_cfg (Some sample_bearer) world_without_scope
     = (None, world_without_scope)
  /\ postBlogs sample_host sample_cfg (Some sample_bearer) sample_payload
       world_without_scope
     = createBlog sample_host sample_payload world_without_scope.
Proof.
  pose proof (@verifyToken_gate sample_host sample_cfg None sample_payload
                world0) as (Missing & _ & _).
  pose proof (@verifyToken_gate sample_host sample_cfg
                (Some (lit "Bearer forged")) sample_payload world0)
    as (_ & Invalid & _).
  pose proof (@verifyToken_gate sample_host sample_cfg (Some sample_bearer)
                sample_payload world_without_scope) as (_ & _ & Pass).
  assert (S1 : startsWith (lit "Bearer forged") BEARER = true)
    by (vm_compute; reflexivity).
  assert (S2 : startsWith sample_bearer BEARER = true)
    by (vm_compute; reflexivity).
  assert (V : jwt_verify (trim (skipn 7 sample_bearer))
                (AUTH_TOKEN_SECRET sample_cfg) world_without_scope
              = Some claims_without_scope)
    by (vm_compute; reflexivity).
  split; [ apply Missing; left; reflexivity | ].
  split; [ exact S1 | ].
  split; [ apply (Invalid _ eq_refl S1); vm_compute; reflexivity | ].
  split; [ exact S2 | ]. split; [ exact V | ]. split; [ reflexivity | ].
  exact (Pass _ _ eq_refl S2 V).
Defined.

(** ** C5 *)

Lemma date_becomes_publishedAt_witness :
  p_date sample_payload = JString (lit "2024-01-05T13:45:00Z")
  /\ (zod_length sample_host (lit "2024-01-05T13:45:00Z") <= 40)%nat
  /\ new_Date sample_host (lit "2024-01-05T13:45:00Z")
     = TimeValue 1704462300000
  /\ (exists m,
        utc_day_start 1704462300000 m
        /\ doc_publishedAt (build_document sample_host sample_data)
           = Some (TimeValue m)
        /\ forall createdAt,
             st_publishedAt
               (store_document (build_document sample_host sample_data)
                  createdAt)
             = Some m)
  /\ p_date (dated long_nonsense sample_payload) = JString long_nonsense
  /\ (40 < zod_length sample_host long_nonsense)%nat
  /\ exists issues,
       safeParse sample_host
         (with_slug (dated long_nonsense sample_payload) (lit "hello-world"))
       = inl issues
       /\ In {| path := FDate; code := too_big |} issues.
Proof.
  assert (D : p_date sample_payload = JString (lit "2024-01-05T13:45:00Z"))
    by reflexivity.
  assert (L : (zod_length sample_host (lit "2024-01-05T13:45:00Z")
               <= 40)%nat)
    by (vm_compute; lia).
  assert (D' : p_date (dated long_nonsense sample_payload)
               = JString long_nonsense)
    by reflexivity.
  assert (L' : (40 < zod_length sample_host long_nonsense)%nat)
    by (vm_compute; lia).
  split; [ exact D | ]. split; [ exact L | ].
  split; [ vm_compute; reflexivity | ].
  split.
  - destruct (@date_becomes_publishedAt sample_host sample_payload
                (lit "hello-world") (lit "2024-01-05T13:45:00Z") D)
      as (_ & _ & Short & _).
    destruct (Short L) as (_ & P & _).
    apply (P sample_data). vm_compute. reflexivity.
  - split; [ exact D' | ]. split; [ exact L' | ].
    destruct (@date_becomes_publishedAt sample_host
                (dated long_nonsense sample_payload) (lit "hello-world")
                long_nonsense D')
      as (_ & _ & _ & Long).
    destruct (Long L') as (issues & V & I & _).
    exists issues. split; [ exact V | exact I ].
Defined.

(** A date of 41 characters fails validation, whether it parses or not:
    the payload is valid without it, and with it the answer is 400 with
    an issue of the date. *)
Lemma long_date_fails_validation :
  List.length long_nonsense = 41%nat
  /\ code_points long_nonsense = 41%nat
  /\ new_Date sample_host long_nonsense = InvalidDate
  /\ safeParse sample_host
       (with_slug (without_date (dated long_nonsense sample_payload))
          (lit "hello-world"))
     = inr (with_date None sample_data)
  /\ postBlogs sample_host sample_cfg (Some sample_bearer)
       (dated long_nonsense sample_payload) world1
     = (respond 400
          (InvalidPayloadBody [{| path := FDate; code := too_big |}]),
        world1)
  /\ new_Date sample_host
       (lit "Fri Jan 05 2024 13:45:00 GMT+0000 (Coordinated Universal Time)")
     = TimeValue 1704462300000
  /\ postBlogs sample_host sample_cfg (Some sample_bearer)
       (dated
          (lit "Fri Jan 05 2024 13:45:00 GMT+0000 (Coordinated Universal Time)")
          sample_payload)
       world1
     = (respond 400
          (InvalidPayloadBody [{| path := FDate; code := too_big |}]),
        world1).
Proof. vm_compute. repeat split; reflexivity. Qed.

(** ** C6 *)

Lemma listBlogs_newest_first_capped_witness :
  db_fault small_world = None
  /\ exists sorted,
       Permutation sorted (collection small_world)
       /\ StronglySorted newest_first sorted
       /\ fst (listBlogs sample_host (JString (lit "2")) small_world)
          = respond 200
              (PostsBody
                 (map (fun d => toBlogResponse sample_host (Some d))
                    (firstn 2 sorted))).
Proof.
  assert (F : db_fault small_world = None) by reflexivity.
  split; [ exact F | ].
  destruct (@listBlogs_newest_first_capped sample_host (JString (lit "2"))
              small_world F) as (sorted & P & S & R & _).
  exists sorted. split; [ exact P | ]. split; [ exact S | ]. exact R.
Defined.

(** The limit [10 ^ 309] is a positive integer in decimal digits, and
    with it [GET /blogs] returns all 101 posts of the store. *)
Lemma huge_limit_is_not_capped :
  forallb is_digit huge_limit = true
  /\ digits_value huge_limit = 10 ^ 309
  /\ parseInt10 (JString huge_limit) = Infinite false
  /\ List.length (collection crowded_world) = 101%nat
  /\ match content (fst (listBlogs sample_host (JString huge_limit)
                           crowded_world)) with
     | PostsBody posts => List.length posts
     | _ => 0%nat
     end = 101%nat.
Proof. vm_compute. repeat split; reflexivity. Qed.

(** ** C8 *)

(** A request with a token that does not verify fails with
    InvalidOrExpired and leaves an entry in the error log. *)
Lemma invalid_token_is_logged :
  failure_of (fst (postBlogs sample_host sample_cfg
                     (Some (lit "Bearer forged")) sample_payload world0))
  = Some InvalidOrExpired
  /\ console world0 = []
  /\ console (snd (postBlogs sample_host sample_cfg
                     (Some (lit "Bearer forged")) sample_payload world0))
     = [ConsoleError (lit "Invalid token")].
Proof. vm_compute. repeat split; reflexivity. Qed.

Lemma expected_failures_and_console_witness :
  failure_of (fst (postBlogs sample_host sample_cfg None sample_payload
                     world0))
  = Some MissingCredential
  /\ console (snd (postBlogs sample_host sample_cfg None sample_payload
                     world0))
     = console world0
  /\ failure_of (fst (postBlogs sample_host sample_cfg (Some sample_bearer)
                        (slugged (JString []) sample_payload) world1))
     = Some ValidationFailed
  /\ console (snd (postBlogs sample_host sample_cfg (Some sample_bearer)
                     (slugged (JString []) sample_payload) world1))
     = console world1.
Proof.
  assert (M : failure_of (fst (postBlogs sample_host sample_cfg None
                                 sample_payload world0))
              = Some MissingCredential)
    by (vm_compute; reflexivity).
  assert (V : failure_of (fst (postBlogs sample_host sample_cfg
                                 (Some sample_bearer)
                                 (slugged (JString []) sample_payload)
                                 world1))
              = Some ValidationFailed)
    by (vm_compute; reflexivity).
  split; [ exact M | ].
  split;
    [ exact (proj1 (@expected_failures_and_console sample_host sample_cfg
                      None sample_payload world0) M) | ].
  split; [ exact V | ].
  exact (proj1 (proj2 (@expected_failures_and_console sample_host sample_cfg
                         (Some sample_bearer)
                         (slugged (JString []) sample_payload) world1)) V).
Defined.

(** ** C9 *)

(** A title of punctuation only normalizes to the empty slug, which the
    slug rule refuses twice: as too short, and by its expression. *)
Lemma empty_slug_fails_the_expression :
  sanitizeSlug sample_host (lit "!!!") = []
  /\ slug_schema sample_host
       (JString (sanitizeSlug sample_host (lit "!!!")))
     = inl [{| path := FSlug; code := too_small |};
            {| path := FSlug; code := invalid_regex |}]
  /\ postBlogs sample_host sample_cfg (Some sample_bearer)
       (titled (JString (lit "!!!")) sample_payload) world1
     = (respond 400
          (InvalidPayloadBody
             [{| path := FSlug; code := too_small |};
              {| path := FSlug; code := invalid_regex |}]),
        world1).
Proof. vm_compute. repeat split; reflexivity. Qed.

(** ** C10 *)

Lemma empty_slug_is_not_replaced_witness :
  fst (verifyToken sample_cfg (Some sample_bearer) world1) = None
  /\ p_slug (slugged (JString []) sample_payload) = JString []
  /\ slug_schema sample_host
       (JString (sanitizeSlug sample_host (lit "Hello, World!")))
     = inr (lit "hello-world")
  /\ (exists issues,
        postBlogs sample_host sample_cfg (Some sample_bearer)
          (slugged (JString []) sample_payload) world1
        = (respond 400 (InvalidPayloadBody issues), world1)
        /\ In {| path := FSlug; code := too_small |} issues
        /\ failure_of
             (fst (postBlogs sample_host sample_cfg (Some sample_bearer)
                     (slugged (JString []) sample_payload) world1))
           = Some ValidationFailed)
  /\ postBlogs sample_host sample_cfg (Some sample_bearer)
       (slugged unprintable sample_payload) world1
     = (respond 500 (ErrorBody MSG_STORE_FAILED),
        console_error (lit "Failed to persist blog post") world1).
Proof.
  assert (G : fst (verifyToken sample_cfg (Some sample_bearer) world1) = None)
    by (vm_compute; reflexivity).
  assert (S : p_slug (slugged (JString []) sample_payload) = JString [])
    by reflexivity.
  split; [ exact G | ]. split; [ exact S | ].
  split; [ vm_compute; reflexivity | ].
  split.
  - exact (proj2 (proj2 (@empty_slug_is_not_replaced sample_host sample_cfg
                           (Some sample_bearer)
                           (slugged (JString []) sample_payload) world1 G))
             S).
  - exact (proj1 (proj2 (@empty_slug_is_not_replaced sample_host sample_cfg
                           (Some sample_bearer)
                           (slugged unprintable sample_payload) world1 G))
             eq_refl eq_refl).
Defined.

(** ** Releases and settings *)

(** A date of 21 astral characters has 42 code units: a release of zod
    that counts code units refuses it, one that counts code points lets
    it pass, and the post is stored without a date. *)
Example astral_date_and_the_two_lengths :
  List.length astral_date = 42%nat
  /\ code_points astral_date = 21%nat
  /\ postBlogs units_host sample_cfg (Some sample_bearer)
       (dated astral_date sample_payload) world1
     = (respond 400
          (InvalidPayloadBody [{| path := FDate; code := too_big |}]),
        world1)
  /\ fst (postBlogs sample_host sample_cfg (Some sample_bearer)
            (dated astral_date sample_payload) world1)
     = respond 201 (SlugBody (lit "hello-world"))
  /\ map st_publishedAt
       (collection
          (snd (postBlogs sample_host sample_cfg (Some sample_bearer)
                  (dated astral_date sample_payload) world1)))
     = [None].
Proof. vm_compute. repeat split; reflexivity. Qed.

(** With a [TOKEN_EXPIRY] that is no time span the process starts, and a
    login with the admin secret ends in the final handler of Express. *)
Example login_without_time_span :
  load_config careless_env = Some careless_cfg
  /\ login sample_host careless_cfg (JString (lit "s3cret")) world0
     = (respond 500 UncaughtBody, console_log ConsoleStack world0).
Proof. vm_compute. split; reflexivity. Qed.

(** The slug of the address is trimmed on its way to the store. *)
Example padded_slug_is_found :
  status (fst (getBlog sample_host (lit " post-xx ") small_world)) = 200.
Proof. vm_compute. reflexivity. Qed.

(* ================================================================== *)
(** * Further properties on concrete requests *)

Lemma login_refuses_other_secrets_witness :
  (JString (lit "guess") : jsval) <> JString (ADMIN_SECRET_KEY sample_cfg)
  /\ login sample_host sample_cfg (JString (lit "guess")) world0
     = (respond 401 (ErrorBody (lit "Invalid credentials.")), world0)
  /\ (JNull : jsval) <> JString (ADMIN_SECRET_KEY sample_cfg)
  /\ login sample_host sample_cfg JNull world0
     = (respond 400 (ErrorBody (lit "Secret key is required.")), world0).
Proof.
  assert (N1 : (JString (lit "guess") : jsval)
               <> JString (ADMIN_SECRET_KEY sample_cfg))
    by (vm_compute; discriminate).
  assert (N2 : (JNull : jsval) <> JString (ADMIN_SECRET_KEY sample_cfg))
    by discriminate.
  destruct (@login_refuses_other_secrets sample_host sample_cfg
              (JString (lit "guess")) world0 N1) as (W1 & _ & R1).
  destruct (@login_refuses_other_secrets sample_host sample_cfg JNull world0
              N2) as (W2 & R2 & _).
  split; [ exact N1 | ].
  split; [ rewrite (surjective_pairing (login _ _ _ _)), W1, R1;
           reflexivity | ].
  split; [ exact N2 | ].
  rewrite (surjective_pairing (login _ _ _ _)), W2, R2; reflexivity.
Defined.

Lemma login_mints_one_token_witness :
  status (fst (login sample_host sample_cfg (JString (lit "s3cret")) world0))
  = 200
  /\ exists token span s,
       timespan sample_host (TOKEN_EXPIRY sample_cfg) = Some span
       /\ fst (login sample_host sample_cfg (JString (lit "s3cret")) world0)
          = respond 200 (TokenBody token (TOKEN_EXPIRY sample_cfg))
       /\ minted (snd (login sample_host sample_cfg (JString (lit "s3cret"))
                         world0))
          = (token, s) :: minted world0
       /\ signed_with s = AUTH_TOKEN_SECRET sample_cfg
       /\ c_scope (signed_claims s) = [lit "blog:create"].
Proof.
  assert (S : status (fst (login sample_host sample_cfg
                             (JString (lit "s3cret")) world0)) = 200)
    by (vm_compute; reflexivity).
  split; [ exact S | ].
  destruct (@login_mints_one_token sample_host sample_cfg
              (JString (lit "s3cret")) world0 S)
    as (_ & token & span & s & T & R & M & K & Sc & _).
  exists token, span, s. auto.
Defined.

Lemma login_token_opens_gate_witness :
  timespan sample_host (TOKEN_EXPIRY sample_cfg) = Some 1800
  /\ login sample_host sample_cfg (JString (lit "s3cret")) world0
     = (respond 200 (TokenBody (token_text 0) (lit "30m")), world1)
  /\ 1704462360000 / 1000 < clock world0 / 1000 + 1800
  /\ postBlogs sample_host sample_cfg (Some (BEARER ++ token_text 0))
       sample_payload (at_time 1704462360000 world1)
     = createBlog sample_host sample_payload (at_time 1704462360000 world1)
  /\ clock world0 / 1000 + 1800 <= 1704464100000 / 1000
  /\ postBlogs sample_host sample_cfg (Some (BEARER ++ token_text 0))
       sample_payload (at_time 1704464100000 world1)
     = (respond 401 (ErrorBody MSG_INVALID_TOKEN),
        console_error (lit "Invalid token") (at_time 1704464100000 world1)).
Proof.
  assert (T : timespan sample_host (TOKEN_EXPIRY sample_cfg) = Some 1800)
    by (vm_compute; reflexivity).
  assert (L : login sample_host sample_cfg (JString (lit "s3cret")) world0
              = (respond 200 (TokenBody (token_text 0) (lit "30m")), world1))
    by (vm_compute; reflexivity).
  assert (B : 1704462360000 / 1000 < clock world0 / 1000 + 1800)
    by (vm_compute; reflexivity).
  assert (A : clock world0 / 1000 + 1800 <= 1704464100000 / 1000)
    by (vm_compute; discriminate).
  split; [ exact T | ]. split; [ exact L | ]. split; [ exact B | ].
  split;
    [ exact (proj1 (@login_token_opens_gate sample_host sample_cfg _ _ _ _ _
                      _ T L 1704462360000 sample_payload) B) | ].
  split; [ exact A | ].
  exact (proj2 (@login_token_opens_gate sample_host sample_cfg _ _ _ _ _ _
                  T L 1704464100000 sample_payload) A).
Defined.

Lemma verifyToken_ignores_padding_witness :
  forallb is_space (lit "  ") = true
  /\ forallb is_space [9%N; 32%N] = true
  /\ verifyToken sample_cfg
       (Some (BEARER ++ lit "  " ++ token_text 0 ++ [9%N; 32%N])) world1
     = verifyToken sample_cfg (Some (BEARER ++ token_text 0)) world1
  /\ verifyToken sample_cfg (Some (BEARER ++ token_text 0)) world1
     = (None, world1).
Proof.
  assert (B : forallb is_space (lit "  ") = true) by reflexivity.
  assert (A : forallb is_space [9%N; 32%N] = true) by reflexivity.
  split; [ exact B | ]. split; [ exact A | ].
  split; [ exact (@verifyToken_ignores_padding sample_cfg (lit "  ")
                    (token_text 0) [9%N; 32%N] world1 B A) | ].
  vm_compute. reflexivity.
Defined.

Lemma slugs_stay_unique_witness :
  NoDup (map st_slug (collection busy_world))
  /\ status (fst (postBlogs sample_host sample_cfg (Some sample_bearer)
                    sample_payload busy_world)) = 201
  /\ NoDup (map st_slug
              (collection
                 (snd (postBlogs sample_host sample_cfg (Some sample_bearer)
                         sample_payload busy_world)))).
Proof.
  assert (N : NoDup (map st_slug (collection busy_world))).
  { vm_compute. repeat constructor; simpl; intuition discriminate. }
  split; [ exact N | ]. split; [ vm_compute; reflexivity | ].
  exact (@slugs_stay_unique sample_host sample_cfg (Some sample_bearer)
           sample_payload busy_world N).
Defined.

Lemma taken_slug_conflicts_witness :
  In (numbered_post 1) (collection busy_world)
  /\ normalizedSlug sample_host (slugged (JString (lit "Post X"))
                                   sample_payload)
     = Some (st_slug (numbered_post 1))
  /\ fst (verifyToken sample_cfg (Some sample_bearer) busy_world) = None
  /\ safeParse sample_host
       (with_slug (slugged (JString (lit "Post X")) sample_payload)
          (st_slug (numbered_post 1)))
     = inr {| d_title := d_title sample_data;
              d_slug := lit "post-x";
              d_author := d_author sample_data;
              d_date := d_date sample_data;
              d_excerpt := d_excerpt sample_data;
              d_image := d_image sample_data;
              d_content := d_content sample_data |}
  /\ fst (postBlogs sample_host sample_cfg (Some sample_bearer)
            (slugged (JString (lit "Post X")) sample_payload) busy_world)
     = respond 409 (ErrorBody MSG_SLUG_EXISTS)
  /\ collection (snd (postBlogs sample_host sample_cfg (Some sample_bearer)
                        (slugged (JString (lit "Post X")) sample_payload)
                        busy_world))
     = collection busy_world.
Proof.
  assert (I : In (numbered_post 1) (collection busy_world))
    by (right; left; reflexivity).
  assert (E : normalizedSlug sample_host
                (slugged (JString (lit "Post X")) sample_payload)
              = Some (st_slug (numbered_post 1)))
    by (vm_compute; reflexivity).
  assert (G : fst (verifyToken sample_cfg (Some sample_bearer) busy_world)
              = None)
    by (vm_compute; reflexivity).
  pose proof (@taken_slug_conflicts sample_host sample_cfg
                (Some sample_bearer)
                (slugged (JString (lit "Post X")) sample_payload)
                busy_world (numbered_post 1) I E) as (_ & C & K).
  split; [ exact I | ]. split; [ exact E | ]. split; [ exact G | ].
  split; [ vm_compute; reflexivity | ].
  split; [ | exact C ].
  rewrite (K _ G ltac:(vm_compute; reflexivity)
             ltac:(vm_compute; reflexivity) eq_refl).
  reflexivity.
Defined.

Lemma created_post_is_found_witness :
  postBlogs sample_host sample_cfg (Some sample_bearer) sample_payload world1
  = (respond 201 (SlugBody (lit "hello-world")),
     snd (postBlogs sample_host sample_cfg (Some sample_bearer)
            sample_payload world1))
  /\ exists post title content,
       fst (getBlog sample_host (lit "hello-world")
              (snd (postBlogs sample_host sample_cfg (Some sample_bearer)
                      sample_payload world1)))
       = respond 200 (PostBody (Some post))
       /\ p_title sample_payload = JString title
       /\ p_content sample_payload = JString content
       /\ r_slug post = lit "hello-world"
       /\ r_title post = trim title
       /\ r_content post = trim content
       /\ r_author post <> [].
Proof.
  assert (P : postBlogs sample_host sample_cfg (Some sample_bearer)
                sample_payload world1
              = (respond 201 (SlugBody (lit "hello-world")),
                 snd (postBlogs sample_host sample_cfg (Some sample_bearer)
                        sample_payload world1)))
    by (vm_compute; reflexivity).
  split; [ exact P | ].
  exact (@created_post_is_found sample_host sample_cfg (Some sample_bearer)
           sample_payload world1 _ (lit "hello-world") P).
Defined.

Lemma getBlog_found_or_404_witness :
  db_fault small_world = None
  /\ fst (getBlog sample_host (lit "never-written") small_world)
     = respond 404 (ErrorBody MSG_NOT_FOUND)
  /\ exists d,
       In d (collection small_world)
       /\ st_slug d = trim (lit " post-xx ")
       /\ fst (getBlog sample_host (lit " post-xx ") small_world)
          = respond 200 (PostBody (toBlogResponse sample_host (Some d))).
Proof.
  assert (F : db_fault small_world = None) by reflexivity.
  split; [ exact F | ].
  split.
  - apply (proj1 (@getBlog_found_or_404 sample_host (lit "never-written")
                    small_world F)).
    vm_compute. intuition discriminate.
  - apply (proj1 (proj2 (@getBlog_found_or_404 sample_host (lit " post-xx ")
                           small_world F))).
    vm_compute. auto.
Defined.

Lemma invalid_payload_has_no_effect_witness :
  status (fst (postBlogs sample_host sample_cfg (Some sample_bearer)
                 (with_content (JString (lit "too short")) sample_payload)
                 world1)) = 400
  /\ snd (postBlogs sample_host sample_cfg (Some sample_bearer)
            (with_content (JString (lit "too short")) sample_payload) world1)
     = world1.
Proof.
  assert (S : status (fst (postBlogs sample_host sample_cfg
                             (Some sample_bearer)
                             (with_content (JString (lit "too short"))
                                sample_payload)
                             world1)) = 400)
    by (vm_compute; reflexivity).
  split; [ exact S | ].
  exact (proj1 (@invalid_payload_has_no_effect sample_host sample_cfg
                  (Some sample_bearer)
                  (with_content (JString (lit "too short")) sample_payload)
                  world1 S)).
Defined.

Lemma short_content_is_rejected_witness :
  fst (verifyToken sample_cfg (Some sample_bearer) world1) = None
  /\ (List.length (lit "too short") < 20)%nat
  /\ (exists issues,
        postBlogs sample_host sample_cfg (Some sample_bearer)
          (with_content (JString (lit "too short")) sample_payload) world1
        = (respond 400 (InvalidPayloadBody issues), world1)
        /\ In {| path := FContent; code := too_small |} issues)
  /\ (exists issues,
        postBlogs sample_host sample_cfg (Some sample_bearer)
          (with_content JNull sample_payload) world1
        = (respond 400 (InvalidPayloadBody issues), world1)
        /\ In {| path := FContent; code := invalid_type |} issues)
  /\ postBlogs sample_host sample_cfg (Some sample_bearer)
       (slugged unprintable (with_content JNull sample_payload)) world1
     = (respond 500 (ErrorBody MSG_STORE_FAILED),
        console_error (lit "Failed to persist blog post") world1).
Proof.
  assert (G : fst (verifyToken sample_cfg (Some sample_bearer) world1) = None)
    by (vm_compute; reflexivity).
  assert (L : (List.length (lit "too short") < 20)%nat)
    by (vm_compute; lia).
  split; [ exact G | ]. split; [ exact L | ].
  split; [ | split ].
  - apply (proj1 (@short_content_is_rejected sample_host sample_cfg
                    (Some sample_bearer)
                    (with_content (JString (lit "too short")) sample_payload)
                    world1 G L)).
    vm_compute. discriminate.
  - apply (proj1 (@short_content_is_rejected sample_host sample_cfg
                    (Some sample_bearer) (with_content JNull sample_payload)
                    world1 G I)).
    vm_compute. discriminate.
  - exact (proj2 (@short_content_is_rejected sample_host sample_cfg
                    (Some sample_bearer)
                    (slugged unprintable (with_content JNull sample_payload))
                    world1 G I) eq_refl).
Defined.

Lemma blank_title_is_a_store_failure_witness :
  fst (verifyToken sample_cfg (Some sample_bearer) world1) = None
  /\ normalizedSlug sample_host blank_title_payload = Some (lit "blank")
  /\ safeParse sample_host (with_slug blank_title_payload (lit "blank"))
     = inr blank_title_data
  /\ forallb is_space (d_title blank_title_data) = true
  /\ fst (postBlogs sample_host sample_cfg (Some sample_bearer)
            blank_title_payload world1)
     = respond 500 (ErrorBody MSG_STORE_FAILED)
  /\ collection (snd (postBlogs sample_host sample_cfg (Some sample_bearer)
                        blank_title_payload world1))
     = collection world1
  /\ console (snd (postBlogs sample_host sample_cfg (Some sample_bearer)
                     blank_title_payload world1))
     = console world1 ++ [ConsoleError (lit "Failed to persist blog post")].
Proof.
  assert (G : fst (verifyToken sample_cfg (Some sample_bearer) world1) = None)
    by (vm_compute; reflexivity).
  assert (N : normalizedSlug sample_host blank_title_payload
              = Some (lit "blank"))
    by (vm_compute; reflexivity).
  assert (V : safeParse sample_host
                (with_slug blank_title_payload (lit "blank"))
              = inr blank_title_data)
    by (vm_compute; reflexivity).
  assert (B : forallb is_space (d_title blank_title_data) = true)
    by reflexivity.
  split; [ exact G | ]. split; [ exact N | ]. split; [ exact V | ].
  split; [ exact B | ].
  exact (@blank_title_is_a_store_failure sample_host sample_cfg
           (Some sample_bearer) blank_title_payload world1 (lit "blank")
           blank_title_data G N V (or_introl B)).
Defined.

Lemma stored_posts_stay_well_formed_witness :
  Forall (post_ok sample_host) (collection world1)
  /\ List.length
       (collection (snd (postBlogs sample_host sample_cfg
                           (Some sample_bearer) sample_payload world1)))
     = 1%nat
  /\ Forall (post_ok sample_host)
       (collection (snd (postBlogs sample_host sample_cfg
                           (Some sample_bearer) sample_payload world1))).
Proof.
  assert (F : Forall (post_ok sample_host) (collection world1))
    by constructor.
  split; [ exact F | ]. split; [ vm_compute; reflexivity | ].
  exact (@stored_posts_stay_well_formed sample_host sample_cfg
           (Some sample_bearer) sample_payload world1 F).
Defined.

Lemma ascii_slug_is_no_longer_witness :
  forallb is_ascii (lit "Hello, World!") = true
  /\ (List.length (sanitizeSlug sample_host (lit "Hello, World!"))
      <= List.length (lit "Hello, World!"))%nat
  /\ slug_schema sample_host
       (JString (sanitizeSlug sample_host (lit "Hello, World!")))
     = inr (sanitizeSlug sample_host (lit "Hello, World!")).
Proof.
  assert (A : forallb is_ascii (lit "Hello, World!") = true) by reflexivity.
  destruct (@ascii_slug_is_no_longer sample_host (lit "Hello, World!") A)
    as [L S].
  split; [ exact A | ]. split; [ exact L | ].
  apply S; vm_compute; lia.
Defined.

Lemma undated_posts_are_listed_last_witness :
  db_fault small_world = None
  /\ exists dated undated,
       fst (listBlogs sample_host (JString (lit "4")) small_world)
       = respond 200
           (PostsBody
              (map (fun d => toBlogResponse sample_host (Some d))
                 (dated ++ undated)))
       /\ Forall (fun d =>
                    In d (collection small_world)
                    /\ st_publishedAt d <> None)
            dated
       /\ Forall (fun d =>
                    In d (collection small_world)
                    /\ st_publishedAt d = None
                    /\ exists post,
                         toBlogResponse sample_host (Some d) = Some post
                         /\ r_date post
                            = long_date sample_host (st_createdAt d))
            undated.
Proof.
  assert (F : db_fault small_world = None) by reflexivity.
  split; [ exact F | ].
  exact (@undated_posts_are_listed_last sample_host (JString (lit "4"))
           small_world F).
Defined.
